(** * Detection orchestrator of the APEX mock backend

    A shallow embedding of [server/services/detectionOrchestrator.js] and of
    the two tier modules it drives ([detectionTierA.js], [detectionTierB.js]),
    followed by the properties of the orchestrator: idempotent start, seeding,
    what a step writes, tier merge, outcome aggregation, failure handling and
    the status snapshot.

    JavaScript values are kept untyped where the code is untyped (everything a
    tier hands back); the job record, the store, the interval table, the
    arrays of uploaded files that callers share with the orchestrator and the
    steps that are suspended at an [await] are explicit state.

    [step] is an async function: a tick of a job's interval runs it up to
    its first [await], and each later stretch runs when the awaited tier call
    settles, with the returned or thrown value.  Between two stretches
    anything else may run: a request, an upload, another tick of the same
    interval, the resumption of another step.  [start] and [status] have no
    [await] at all. *)

From Stdlib Require Import QArith Ascii String.
From stdpp Require Import gmap strings list.

Local Open Scope string_scope.

(** ** JavaScript values *)

Module Js.

(** A JS number: a finite double, read as a rational, or one of the three
    non-finite doubles. *)
Inductive Num : Type :=
  | NFin (q : Q)
  | NNaN
  | NPosInf
  | NNegInf.

(** A JS value.  An object is a plain one: its prototype is
    [Object.prototype] and it has own data properties only, none of them
    callable. *)
#[warnings="-register-all"]
Inductive Val : Type :=
  | VUndef
  | VNull
  | VBool (b : bool)
  | VNum (n : Num)
  | VStr (s : string)
  | VBigInt (z : Z)
  | VSymbol (id : nat)
  | VObj (props : list (string * Val)).

(** [!!v] of the language: the value is truthy. *)
Definition truthy (v : Val) : bool :=
  match v with
  | VUndef | VNull => false
  | VBool b => b
  | VNum (NFin q) => negb (Qeq_bool q 0)
  | VNum NNaN => false
  | VNum _ => true
  | VStr s => negb (String.eqb s "")
  | VBigInt z => negb (Z.eqb z 0)
  | VSymbol _ => true
  | VObj _ => true
  end.

(** [v == null], the test behind [??] and [?.]. *)
Definition nullish (v : Val) : bool :=
  match v with
  | VUndef | VNull => true
  | _ => false
  end.

(** [a || b] *)
Definition or (a b : Val) : Val := if truthy a then a else b.

(** [a ?? b] *)
Definition coalesce (a b : Val) : Val := if nullish a then b else a.

(** [v === 'lit'] for a string literal. *)
Definition is_str (v : Val) (lit : string) : bool :=
  match v with
  | VStr s => String.eqb s lit
  | _ => false
  end.

(** [Number.isFinite(v)]: a number, and a finite one. *)
Definition isFinite (v : Val) : bool :=
  match v with
  | VNum (NFin _) => true
  | _ => false
  end.

Fixpoint assoc (k : string) (props : list (string * Val)) : Val :=
  match props with
  | [] => VUndef
  | (k', v) :: rest => if String.eqb k k' then v else assoc k rest
  end.

(** The object has an own property [k]. *)
Fixpoint has_key (k : string) (props : list (string * Val)) : bool :=
  match props with
  | [] => false
  | (k', _) :: rest => String.eqb k k' || has_key k rest
  end.

(** [v.k] for a value that is not nullish and an own data property [k];
    a primitive has none of the properties read in this program. *)
Definition get (v : Val) (k : string) : Val :=
  match v with
  | VObj props => assoc k props
  | _ => VUndef
  end.

(** A value inside a template literal is converted to a string.  The
    conversion throws a TypeError for a symbol, and for an object whose own
    [toString] hides the inherited one: the own property is not callable
    and [valueOf] gives the object back.  [Some msg] is the message of the
    TypeError. *)
Definition template_error (v : Val) : option string :=
  match v with
  | VSymbol _ => Some "Cannot convert a Symbol value to a string"
  | VObj props =>
      if has_key "toString" props
      then Some "Cannot convert object to primitive value"
      else None
  | _ => None
  end.

(** A thrown value, as the [catch] clauses of the program see it: they only
    compute [String(err?.message || err)].  The record describes a value
    for which that conversion gives a string, as it does for an Error, a
    string, a number, a symbol and an object that inherits [toString]. *)
Record Thrown : Type := mkThrown {
  (** [String(err.message)] when [err?.message] is truthy *)
  thrown_message : option string;
  (** [String(err)] *)
  thrown_string : string
}.

(** [String(err?.message || err)] *)
Definition error_text (e : Thrown) : string :=
  match thrown_message e with
  | Some m => m
  | None => thrown_string e
  end.

(** [new TypeError(msg)], thrown. *)
Definition type_error (msg : string) : Thrown :=
  {| thrown_message := if String.eqb msg "" then None else Some msg;
     thrown_string := if String.eqb msg "" then "TypeError" else "TypeError: " ++ msg |}.

(** The outcome of an awaited call. *)
Inductive Completion : Type :=
  | Returned (v : Val)
  | Threw (e : Thrown).

Definition num (z : Z) : Val := VNum (NFin (inject_Z z)).

End Js.

Import Js.

(** ** Data handed to the tiers *)

(** An uploaded-file descriptor, as [/api/upload] stores it; an absent
    property is [None]. *)
Record FileDesc : Type := mkFile {
  originalName : option string;
  serverName : option string
}.

(** The reference dataset: [db.system_data.routines[].required_files[]] and
    [db.system_data.report_field_specs[key].fields]. *)
Record RequiredFile : Type := mkRequiredFile {
  key : string;
  human_name : option string
}.

Record Routine : Type := mkRoutine {
  required_files : option (list RequiredFile)
}.

Record FieldSpec : Type := mkFieldSpec {
  (** [Some l] when [spec.fields] is an array *)
  fields : option (list Val)
}.

Record SystemData : Type := mkSystemData {
  routines : option (list Routine);
  report_field_specs : option (gmap string FieldSpec)
}.

Record Db : Type := mkDb {
  system_data : option SystemData
}.

(** The argument of [TierA.locateAndMap] built in [step]; [a_files] is what
    the array [files] holds when the call is made. *)
Record TierACtx : Type := mkTierACtx {
  a_jobId : string;
  a_reportKey : string;
  a_files : list FileDesc;
  a_db : option Db;
  a_engagementId : option string;
  a_adminId : option string;
  a_routineCodes : list string
}.

(** The argument of [TierB.locateAndMap] built in [step]. *)
Record TierBCtx : Type := mkTierBCtx {
  b_jobId : string;
  b_reportKey : string;
  b_files : list FileDesc;
  b_db : option Db
}.

(** [s || null] on an optional string: the empty string is falsy. *)
Definition str_or_null (s : option string) : option string :=
  match s with
  | Some x => if String.eqb x "" then None else Some x
  | None => None
  end.

(** ** String helpers of the rule tier *)

(** A (well-formed) string is kept as the bytes of its UTF-8 encoding, so
    that [includes] is the search of one byte sequence in another.
    [toLowerCase] is the runtime's, which folds every cased letter of
    Unicode, and stays a parameter of the rule tier; on a string of ASCII
    characters it is [ascii_toLowerCase]. *)
Definition ascii_lower (c : ascii) : ascii :=
  let n := nat_of_ascii c in
  if (65 <=? n)%nat && (n <=? 90)%nat then ascii_of_nat (n + 32) else c.

Fixpoint ascii_toLowerCase (s : string) : string :=
  match s with
  | EmptyString => EmptyString
  | String c rest => String (ascii_lower c) (ascii_toLowerCase rest)
  end.

Fixpoint starts_with (sub s : string) : bool :=
  match sub, s with
  | EmptyString, _ => true
  | String a sub', String b s' => Ascii.eqb a b && starts_with sub' s'
  | String _ _, EmptyString => false
  end.

(** [s.includes(sub)] *)
Fixpoint includes (s sub : string) : bool :=
  starts_with sub s ||
  match s with
  | EmptyString => false
  | String _ rest => includes rest sub
  end.

(** ** Tier A: [server/services/detectionTierA.js] *)

Module TierA.

Record ReportMeta : Type := mkMeta {
  humanName : option string;
  totalFields : nat
}.

(** The two nested [for] loops of [findReportMeta]: the last required file
    whose key is the report key decides [human]. *)
Definition scan_files (reportKey : string) (human : option string)
    (fs : list RequiredFile) : option string :=
  fold_left
    (fun h f => if String.eqb (key f) reportKey
                then str_or_null (human_name f) else h)
    fs human.

Definition scan_routines (reportKey : string) (rs : list Routine) : option string :=
  fold_left
    (fun h r => scan_files reportKey h (default [] (required_files r)))
    rs None.

Definition findReportMeta (db : option Db) (reportKey : string) : ReportMeta :=
  let sd : option SystemData :=
    match db with Some d => system_data d | None => None end in
  let rs : list Routine :=
    match sd with Some x => default [] (routines x) | None => [] end in
  let human := scan_routines reportKey rs in
  let spec : option FieldSpec :=
    match sd with
    | Some x =>
        match report_field_specs x with
        | Some m => m !! reportKey
        | None => None
        end
    | None => None
    end in
  let total :=
    match spec with
    | Some sp => match fields sp with Some l => length l | None => 0%nat end
    | None => 0%nat
    end in
  {| humanName := human; totalFields := total |}.

(** [String(f.originalName || f.serverName || '')] *)
Definition file_name (f : FileDesc) : string :=
  match str_or_null (originalName f) with
  | Some n => n
  | None => default "" (str_or_null (serverName f))
  end.

Definition yes_no (b : bool) : Val := VStr (if b then "yes" else "no").

Section Rules.

(** [String.prototype.toLowerCase] of the runtime. *)
Variable toLowerCase : string -> string.

Definition looksLikeMatch (files : list FileDesc) (reportKey : string)
    (humanName : option string) : bool :=
  let q := toLowerCase reportKey in
  let h := toLowerCase (default "" (str_or_null humanName)) in
  existsb
    (fun f =>
       let name := toLowerCase (file_name f) in
       includes name q || (negb (String.eqb h "") && includes name h))
    files.

(** The function declared as [locateAndMap] (the rules). *)
Definition locateAndMap (ctx : TierACtx) : Completion :=
  let meta := findReportMeta (a_db ctx) (a_reportKey ctx) in
  let locatedYes := looksLikeMatch (a_files ctx) (a_reportKey ctx) (humanName meta) in
  let mappedYes := locatedYes && (0 <? totalFields meta)%nat in
  Returned (VObj [
    ("located", yes_no locatedYes);
    ("mapped", yes_no mappedYes);
    ("locatedSource", VStr "db");
    ("mappedCount", num (if mappedYes then Z.of_nat (totalFields meta) else 0));
    ("totalFields", num (Z.of_nat (totalFields meta)));
    ("message", VNull)
  ]).

End Rules.

(** [module.exports.locateAndMap], reassigned at the end of the file: this is
    what [require('./detectionTierA').locateAndMap] is. *)
Definition exported_locateAndMap (ctx : TierACtx) : Completion :=
  Returned (VObj [
    ("located", VStr "no");
    ("mapped", VStr "no");
    ("locatedSource", VNull);
    ("mappedCount", num 0);
    ("totalFields", num 0);
    ("message", VNull)
  ]).

End TierA.

(** ** Tier B: [server/services/detectionTierB.js] *)

Module TierB.

Definition locateAndMap (ctx : TierBCtx) : Completion :=
  Returned (VObj [
    ("located", VStr "no");
    ("mapped", VStr "no");
    ("locatedSource", VStr "ai");
    ("mappedCount", num 0);
    ("totalFields", num 0);
    ("message", VNull)
  ]).

(** [module.exports.locateAndMap], reassigned with the same answer. *)
Definition exported_locateAndMap (ctx : TierBCtx) : Completion :=
  Returned (VObj [
    ("located", VStr "no");
    ("mapped", VStr "no");
    ("locatedSource", VStr "ai");
    ("mappedCount", num 0);
    ("totalFields", num 0);
    ("message", VNull)
  ]).

End TierB.

(** ** The orchestrator: [server/services/detectionOrchestrator.js] *)

Inductive Overall : Type := running | success | failed.

Record Progress : Type := mkProgress {
  done : nat;
  total : nat
}.

Record ReportTask : Type := mkTask {
  reportKey : string;
  fieldsMapped : Val;
  attributesMapped : Val;
  locatedSource : Val;
  mappedCount : Val;
  totalFields : Val;
  message : Val
}.

Record Outcome : Type := mkOutcome {
  fieldsAnyNo : bool;
  attributesAnyNo : bool;
  fieldsAllYes : bool;
  attributesAllYes : bool
}.

(** The job record of the store; [_timer] is the handle of the job's
    interval ([None] is [null]), [job_message] the job's [message]. *)
Record Job : Type := mkJob {
  startedAt : Z;
  overall : Overall;
  progress : Progress;
  reports : list ReportTask;
  outcome : Outcome;
  _timer : option nat;
  _cursor : nat;
  job_message : option string
}.

(** The context [start] hands to [schedule], captured by the interval.
    [ctx_files] is the array itself, not its contents: [Some a] is the array
    [a] the caller passed as [payload.files] and still holds, [None] the
    empty array made by [payload.files || []], which nobody else holds. *)
Record SchedCtx : Type := mkSchedCtx {
  ctx_db : option Db;
  ctx_files : option nat;
  ctx_engagementId : option string;
  ctx_adminId : option string;
  ctx_routineCodes : list string
}.

(** A live interval of the runtime: its callback runs [step(jobId, ctx)]. *)
Record Interval : Type := mkInterval {
  iv_jobId : string;
  iv_ctx : SchedCtx
}.

(** A tier result once normalized, and the merged [result] of [step]. *)
Record TierResult : Type := mkResult {
  r_fieldsMapped : Val;
  r_attributesMapped : Val;
  r_locatedSource : Val;
  r_mappedCount : Val;
  r_totalFields : Val;
  r_message : Val
}.

(** A call of [step] that is suspended at an [await], with the locals it
    holds: [i], the task [r] it took from [job.reports[i]] (kept here by
    [i] and by its key, which nothing ever reassigns), and, at the second
    [await], the normalized answer of Tier A. *)
Inductive Pending : Type :=
  | AwaitA (jobId : string) (ctx : SchedCtx) (i : nat) (rkey : string)
  | AwaitB (jobId : string) (ctx : SchedCtx) (i : nat) (rkey : string)
           (resA : option TierResult).

(** The module's [store] map together with what the runtime holds for it:
    the interval table, the arrays of file descriptors that callers passed
    in by reference, and the suspended calls of [step]. *)
Record State : Type := mkState {
  store : gmap string Job;
  timers : gmap nat Interval;
  next_timer : nat;
  arrays : gmap nat (list FileDesc);
  inflight : list Pending
}.

Definition init_state : State :=
  {| store := ∅; timers := ∅; next_timer := 0; arrays := ∅; inflight := [] |}.

(** [reportKeys] of the payload: absent, [null] or an array of keys. *)
Inductive KeysArg : Type :=
  | KUndefined
  | KNull
  | KArray (l : list string).

(** The payload of [start]; [files] is an array of the caller, given by
    reference. *)
Record Payload : Type := mkPayload {
  db : option Db;
  files : option nat;
  engagementId : option string;
  adminId : option string;
  routineCodes : option (list string);
  reportKeys : KeysArg
}.

(** What [start] gives back: the returned object (an absent flag is
    [false]) or the thrown error's message. *)
Inductive StartResult : Type :=
  | StartReturned (jobId : string) (started empty already : bool)
  | StartThrew (msg : string).

Inductive TierCall : Type :=
  | CallA (c : TierACtx)
  | CallB (c : TierBCtx).

Record TaskView : Type := mkTaskView {
  v_reportKey : string;
  v_fieldsMapped : Val;
  v_attributesMapped : Val;
  v_located : Val;
  v_mapped : Val;
  v_locatedSource : Val;
  v_mappedCount : Val;
  v_totalFields : Val;
  v_message : Val
}.

Record Snapshot : Type := mkSnapshot {
  s_jobId : string;
  s_overall : Overall;
  s_progress : Progress;
  s_outcome : Outcome;
  s_reports : list TaskView
}.

(** Field updates of the job record. *)
Definition set_overall (o : Overall) (j : Job) : Job :=
  mkJob (startedAt j) o (progress j) (reports j) (outcome j) (_timer j)
        (_cursor j) (job_message j).

Definition set_outcome (o : Outcome) (j : Job) : Job :=
  mkJob (startedAt j) (overall j) (progress j) (reports j) o (_timer j)
        (_cursor j) (job_message j).

Definition set_timer (t : option nat) (j : Job) : Job :=
  mkJob (startedAt j) (overall j) (progress j) (reports j) (outcome j) t
        (_cursor j) (job_message j).

Definition set_message (m : option string) (j : Job) : Job :=
  mkJob (startedAt j) (overall j) (progress j) (reports j) (outcome j)
        (_timer j) (_cursor j) m.

Definition set_store (m : gmap string Job) (st : State) : State :=
  mkState m (timers st) (next_timer st) (arrays st) (inflight st).

Definition set_inflight (l : list Pending) (st : State) : State :=
  mkState (store st) (timers st) (next_timer st) (arrays st) l.

(** What the array behind [ctx.files] holds now. *)
Definition current_files (st : State) (ctx : SchedCtx) : list FileDesc :=
  match ctx_files ctx with
  | Some a => default [] (arrays st !! a)
  | None => []
  end.

(** [files.push(...fs)] by the holder of the array [a], as the upload
    route does on the array it later passes to [start]. *)
Definition push_files (a : nat) (fs : list FileDesc) (st : State) : State :=
  mkState (store st) (timers st) (next_timer st)
          (<[a := (default [] (arrays st !! a) ++ fs)%list]> (arrays st))
          (inflight st).

(** Compute overall outcome booleans from current report states. *)
Definition computeOutcome (reports : list ReportTask) : Outcome :=
  {| fieldsAnyNo := existsb (fun r => is_str (fieldsMapped r) "no") reports;
     attributesAnyNo := existsb (fun r => is_str (attributesMapped r) "no") reports;
     fieldsAllYes :=
       (0 <? length reports)%nat
       && forallb (fun r => is_str (fieldsMapped r) "yes") reports;
     attributesAllYes :=
       (0 <? length reports)%nat
       && forallb (fun r => is_str (attributesMapped r) "yes") reports |}.

(** One axis of [normalizeTierResult]. *)
Definition normalize_axis (raw : Val) : Val :=
  if is_str raw "yes" then VStr "yes"
  else if is_str raw "no" then VStr "no"
  else Js.or raw (VStr "pending").

(** Normalize any tier result (old or new keys) into new shape; [None] is
    the [null] returned for a falsy [r]. *)
Definition normalizeTierResult (r : Val) : option TierResult :=
  if negb (truthy r) then None
  else
    let fieldsMappedRaw := coalesce (get r "fieldsMapped") (get r "located") in
    let attributesMappedRaw := coalesce (get r "attributesMapped") (get r "mapped") in
    Some {|
      r_fieldsMapped := normalize_axis fieldsMappedRaw;
      r_attributesMapped := normalize_axis attributesMappedRaw;
      r_locatedSource := Js.or (get r "locatedSource") VNull;
      r_mappedCount :=
        if isFinite (get r "mappedCount") then get r "mappedCount" else num 0;
      r_totalFields :=
        if isFinite (get r "totalFields") then get r "totalFields" else num 0;
      r_message := Js.or (get r "message") VNull
    |}.

(** [result?.f]: [undefined] when [result] is [null]. *)
Definition opt_get (f : TierResult -> Val) (result : option TierResult) : Val :=
  match result with
  | Some r => f r
  | None => VUndef
  end.

(** The task [ensureJob] seeds for one entry of [reportKeys]. *)
Definition seed (k : string) : ReportTask :=
  {| reportKey := k;
     fieldsMapped := VStr "pending";
     attributesMapped := VStr "pending";
     locatedSource := VNull;
     mappedCount := num 0;
     totalFields := num 0;
     message := VNull |}.

(** The array [ensureJob] maps over: its parameter defaults to [[]] when
    [undefined], and [reportKeys || []] takes care of [null]. *)
Definition keys_of (a : KeysArg) : list string :=
  match a with
  | KArray l => l
  | _ => []
  end.

(** Seed a job if not present. [now] is [Date.now()]. *)
Definition ensureJob (now : Z) (jobId : string) (keys : KeysArg) (st : State)
    : State * Job :=
  match store st !! jobId with
  | Some job => (st, job)
  | None =>
      let reports := map seed (keys_of keys) in
      let job :=
        {| startedAt := now;
           overall := running;
           progress := {| done := 0; total := length reports |};
           reports := reports;
           outcome := computeOutcome reports;
           _timer := None;
           _cursor := 0;
           job_message := None |} in
      (set_store (<[jobId := job]> (store st)) st, job)
  end.

(** [clearTimer(job)], on the job and the interval table. *)
Definition clearTimer (job : Job) (tm : gmap nat Interval)
    : Job * gmap nat Interval :=
  match _timer job with
  | Some t => (set_timer None job, delete t tm)
  | None => (job, tm)
  end.

(** Write a job back together with the interval table. *)
Definition commit (jobId : string) (jt : Job * gmap nat Interval) (st : State)
    : State :=
  mkState (<[jobId := fst jt]> (store st)) (snd jt) (next_timer st)
          (arrays st) (inflight st).

(** [aNeedsB]: Tier B runs only if either field is still pending/unknown. *)
Definition aNeedsB (result : option TierResult) : bool :=
  match result with
  | None => true
  | Some r =>
      (negb (is_str (r_fieldsMapped r) "yes") && negb (is_str (r_fieldsMapped r) "no"))
      || (negb (is_str (r_attributesMapped r) "yes")
          && negb (is_str (r_attributesMapped r) "no"))
  end.

(** One axis of the merged object: prefer the existing A value, fill only
    where pending. *)
Definition merge_axis (f : TierResult -> Val) (result resB : option TierResult) : Val :=
  if truthy (opt_get f result) && negb (is_str (opt_get f result) "pending")
  then opt_get f result
  else coalesce (opt_get f resB) (VStr "pending").

Definition merge_results (result resB : option TierResult) : TierResult :=
  {| r_fieldsMapped := merge_axis r_fieldsMapped result resB;
     r_attributesMapped := merge_axis r_attributesMapped result resB;
     r_locatedSource :=
       Js.or (Js.or (opt_get r_locatedSource result) (opt_get r_locatedSource resB)) VNull;
     r_mappedCount :=
       coalesce (coalesce (opt_get r_mappedCount result) (opt_get r_mappedCount resB))
                (num 0);
     r_totalFields :=
       coalesce (coalesce (opt_get r_totalFields result) (opt_get r_totalFields resB))
                (num 0);
     r_message :=
       Js.or (Js.or (opt_get r_message result) (opt_get r_message resB)) VNull |}.

(** Terminalize (no more "pending" after a step). *)
Definition terminalize (v : Val) : Val :=
  if is_str v "yes" then VStr "yes"
  else if is_str v "no" then VStr "no"
  else VStr "no".

(** The six assignments to the report [r]. *)
Definition apply_result (result : option TierResult) (r : ReportTask) : ReportTask :=
  let fm := terminalize (opt_get r_fieldsMapped result) in
  let am := terminalize (opt_get r_attributesMapped result) in
  {| reportKey := reportKey r;
     fieldsMapped := fm;
     attributesMapped := am;
     locatedSource :=
       if is_str fm "yes" then Js.or (opt_get r_locatedSource result) VNull else VNull;
     mappedCount :=
       if isFinite (opt_get r_mappedCount result)
       then opt_get r_mappedCount result else num 0;
     totalFields :=
       if isFinite (opt_get r_totalFields result)
       then opt_get r_totalFields result else num 0;
     message := Js.or (opt_get r_message result) VNull |}.

(** The template literal of the 'applied' log line: only [r.locatedSource]
    can fail to convert, and it is interpolated only when truthy.  [Some e]
    is the TypeError the line throws. *)
Definition applied_log (r : ReportTask) : option Thrown :=
  if truthy (locatedSource r)
  then type_error <$> template_error (locatedSource r)
  else None.

Definition tierA_ctx (files : list FileDesc) (jobId rkey : string) (ctx : SchedCtx)
    : TierACtx :=
  {| a_jobId := jobId;
     a_reportKey := rkey;
     a_files := files;
     a_db := ctx_db ctx;
     a_engagementId := str_or_null (ctx_engagementId ctx);
     a_adminId := str_or_null (ctx_adminId ctx);
     a_routineCodes := ctx_routineCodes ctx |}.

Definition tierB_ctx (files : list FileDesc) (jobId rkey : string) (ctx : SchedCtx)
    : TierBCtx :=
  {| b_jobId := jobId;
     b_reportKey := rkey;
     b_files := files;
     b_db := ctx_db ctx |}.

(** The [catch] block. *)
Definition fail_job (e : Thrown) (job : Job) (tm : gmap nat Interval)
    : Job * gmap nat Interval :=
  clearTimer (set_message (Some (error_text e)) (set_overall failed job)) tm.

(** The rest of the [try] block once the tiers have answered: the six
    writes to the task at [i], the cursor, the progress, the outcome, the
    'applied' log line and the finish test.  When the log line throws, the
    writes before it stay and the [catch] block runs. *)
Definition advance (i : nat) (result : option TierResult)
    (job : Job) (tm : gmap nat Interval) : Job * gmap nat Interval :=
  let reports' := alter (apply_result result) i (reports job) in
  let cursor' := S (_cursor job) in
  let job1 :=
    {| startedAt := startedAt job;
       overall := overall job;
       progress := {| done := Nat.min cursor' (total (progress job));
                      total := total (progress job) |};
       reports := reports';
       outcome := computeOutcome reports';
       _timer := _timer job;
       _cursor := cursor';
       job_message := job_message job |} in
  match reports' !! i ≫= applied_log with
  | Some e => fail_job e job1 tm
  | None =>
      if (length reports' <=? cursor')%nat
      then clearTimer (set_overall success job1) tm
      else (job1, tm)
  end.

(** A suspended call of [step] joins the others. *)
Definition suspend (p : Pending) (st : State) : State :=
  set_inflight (inflight st ++ [p])%list st.

(** [step] from its entry to the first [await]: the guards, then the call
    of Tier A.  The lookup [reports job !! i] is [None] exactly when
    [i >= job.reports.length]. *)
Definition step_begin (jobId : string) (ctx : SchedCtx) (st : State)
    : State * list TierCall :=
  match store st !! jobId with
  | None => (st, [])
  | Some job =>
      match overall job with
      | running =>
          let i := _cursor job in
          match reports job !! i with
          | None =>
              (commit jobId (clearTimer (set_overall success job) (timers st)) st, [])
          | Some r =>
              (suspend (AwaitA jobId ctx i (reportKey r)) st,
               [CallA (tierA_ctx (current_files st ctx) jobId (reportKey r) ctx)])
          end
      | _ => (st, [])
      end
  end.

(** The job record a step holds is the one in the store: nothing removes or
    replaces an entry of the store. *)
Definition on_job (jobId : string) (f : Job -> Job * gmap nat Interval) (st : State)
    : State :=
  match store st !! jobId with
  | Some job => commit jobId (f job) st
  | None => st
  end.

(** [step] from the answer of Tier A to the next [await] or to its end. *)
Definition step_afterA (jobId : string) (ctx : SchedCtx) (i : nat) (rkey : string)
    (c : Completion) (st : State) : State * list TierCall :=
  match c with
  | Threw e => (on_job jobId (fun job => fail_job e job (timers st)) st, [])
  | Returned va =>
      let resA := normalizeTierResult va in
      if aNeedsB resA
      then (suspend (AwaitB jobId ctx i rkey resA) st,
            [CallB (tierB_ctx (current_files st ctx) jobId rkey ctx)])
      else (on_job jobId (fun job => advance i resA job (timers st)) st, [])
  end.

(** [step] from the answer of Tier B to its end. *)
Definition step_afterB (jobId : string) (i : nat) (resA : option TierResult)
    (c : Completion) (st : State) : State * list TierCall :=
  match c with
  | Threw e => (on_job jobId (fun job => fail_job e job (timers st)) st, [])
  | Returned vb =>
      let result := Some (merge_results resA (normalizeTierResult vb)) in
      (on_job jobId (fun job => advance i result job (timers st)) st, [])
  end.

(** The awaited call of the [k]-th suspended step settles with [c], and
    the step runs on. *)
Definition settle (k : nat) (c : Completion) (st : State) : State * list TierCall :=
  match inflight st !! k with
  | None => (st, [])
  | Some p =>
      let st0 := set_inflight (delete k (inflight st)) st in
      match p with
      | AwaitA jobId ctx i rkey => step_afterA jobId ctx i rkey c st0
      | AwaitB jobId ctx i rkey resA => step_afterB jobId i resA c st0
      end
  end.

(** Internal: schedule ticking until done.  The interval's callback is
    [step(jobId, ctx)]; its [.catch] never runs, [step] catching what the
    tiers and its own log line throw. *)
Definition schedule (jobId : string) (ctx : SchedCtx) (st : State) : State :=
  match store st !! jobId with
  | None => st
  | Some job =>
      let '(job1, tm) := clearTimer job (timers st) in
      let t := next_timer st in
      {| store := <[jobId := set_timer (Some t) job1]> (store st);
         timers := <[t := {| iv_jobId := jobId; iv_ctx := ctx |}]> tm;
         next_timer := S t;
         arrays := arrays st;
         inflight := inflight st |}
  end.

Definition sched_ctx (payload : Payload) : SchedCtx :=
  {| ctx_db := db payload;
     ctx_files := files payload;
     ctx_engagementId := str_or_null (engagementId payload);
     ctx_adminId := str_or_null (adminId payload);
     ctx_routineCodes := default [] (routineCodes payload) |}.

(** Public: start a detection run. *)
Definition start (now : Z) (jobId : string) (payload : Payload) (st : State)
    : State * StartResult :=
  if String.eqb jobId "" then (st, StartThrew "start(jobId) requires jobId")
  else
    let keys :=
      match reportKeys payload with
      | KUndefined => KArray []
      | k => k
      end in
    let '(st1, job) := ensureJob now jobId keys st in
    if (total (progress job) =? 0)%nat then
      (set_store
         (<[jobId := set_outcome (computeOutcome (reports job))
                       (set_overall success job)]> (store st1)) st1,
       StartReturned jobId true true false)
    else
      match overall job with
      | running =>
          match _timer job with
          | Some _ => (st1, StartReturned jobId true false true)
          | None =>
              let st2 := schedule jobId (sched_ctx payload) st1 in
              match keys with
              | KArray _ => (st2, StartReturned jobId true false false)
              | _ => (st2, StartThrew "Cannot read properties of null (reading 'length')")
              end
          end
      | _ => (st1, StartReturned jobId true false true)
      end.

(** The object [status] builds for one report, legacy mirrors included. *)
Definition view (r : ReportTask) : TaskView :=
  {| v_reportKey := reportKey r;
     v_fieldsMapped := fieldsMapped r;
     v_attributesMapped := attributesMapped r;
     v_located := fieldsMapped r;
     v_mapped := attributesMapped r;
     v_locatedSource := locatedSource r;
     v_mappedCount := mappedCount r;
     v_totalFields := totalFields r;
     v_message := Js.or (message r) VNull |}.

(** Public: status snapshot; [None] is the [null] of an unknown job. *)
Definition status (jobId : string) (st : State) : option Snapshot :=
  match store st !! jobId with
  | None => None
  | Some job =>
      Some {| s_jobId := jobId;
              s_overall := overall job;
              s_progress := progress job;
              s_outcome := outcome job;
              s_reports := map view (reports job) |}
  end.

(** ** Runs of the server *)

(** What happens to the orchestrator, one callback at a time: a request
    calls [start]; the holder of a files array appends to it; a live
    interval fires and [step] runs to its first [await]; the call a
    suspended step awaits settles, with whatever the tier returned or
    threw, and the step runs to its next [await] or to its end. *)
Inductive Event : Type :=
  | Start (now : Z) (jobId : string) (payload : Payload)
  | Upload (a : nat) (fs : list FileDesc)
  | Tick (t : nat)
  | Settle (k : nat) (c : Completion).

Definition fire (e : Event) (st : State) : State :=
  match e with
  | Start now jobId payload => fst (start now jobId payload st)
  | Upload a fs => push_files a fs st
  | Tick t =>
      match timers st !! t with
      | Some iv => fst (step_begin (iv_jobId iv) (iv_ctx iv) st)
      | None => st
      end
  | Settle k c => fst (settle k c st)
  end.

(** The states the server can be in: it boots with an empty store, and
    events follow one another in any order. *)
Inductive reachable : State -> Prop :=
  | reach_init : reachable init_state
  | reach_fire st e : reachable st -> reachable (fire e st).

(** ** Steps that nothing interrupts *)

Section Step.

(** The two tier modules as functions of the call: what an async function
    with no [await] of its own, like the two the repository exports, hands
    back.  The promise [step] awaits is then settled already, and [step]
    resumes before any other timer or request callback runs. *)
Variable tierA : TierACtx -> Completion.
Variable tierB : TierBCtx -> Completion.

(** The tier part of the [try] block: the merged [result], or the value
    thrown by a tier, with the tier calls made in order. *)
Definition run_tiers (files : list FileDesc) (jobId rkey : string) (ctx : SchedCtx)
    : (Thrown + option TierResult) * list TierCall :=
  let ca := tierA_ctx files jobId rkey ctx in
  match tierA ca with
  | Threw e => (inl e, [CallA ca])
  | Returned va =>
      let resA := normalizeTierResult va in
      if aNeedsB resA then
        let cb := tierB_ctx files jobId rkey ctx in
        match tierB cb with
        | Threw e => (inl e, [CallA ca; CallB cb])
        | Returned vb =>
            let resB := normalizeTierResult vb in
            (inr (Some (merge_results resA resB)), [CallA ca; CallB cb])
        end
      else (inr resA, [CallA ca])
  end.

(** One call of [step] with such tiers, from its entry to its end: each
    awaited call settles at once with what the tier function gives. *)
Definition settled_step (jobId : string) (ctx : SchedCtx) (st : State)
    : State * list TierCall :=
  let '(st1, calls1) := step_begin jobId ctx st in
  match calls1 with
  | [CallA ca] =>
      let '(st2, calls2) := settle (length (inflight st)) (tierA ca) st1 in
      match calls2 with
      | [CallB cb] =>
          (fst (settle (length (inflight st)) (tierB cb) st2), [CallA ca; CallB cb])
      | _ => (st2, [CallA ca])
      end
  | _ => (st1, [])
  end.

(** [n] consecutive ticks of the interval of [jobId] with such tiers. *)
Definition settled_ticks (jobId : string) (ctx : SchedCtx) (n : nat) (st : State)
    : State :=
  Nat.iter n (fun s => fst (settled_step jobId ctx s)) st.

End Step.

(** * Properties *)

(** ** The invariant of the store *)

(** A task is terminal when both axes are decided. *)
Definition decided (v : Val) : Prop := v = VStr "yes" \/ v = VStr "no".

Definition terminal (r : ReportTask) : Prop :=
  decided (fieldsMapped r) /\ decided (attributesMapped r).

(** What holds of every job record, also while steps overlap. *)
Record job_inv (j : Job) : Prop := mk_job_inv {
  inv_total : total (progress j) = length (reports j);
  inv_outcome : outcome j = computeOutcome (reports j);
  inv_done : done (progress j) = Nat.min (_cursor j) (total (progress j));
  inv_running : overall j = running -> _cursor j < length (reports j);
  inv_timer : _timer j <> None -> overall j = running;
  inv_held : overall j = running -> _timer j <> None;
  inv_tail :
    forall i r, _cursor j <= i -> reports j !! i = Some r -> r = seed (reportKey r);
  inv_tasks :
    forall i r, reports j !! i = Some r -> r = seed (reportKey r) \/ terminal r;
  inv_failed : overall j = failed -> reports j <> []
}.

(** Every live interval is the one its job holds in [_timer]. *)
Definition timers_ok (s : gmap string Job) (tm : gmap nat Interval) : Prop :=
  forall t iv, tm !! t = Some iv ->
    exists j, s !! iv_jobId iv = Some j /\ _timer j = Some t.

Definition pending_job (p : Pending) : string :=
  match p with
  | AwaitA jobId _ _ _ => jobId
  | AwaitB jobId _ _ _ _ => jobId
  end.

Definition pending_index (p : Pending) : nat :=
  match p with
  | AwaitA _ _ i _ => i
  | AwaitB _ _ i _ _ => i
  end.

Definition pending_key (p : Pending) : string :=
  match p with
  | AwaitA _ _ _ k => k
  | AwaitB _ _ _ k _ => k
  end.

(** A suspended step holds a job of the store and one of its tasks, which
    the cursor has reached. *)
Definition pending_ok (s : gmap string Job) (p : Pending) : Prop :=
  exists job r,
    s !! pending_job p = Some job
    /\ reports job !! pending_index p = Some r
    /\ reportKey r = pending_key p
    /\ pending_index p <= _cursor job.

Record state_inv (st : State) : Prop := mk_state_inv {
  inv_jobs : forall id j, store st !! id = Some j -> job_inv j;
  inv_noempty : store st !! "" = None;
  inv_timers : timers_ok (store st) (timers st);
  inv_live :
    forall id j t, store st !! id = Some j -> _timer j = Some t ->
      exists iv, timers st !! t = Some iv /\ iv_jobId iv = id;
  inv_fresh : forall t iv, timers st !! t = Some iv -> t < next_timer st;
  inv_pending : Forall (pending_ok (store st)) (inflight st)
}.

(** What an update of a job does to its timer: it keeps it, or clears it
    together with the interval. *)
Definition timer_kept_or_cleared (job : Job) (tm : gmap nat Interval)
    (jt : Job * gmap nat Interval) : Prop :=
  (_timer (fst jt) = _timer job /\ snd jt = tm)
  \/ (_timer (fst jt) = None
      /\ snd jt = match _timer job with Some t => delete t tm | None => tm end).

(** ** Runs, one after the other *)

(** [evolves st st']: the server goes from [st] to [st'] by events. *)
Inductive evolves (st : State) : State -> Prop :=
  | ev_refl : evolves st st
  | ev_fire st' e : evolves st st' -> evolves st (fire e st').

(** How a job record may differ from an earlier record of the same job. *)
Definition job_advances (job job' : Job) : Prop :=
  startedAt job' = startedAt job
  /\ map reportKey (reports job') = map reportKey (reports job)
  /\ total (progress job') = total (progress job)
  /\ _cursor job <= _cursor job'.

(** The job an event is about, if any. *)
Definition event_job (e : Event) (st : State) : option string :=
  match e with
  | Start _ jobId _ => Some jobId
  | Upload _ _ => None
  | Tick t => iv_jobId <$> timers st !! t
  | Settle k _ => pending_job <$> inflight st !! k
  end.

(** The event resumes a suspended step of the job [id] with an answer of
    the tier it awaits: the only kind of event after which the step goes
    on to write to the job's tasks, cursor and progress. *)
Definition resumes_step (id : string) (e : Event) (st : State) : Prop :=
  match e with
  | Settle k (Returned _) => pending_job <$> inflight st !! k = Some id
  | _ => False
  end.

(** [quiet_for id st st']: the server goes from [st] to [st'] by events none
    of which resumes a step of the job [id] with an answer.  Other jobs
    run, requests and uploads come in, the interval of [id] may fire, a
    step of [id] may see its tier call throw. *)
Inductive quiet_for (id : string) (st : State) : State -> Prop :=
  | quiet_refl : quiet_for id st st
  | quiet_fire st' e :
      quiet_for id st st' -> ~ resumes_step id e st' ->
      quiet_for id st (fire e st').

(** ** The merge rule in the specification's words *)

(** The specification's reading of the merge, to be compared with
    [merge_axis]: keep Tier A's value when it is 'yes' or 'no', otherwise
    take Tier B's value, 'pending' when Tier B gave none. *)
Definition spec_merge_axis (f : TierResult -> Val) (resA resB : option TierResult)
    : Val :=
  if is_str (opt_get f resA) "yes" || is_str (opt_get f resA) "no"
  then opt_get f resA
  else coalesce (opt_get f resB) (VStr "pending").

(** ** Sample runs *)

(** A payload that only names report keys. *)
Definition keys_payload (k : KeysArg) : Payload :=
  {| db := None; files := None; engagementId := None; adminId := None;
     routineCodes := None; reportKeys := k |}.

(** Tiers that answer with one fixed completion. *)
Definition constA (c : Completion) : TierACtx -> Completion := fun _ => c.
Definition constB (c : Completion) : TierBCtx -> Completion := fun _ => c.

(** The scheduling context of a payload that only names report keys. *)
Definition bare_ctx : SchedCtx := sched_ctx (keys_payload KUndefined).

(** Tier results used in the sample runs: A sure of the fields only; A
    answering 'maybe' on the fields; B answering 'yes' on both axes; a
    result with a negative count and a numeric message; the answer of the
    exported tiers; a 'yes' whose source is a symbol. *)
Definition fields_only : Val := VObj [("fieldsMapped", VStr "yes")].

Definition maybe_fields : Val :=
  VObj [("fieldsMapped", VStr "maybe"); ("attributesMapped", VStr "yes")].

Definition both_yes : Val :=
  VObj [("fieldsMapped", VStr "yes"); ("attributesMapped", VStr "yes")].

Definition odd_result : Val :=
  VObj [("fieldsMapped", VStr "yes"); ("attributesMapped", VStr "yes");
        ("mappedCount", num (-1)); ("totalFields", num 3);
        ("message", num 42)].

Definition both_no : Val :=
  VObj [("fieldsMapped", VStr "no"); ("attributesMapped", VStr "no")].

Definition symbol_source : Val :=
  VObj [("fieldsMapped", VStr "yes"); ("attributesMapped", VStr "yes");
        ("locatedSource", VSymbol 0)].

(** Thrown values of the sample runs: [throw ``] of the empty string,
    [throw new Error("boom")] and [throw new Error("bang")]. *)
Definition thrown_empty_string : Thrown :=
  {| thrown_message := None; thrown_string := "" |}.

Definition thrown_boom : Thrown :=
  {| thrown_message := Some "boom"; thrown_string := "Error: boom" |}.

Definition thrown_bang : Thrown :=
  {| thrown_message := Some "bang"; thrown_string := "Error: bang" |}.

(** A call of Tier A for the report "soi" with one uploaded file whose
    name holds the key in capitals, and no reference dataset. *)
Definition soi_ctx : TierACtx :=
  {| a_jobId := "job1";
     a_reportKey := "soi";
     a_files := [mkFile (Some "SOI_2024.csv") (Some "1699-upload.csv")];
     a_db := None;
     a_engagementId := None;
     a_adminId := None;
     a_routineCodes := [] |}.

(** The server after [start("job1", {reportKeys: ["soi", "pands"]})]. *)
Definition started_state : State :=
  fire (Start 0 "job1" (keys_payload (KArray ["soi"; "pands"]))) init_state.

(** The same server after the first tick of the job's interval, with the
    tiers the repository exports. *)
Definition ticked_state : State :=
  fst (settled_step TierA.exported_locateAndMap TierB.exported_locateAndMap
         "job1" (sched_ctx (keys_payload (KArray ["soi"; "pands"])))
         started_state).

(** The same job with a Tier A that takes longer than the 500 ms between
    two ticks: the interval fires twice before the first call settles, so
    two steps hold the task "soi"; then both calls settle with 'no' on
    both axes. *)
Definition two_steps_suspended : State :=
  fire (Tick 0) (fire (Tick 0) started_state).

Definition overlapped_state : State :=
  fire (Settle 0 (Returned both_no))
    (fire (Settle 0 (Returned both_no)) two_steps_suspended).

(** The same two suspended steps, the first settling with 'no' on both
    axes and the second with a thrown error. *)
Definition overlapped_failure : State :=
  fire (Settle 0 (Threw thrown_boom))
    (fire (Settle 0 (Returned both_no)) two_steps_suspended).

(** The task a step writes when both axes end 'no' with nothing else. *)
Definition no_task (k : string) : ReportTask :=
  {| reportKey := k;
     fieldsMapped := VStr "no";
     attributesMapped := VStr "no";
     locatedSource := VNull;
     mappedCount := num 0;
     totalFields := num 0;
     message := VNull |}.

(** A task counts as decided when neither axis is 'pending'. *)
Definition is_decided (r : ReportTask) : bool :=
  negb (is_str (fieldsMapped r) "pending")
  && negb (is_str (attributesMapped r) "pending").

(** The server after [start("job0", {reportKeys: null})]. *)
Definition empty_job_state : State :=
  fire (Start 0 "job0" (keys_payload KNull)) init_state.

(** The required files of all the routines of the reference dataset, in the
    order [findReportMeta] visits them. *)
Definition db_required_files (db : option Db) : list RequiredFile :=
  match db with
  | Some d =>
      match system_data d with
      | Some sd =>
          concat (map (fun r => default [] (required_files r))
                      (default [] (routines sd)))
      | None => []
      end
  | None => []
  end.

(** ** The upload-analysis page: report helpers *)

(** A required-file entry of a routine as the page reads it: its [key],
    its [human_name] and whether [required] is truthy. *)
Record ReportDef : Type := mkReportDef {
  rd_key : string;
  rd_human_name : option string;
  rd_required : bool
}.

Record UiRoutine : Type := mkUiRoutine {
  ui_id : string;
  ui_required_files : option (list ReportDef)
}.

(** A JS [Map] with string keys: the entries in insertion order. *)
Definition JsMap (V : Type) : Type := list (string * V).

(** [map.has(k)] *)
Definition map_has {V} (k : string) (m : JsMap V) : bool :=
  existsb (fun kv => String.eqb k (fst kv)) m.

(** [map.get(k)] *)
Fixpoint map_get {V} (k : string) (m : JsMap V) : option V :=
  match m with
  | [] => None
  | (k', v) :: rest => if String.eqb k k' then Some v else map_get k rest
  end.

(** [map.set(k, v)]: an existing key keeps its place and takes the new
    value, a new key goes last. *)
Fixpoint map_set {V} (k : string) (v : V) (m : JsMap V) : JsMap V :=
  match m with
  | [] => [(k, v)]
  | (k', v') :: rest =>
      if String.eqb k k' then (k, v) :: rest else (k', v') :: map_set k v rest
  end.

(** [[...map.values()]] *)
Definition map_values {V} (m : JsMap V) : list V := map snd m.

Definition collectAllReportDefs (routines : list UiRoutine) : JsMap ReportDef :=
  fold_left
    (fun m r =>
       fold_left
         (fun m f => if negb (map_has (rd_key f) m) then map_set (rd_key f) f m else m)
         (default [] (ui_required_files r)) m)
    routines [].

Definition mergeRequiredReports (routines : list UiRoutine) (selectedIds : gset string)
    : list ReportDef :=
  map_values
    (fold_left
       (fun required r =>
          fold_left
            (fun required f =>
               if rd_required f then map_set (rd_key f) f required else required)
            (default [] (ui_required_files r)) required)
       (List.filter
          (fun r => bool_decide (size selectedIds = 0)
                    || bool_decide (ui_id r ∈ selectedIds))
          routines)
       []).

(** The required files the selected routines list, in the order
    [mergeRequiredReports] visits them. *)
Definition selected_required (routines : list UiRoutine) (selectedIds : gset string)
    : list ReportDef :=
  List.filter rd_required
    (concat
       (map (fun r => default [] (ui_required_files r))
            (List.filter
               (fun r => bool_decide (size selectedIds = 0)
                         || bool_decide (ui_id r ∈ selectedIds))
               routines))).

(** ** The page's report state and its router *)

(** A report of the page's session state, as [normalizeReport] writes it;
    the two axes are kept as JS values, [routeNext] comparing them with
    [===]. *)
Record GvReport : Type := mkGvReport {
  gv_reportKey : string;
  gv_fieldsMapped : Val;
  gv_attributesMapped : Val
}.

(** Where [routeNext] sends the user. *)
Inductive Route : Type :=
  | AlertNoReports
  | GoFieldSelector
  | GoAttributeSelector
  | GoProcessComplete
  | AlertInProgress.

(** [APEX.isDetectionComplete], on the stored reports. *)
Definition isDetectionComplete (reps : list GvReport) : bool :=
  (0 <? length reps)%nat
  && forallb
       (fun r => negb (is_str (gv_fieldsMapped r) "pending")
                 && negb (is_str (gv_attributesMapped r) "pending"))
       reps.

(** [APEX.routeNext], on the stored reports. *)
Definition routeNext (detectionResults : list GvReport) : Route :=
  if (length detectionResults =? 0)%nat then AlertNoReports
  else
    let anyFieldsNo :=
      existsb (fun r => is_str (gv_fieldsMapped r) "no") detectionResults in
    let allFieldsYes :=
      forallb (fun r => is_str (gv_fieldsMapped r) "yes") detectionResults in
    let anyAttrsNo :=
      existsb (fun r => is_str (gv_attributesMapped r) "no") detectionResults in
    let allAttrsYes :=
      forallb (fun r => is_str (gv_attributesMapped r) "yes") detectionResults in
    if anyFieldsNo then GoFieldSelector
    else if allFieldsYes && anyAttrsNo then GoAttributeSelector
    else if allFieldsYes && allAttrsYes then GoProcessComplete
    else AlertInProgress.

(** The values [normalizeReport] lets through on an axis. *)
Definition gv_axis (v : Val) : Prop :=
  v = VStr "yes" \/ v = VStr "no" \/ v = VStr "pending".

(** Two routines that both list the report "soi". *)
Definition sample_routines : list UiRoutine :=
  [mkUiRoutine "R1"
     (Some [mkReportDef "soi" (Some "SOI") true;
            mkReportDef "pands" None true]);
   mkUiRoutine "R2"
     (Some [mkReportDef "soi" (Some "SOI, second") true;
            mkReportDef "notes" None false])].

Lemma is_str_true v lit : is_str v lit = true <-> v = VStr lit.
Proof.
  destruct v; simpl; try (split; [discriminate|congruence]).
  rewrite String.eqb_eq. split; congruence.
Qed.

Lemma terminalize_decided v : decided (terminalize v).
Proof.
  unfold terminalize, decided.
  destruct (is_str v "yes"); [by left|].
  destruct (is_str v "no"); by right.
Qed.

Lemma apply_result_terminal result r : terminal (apply_result result r).
Proof. split; apply terminalize_decided. Qed.

Lemma clearTimer_fst job tm : fst (clearTimer job tm) = set_timer None job.
Proof.
  unfold clearTimer. destruct (_timer job) eqn:E; [done|].
  destruct job; simpl in *; by subst.
Qed.

Lemma clearTimer_snd job tm :
  snd (clearTimer job tm) =
  match _timer job with Some t => delete t tm | None => tm end.
Proof. unfold clearTimer. by destruct (_timer job). Qed.

Lemma clearTimer_cleared job0 job tm :
  _timer job = _timer job0 ->
  timer_kept_or_cleared job0 tm (clearTimer job tm).
Proof.
  intros Ht. right. rewrite clearTimer_fst, clearTimer_snd, Ht. by destruct job.
Qed.

Lemma fail_job_timer e job tm :
  timer_kept_or_cleared job tm (fail_job e job tm).
Proof. unfold fail_job. by apply clearTimer_cleared. Qed.

Lemma advance_timer i result job tm :
  timer_kept_or_cleared job tm (advance i result job tm).
Proof.
  unfold advance. destruct (_ ≫= applied_log).
  - unfold fail_job. by apply clearTimer_cleared.
  - destruct (_ <=? _)%nat.
    + by apply clearTimer_cleared.
    + by left.
Qed.

(** What [advance] and the [catch] block leave alone. *)
Lemma fail_job_fields e job tm :
  reports (fst (fail_job e job tm)) = reports job
  /\ _cursor (fst (fail_job e job tm)) = _cursor job
  /\ progress (fst (fail_job e job tm)) = progress job
  /\ outcome (fst (fail_job e job tm)) = outcome job
  /\ startedAt (fst (fail_job e job tm)) = startedAt job
  /\ overall (fst (fail_job e job tm)) = failed
  /\ job_message (fst (fail_job e job tm)) = Some (error_text e)
  /\ _timer (fst (fail_job e job tm)) = None.
Proof. unfold fail_job. rewrite clearTimer_fst. by destruct job. Qed.

Lemma advance_fields i result job tm :
  reports (fst (advance i result job tm)) = alter (apply_result result) i (reports job)
  /\ _cursor (fst (advance i result job tm)) = S (_cursor job)
  /\ progress (fst (advance i result job tm))
     = mkProgress (Nat.min (S (_cursor job)) (total (progress job)))
                  (total (progress job))
  /\ outcome (fst (advance i result job tm))
     = computeOutcome (alter (apply_result result) i (reports job))
  /\ startedAt (fst (advance i result job tm)) = startedAt job.
Proof.
  unfold advance. destruct (_ ≫= applied_log).
  - unfold fail_job. by rewrite clearTimer_fst.
  - destruct (_ <=? _)%nat; [by rewrite clearTimer_fst|done].
Qed.

Lemma alter_keys result i (l : list ReportTask) :
  map reportKey (alter (apply_result result) i l) = map reportKey l.
Proof.
  apply list_eq. intros j. rewrite !list_lookup_fmap.
  destruct (decide (i = j)) as [->|Hd].
  - rewrite list_lookup_alter_eq. by destruct (l !! j).
  - by rewrite list_lookup_alter_ne.
Qed.

(** The timer table after an update of a job that keeps or clears its
    timer. *)
Lemma timers_ok_update s tm id job jt :
  timers_ok s tm -> s !! id = Some job ->
  timer_kept_or_cleared job tm jt ->
  timers_ok (<[id := fst jt]> s) (snd jt).
Proof.
  intros Hok Hid Hk t iv Hiv.
  assert (Hin : tm !! t = Some iv /\ (iv_jobId iv = id -> _timer (fst jt) = Some t)).
  { destruct Hk as [[Hsame Htm]|[Hnone Htm]]; rewrite Htm in Hiv.
    - split; [done|]. intros Heq.
      destruct (Hok t iv Hiv) as (j & Hj & Hjt). rewrite Heq in Hj. congruence.
    - destruct (_timer job) as [t0|] eqn:E.
      + destruct (decide (t0 = t)) as [->|Hne];
          [by rewrite lookup_delete_eq in Hiv|].
        rewrite lookup_delete_ne in Hiv by done. split; [done|]. intros Heq.
        destruct (Hok t iv Hiv) as (j & Hj & Hjt). rewrite Heq in Hj. congruence.
      + split; [done|]. intros Heq.
        destruct (Hok t iv Hiv) as (j & Hj & Hjt). rewrite Heq in Hj. congruence. }
  destruct Hin as [Hiv' Hself].
  destruct (decide (id = iv_jobId iv)) as [Heq|Hne].
  - exists (fst jt). rewrite <- Heq, lookup_insert_eq. split; [done|]. by apply Hself.
  - destruct (Hok t iv Hiv') as (j & Hj & Hjt). exists j. by rewrite lookup_insert_ne.
Qed.

Lemma pending_ok_update s id job job' p :
  s !! id = Some job ->
  map reportKey (reports job') = map reportKey (reports job) ->
  _cursor job <= _cursor job' ->
  pending_ok s p -> pending_ok (<[id := job']> s) p.
Proof.
  intros Hid Hkeys Hcur (j & r & Hj & Hr & Hk & Hi).
  destruct (decide (id = pending_job p)) as [Heq|Hne].
  - rewrite <- Heq in Hj. assert (j = job) as -> by congruence.
    assert (exists r', reports job' !! pending_index p = Some r'
                       /\ reportKey r' = reportKey r) as (r' & Hr' & Hk').
    { pose proof (f_equal (fun l => l !! pending_index p) Hkeys) as E.
      simpl in E. rewrite !list_lookup_fmap, Hr in E.
      destruct (reports job' !! pending_index p) as [r'|]; [|done].
      exists r'. split; [done|]. simpl in E. congruence. }
    exists job', r'. rewrite <- Heq, lookup_insert_eq.
    split; [done|]. split; [done|]. split; [congruence|lia].
  - exists j, r. by rewrite lookup_insert_ne.
Qed.

(** Writing back a job record that keeps the keys of its tasks, does not
    move the cursor back and keeps or clears its timer. *)
Lemma commit_inv st jobId job jt :
  state_inv st -> store st !! jobId = Some job ->
  job_inv (fst jt) ->
  timer_kept_or_cleared job (timers st) jt ->
  map reportKey (reports (fst jt)) = map reportKey (reports job) ->
  _cursor job <= _cursor (fst jt) ->
  state_inv (commit jobId jt st).
Proof.
  intros [Hjobs Hne Htm Hlive Hfresh Hpend] Hjob Hj' Hk Hkeys Hcur.
  assert (Hid : jobId <> "") by (intros ->; congruence).
  assert (Hsub : forall t iv, snd jt !! t = Some iv -> timers st !! t = Some iv).
  { intros t iv. destruct Hk as [[_ ->]|[_ ->]]; [done|].
    destruct (_timer job) as [t0|]; [|done].
    destruct (decide (t0 = t)) as [->|Hd].
    - by rewrite lookup_delete_eq.
    - by rewrite lookup_delete_ne. }
  constructor; simpl.
  - intros id j. destruct (decide (jobId = id)) as [->|Hd].
    + rewrite lookup_insert_eq. by intros [= <-].
    + rewrite lookup_insert_ne by done. apply Hjobs.
  - by rewrite lookup_insert_ne.
  - by apply (timers_ok_update (store st) (timers st) jobId job jt).
  - intros id j t. destruct (decide (jobId = id)) as [->|Hd].
    + rewrite lookup_insert_eq. intros [= <-] Ht.
      destruct Hk as [[Hsame ->]|[Hnone _]]; [|congruence].
      apply (Hlive id job); congruence.
    + rewrite lookup_insert_ne by done. intros Hj Ht.
      destruct (Hlive id j t Hj Ht) as (iv & Hiv & Hidv).
      exists iv. split; [|done].
      destruct Hk as [[_ ->]|[_ ->]]; [done|].
      destruct (_timer job) as [t0|] eqn:Ht0; [|done].
      rewrite lookup_delete_ne; [done|]. intros ->.
      destruct (Hlive jobId job t Hjob Ht0) as (iv0 & Hiv0 & Hid0).
      congruence.
  - intros t iv Hiv. apply (Hfresh t iv). by apply Hsub.
  - eapply Forall_impl; [exact Hpend|].
    intros p. by apply (pending_ok_update _ _ job).
Qed.

Lemma job_inv_fail e job tm :
  job_inv job -> reports job <> [] -> job_inv (fst (fail_job e job tm)).
Proof.
  intros [] Hne. unfold fail_job. rewrite clearTimer_fst.
  destruct job; simpl in *. by constructor.
Qed.

Lemma job_inv_finish job :
  job_inv job -> job_inv (set_timer None (set_overall success job)).
Proof. intros []. destruct job; simpl in *. by constructor. Qed.

(** The writes of a step keep the invariant of the job, whichever task of
    those the cursor has reached they land on. *)
Lemma job_inv_advance i result job tm :
  job_inv job -> i <= _cursor job -> i < length (reports job) ->
  job_inv (fst (advance i result job tm)).
Proof.
  intros [Htot Hout Hdone Hrun Htim Hheld Htail Htasks Hfail] Hi Hlt.
  assert (Hlen : length (alter (apply_result result) i (reports job))
                 = length (reports job)) by apply length_alter.
  assert (Htail' : forall j r, S (_cursor job) <= j ->
            alter (apply_result result) i (reports job) !! j = Some r ->
            r = seed (reportKey r)).
  { intros j r Hj Hr. rewrite list_lookup_alter_ne in Hr by lia.
    apply (Htail j); [lia|done]. }
  assert (Htasks' : forall j r,
            alter (apply_result result) i (reports job) !! j = Some r ->
            r = seed (reportKey r) \/ terminal r).
  { intros j r Hr. destruct (decide (i = j)) as [->|Hd].
    - rewrite list_lookup_alter_eq in Hr.
      destruct (reports job !! j) as [r0|]; [|done]. injection Hr as <-.
      right. apply apply_result_terminal.
    - rewrite list_lookup_alter_ne in Hr by done. by apply (Htasks j). }
  assert (Hne : alter (apply_result result) i (reports job) <> []).
  { intros E. rewrite E in Hlen. simpl in Hlen. lia. }
  unfold advance.
  destruct (_ ≫= applied_log) as [e|].
  - unfold fail_job. rewrite clearTimer_fst.
    constructor; cbn -[Nat.min]; try done.
    by rewrite Hlen.
  - destruct (_ <=? _)%nat eqn:Hle.
    + rewrite clearTimer_fst. constructor; cbn -[Nat.min]; try done.
      by rewrite Hlen.
    + apply Nat.leb_gt in Hle. rewrite Hlen in Hle.
      constructor; cbn -[Nat.min]; try done.
      * by rewrite Hlen.
      * intros _. by rewrite Hlen.
Qed.

Lemma suspend_inv p st :
  state_inv st -> pending_ok (store st) p -> state_inv (suspend p st).
Proof.
  intros [] Hp. constructor; simpl; try done.
  apply Forall_app. split; [done|by constructor].
Qed.

Lemma push_files_inv a fs st : state_inv st -> state_inv (push_files a fs st).
Proof. intros []. by constructor. Qed.

(** [step] up to its first [await] keeps the invariant. *)
Lemma step_begin_inv jobId ctx st :
  state_inv st -> state_inv (fst (step_begin jobId ctx st)).
Proof.
  intros Hst. unfold step_begin.
  destruct (store st !! jobId) as [job|] eqn:Hjob; [|done].
  pose proof (inv_jobs _ Hst _ _ Hjob) as Hj.
  destruct (overall job) eqn:Hov; [|done|done].
  destruct (reports job !! _cursor job) as [r|] eqn:Hr; simpl.
  - apply suspend_inv; [done|]. exists job, r. by repeat split.
  - apply lookup_ge_None in Hr. pose proof (inv_running _ Hj Hov). lia.
Qed.

(** So does the resumption of a suspended step, whatever the awaited call
    settles with. *)
Lemma on_job_fail_inv jobId e st i :
  state_inv st ->
  (exists job, store st !! jobId = Some job /\ i < length (reports job)) ->
  state_inv (on_job jobId (fun job => fail_job e job (timers st)) st).
Proof.
  intros Hst (job & Hjob & Hlt). unfold on_job. rewrite Hjob.
  pose proof (fail_job_fields e job (timers st)) as (Hr & Hc & _).
  eapply commit_inv; [done|done| |apply fail_job_timer| |].
  - apply job_inv_fail; [by eapply inv_jobs|]. intros E. rewrite E in Hlt. simpl in Hlt. lia.
  - by rewrite Hr.
  - by rewrite Hc.
Qed.

Lemma on_job_advance_inv jobId i result st :
  state_inv st ->
  (exists job, store st !! jobId = Some job
               /\ i < length (reports job) /\ i <= _cursor job) ->
  state_inv (on_job jobId (fun job => advance i result job (timers st)) st).
Proof.
  intros Hst (job & Hjob & Hlt & Hi). unfold on_job. rewrite Hjob.
  pose proof (advance_fields i result job (timers st)) as (Hr & Hc & _).
  eapply commit_inv; [done|done| |apply advance_timer| |].
  - apply job_inv_advance; [by eapply inv_jobs|done|done].
  - rewrite Hr. apply alter_keys.
  - rewrite Hc. lia.
Qed.

Lemma set_inflight_inv l st :
  state_inv st -> Forall (pending_ok (store st)) l -> state_inv (set_inflight l st).
Proof. intros [] Hl. by constructor. Qed.

Lemma settle_inv k c st : state_inv st -> state_inv (fst (settle k c st)).
Proof.
  intros Hst. unfold settle.
  destruct (inflight st !! k) as [p|] eqn:Hp; [|done].
  pose proof (inv_pending _ Hst) as Hall.
  pose proof (proj1 (Forall_lookup _ _) Hall k p Hp) as (job & r & Hjob & Hr & Hk & Hi).
  assert (Hlt : pending_index p < length (reports job)) by by eapply lookup_lt_Some.
  assert (Hst0 : state_inv (set_inflight (delete k (inflight st)) st)).
  { apply set_inflight_inv; [done|].
    by apply Forall_delete. }
  set (st0 := set_inflight (delete k (inflight st)) st) in *.
  assert (Hjob0 : store st0 !! pending_job p = Some job) by done.
  clearbody st0.
  destruct p as [jobId ctx i rkey|jobId ctx i rkey resA];
    cbn [pending_job pending_index pending_key] in *.
  - unfold step_afterA. destruct c as [va|e].
    + destruct (aNeedsB (normalizeTierResult va)); cbn [fst].
      * apply suspend_inv; [done|]. by exists job, r.
      * apply on_job_advance_inv; [done|]. by exists job.
    + cbn [fst]. eapply on_job_fail_inv; [done|]. by exists job.
  - unfold step_afterB. destruct c as [vb|e]; cbn [fst].
    + apply on_job_advance_inv; [done|]. by exists job.
    + eapply on_job_fail_inv; [done|]. by exists job.
Qed.

(** ** Start *)

Lemma computeOutcome_seeded (keys : list string) :
  computeOutcome (map seed keys) = mkOutcome false false false false.
Proof.
  unfold computeOutcome.
  assert (Hno : forall f : ReportTask -> Val,
            (forall k, f (seed k) = VStr "pending") ->
            existsb (fun r => is_str (f r) "no") (map seed keys) = false).
  { intros f Hf. induction keys as [|k ks IH]; [done|]. simpl. by rewrite Hf. }
  assert (Hyes : forall f : ReportTask -> Val,
            (forall k, f (seed k) = VStr "pending") ->
            (0 <? length (map seed keys))%nat
            && forallb (fun r => is_str (f r) "yes") (map seed keys) = false).
  { intros f Hf. destruct keys as [|k ks]; [done|]. simpl. by rewrite Hf. }
  by rewrite !Hno, !Hyes.
Qed.

Lemma seed_tail (keys : list string) i r :
  map seed keys !! i = Some r -> r = seed (reportKey r).
Proof.
  rewrite list_lookup_fmap. destruct (keys !! i); [|done]. by intros [= <-].
Qed.

(** The array of keys [start] hands to [ensureJob]. *)
Lemma start_keys payload :
  keys_of (match reportKeys payload with KUndefined => KArray [] | k => k end)
  = keys_of (reportKeys payload).
Proof. by destruct (reportKeys payload). Qed.

(** [start] with the empty id throws before it touches anything. *)
Lemma start_no_id now payload st :
  start now "" payload st = (st, StartThrew "start(jobId) requires jobId").
Proof. done. Qed.

(** [start] on an id that has a job, in a state that satisfies the
    invariant. *)
Lemma start_on_job st now jobId payload job :
  state_inv st ->
  store st !! jobId = Some job ->
  start now jobId payload st
  = (st, if (length (reports job) =? 0)%nat
         then StartReturned jobId true true false
         else StartReturned jobId true false true).
Proof.
  intros Hst Hjob.
  pose proof (inv_jobs _ Hst _ _ Hjob) as Hj.
  assert (Hid : jobId <> "").
  { intros ->. pose proof (inv_noempty _ Hst). congruence. }
  unfold start, ensureJob.
  apply String.eqb_neq in Hid. rewrite Hid, Hjob, (inv_total _ Hj).
  destruct (length (reports job) =? 0)%nat eqn:Hlen.
  - apply Nat.eqb_eq in Hlen. f_equal.
    assert (Hs : overall job = success).
    { destruct (overall job) eqn:Hov; [|done|].
      - pose proof (inv_running _ Hj Hov). lia.
      - pose proof (inv_failed _ Hj Hov) as Hne. by destruct (reports job). }
    assert (Hsame : set_outcome (computeOutcome (reports job))
                      (set_overall success job) = job).
    { pose proof (inv_outcome _ Hj) as Ho. destruct job; simpl in *. by subst. }
    rewrite Hsame, insert_id by done. by destruct st.
  - destruct (overall job) eqn:Hov; [|done|done].
    destruct (_timer job) eqn:Ht; [done|].
    by destruct (inv_held _ Hj Hov).
Qed.

(** [start] on an id without a job, with at least one key. *)
Lemma start_on_fresh_id st now jobId payload k ks :
  jobId <> "" ->
  store st !! jobId = None ->
  keys_of (reportKeys payload) = k :: ks ->
  start now jobId payload st
  = ({| store :=
          <[jobId := mkJob now running (mkProgress 0 (S (length ks)))
                       (map seed (k :: ks))
                       (mkOutcome false false false false)
                       (Some (next_timer st)) 0 None]> (store st);
        timers :=
          <[next_timer st := mkInterval jobId (sched_ctx payload)]> (timers st);
        next_timer := S (next_timer st);
        arrays := arrays st;
        inflight := inflight st |},
     StartReturned jobId true false false).
Proof.
  intros Hid Hjob Hkeys. unfold start, ensureJob.
  apply String.eqb_neq in Hid. rewrite Hid.
  assert (Hk : match reportKeys payload with KUndefined => KArray [] | k0 => k0 end
               = KArray (k :: ks)).
  { destruct (reportKeys payload); simpl in Hkeys; try discriminate. by subst. }
  rewrite Hk, Hjob. cbn [keys_of]. rewrite computeOutcome_seeded.
  unfold schedule. simpl. rewrite lookup_insert_eq. simpl.
  by rewrite insert_insert_eq, length_map.
Qed.

(** [start] on an id without a job, with no key. *)
Lemma start_on_fresh_id_empty st now jobId payload :
  jobId <> "" ->
  store st !! jobId = None ->
  keys_of (reportKeys payload) = [] ->
  start now jobId payload st
  = (set_store
       (<[jobId := mkJob now success (mkProgress 0 0) []
                     (mkOutcome false false false false) None 0 None]> (store st))
       st,
     StartReturned jobId true true false).
Proof.
  intros Hid Hjob Hkeys. unfold start, ensureJob.
  apply String.eqb_neq in Hid. rewrite Hid.
  pose proof (start_keys payload) as Hk. rewrite Hkeys in Hk.
  rewrite Hjob. simpl. rewrite Hk. simpl.
  unfold set_store. simpl. by rewrite insert_insert_eq.
Qed.

Lemma pending_ok_fresh s id job p :
  s !! id = None -> pending_ok s p -> pending_ok (<[id := job]> s) p.
Proof.
  intros Hid (j & r & Hj & Hr). exists j, r. split; [|done].
  rewrite lookup_insert_ne; [done|]. intros Heq. rewrite <- Heq in Hj. congruence.
Qed.

Lemma timers_ok_fresh s tm id job :
  s !! id = None -> timers_ok s tm -> timers_ok (<[id := job]> s) tm.
Proof.
  intros Hid Hok t iv Hiv. destruct (Hok t iv Hiv) as (j & Hj & Hjt).
  exists j. split; [|done].
  rewrite lookup_insert_ne; [done|]. intros Heq. rewrite <- Heq in Hj. congruence.
Qed.

(** [start] keeps the invariant. *)
Lemma start_inv now jobId payload st :
  state_inv st -> state_inv (fst (start now jobId payload st)).
Proof.
  intros Hst.
  destruct (decide (jobId = "")) as [->|Hid]; [by rewrite start_no_id|].
  destruct (store st !! jobId) as [job|] eqn:Hjob.
  - by rewrite (start_on_job st now jobId payload job).
  - pose proof Hst as [Hjobs Hne Htm Hlive Hfresh Hpend].
    destruct (keys_of (reportKeys payload)) as [|k ks] eqn:Hkeys.
    + rewrite start_on_fresh_id_empty by done. constructor; simpl.
      * intros id j. destruct (decide (jobId = id)) as [->|Hd].
        -- rewrite lookup_insert_eq. intros [= <-]. by constructor.
        -- rewrite lookup_insert_ne by done. apply Hjobs.
      * by rewrite lookup_insert_ne.
      * by apply timers_ok_fresh.
      * intros id j t. destruct (decide (jobId = id)) as [->|Hd].
        -- rewrite lookup_insert_eq. by intros [= <-].
        -- rewrite lookup_insert_ne by done. apply Hlive.
      * done.
      * eapply Forall_impl; [exact Hpend|]. intros p. by apply pending_ok_fresh.
    + rewrite (start_on_fresh_id st now jobId payload k ks) by done.
      constructor; simpl.
      * intros id j. destruct (decide (jobId = id)) as [->|Hd].
        -- rewrite lookup_insert_eq. intros [= <-].
           constructor; cbn [total done progress reports outcome overall
                             _timer _cursor]; try done.
           ++ simpl. by rewrite length_map.
           ++ symmetry. apply (computeOutcome_seeded (k :: ks)).
           ++ intros _. simpl. lia.
           ++ intros i r _. apply (seed_tail (k :: ks)).
           ++ intros i r Hr. left. by apply (seed_tail (k :: ks) i).
        -- rewrite lookup_insert_ne by done. apply Hjobs.
      * by rewrite lookup_insert_ne.
      * intros t iv. destruct (decide (next_timer st = t)) as [<-|Hd].
        -- rewrite lookup_insert_eq. intros [= <-]. simpl.
           eexists. by rewrite lookup_insert_eq.
        -- rewrite lookup_insert_ne by done. intros Hiv.
           by apply (timers_ok_fresh (store st) (timers st)).
      * intros id j t. destruct (decide (jobId = id)) as [->|Hd].
        -- rewrite lookup_insert_eq. intros [= <-] [= <-].
           eexists. by rewrite lookup_insert_eq.
        -- rewrite lookup_insert_ne by done. intros Hj Htj.
           destruct (Hlive id j t Hj Htj) as (iv & Hiv & Hidv).
           exists iv. split; [|done].
           rewrite lookup_insert_ne; [done|].
           pose proof (Hfresh t iv Hiv). lia.
      * intros t iv. destruct (decide (next_timer st = t)) as [<-|Hd].
        -- intros _. lia.
        -- rewrite lookup_insert_ne by done. intros Hiv.
           pose proof (Hfresh t iv Hiv). lia.
      * eapply Forall_impl; [exact Hpend|]. intros p. by apply pending_ok_fresh.
Qed.

Lemma init_inv : state_inv init_state.
Proof. by constructor. Qed.

Lemma fire_inv e st : state_inv st -> state_inv (fire e st).
Proof.
  intros Hst. destruct e as [now jobId payload|a fs|t|k c]; simpl.
  - by apply start_inv.
  - by apply push_files_inv.
  - destruct (timers st !! t); [by apply step_begin_inv|done].
  - by apply settle_inv.
Qed.

(** Every state of a run satisfies the invariant. *)
Lemma reachable_inv st : reachable st -> state_inv st.
Proof.
  induction 1 as [|st e _ IH]; [apply init_inv|by apply fire_inv].
Qed.

Lemma reachable_start st now jobId payload :
  reachable st -> reachable (fst (start now jobId payload st)).
Proof. apply (reach_fire st (Start now jobId payload)). Qed.

(** C1. Idempotent start: in any state of a run, when the job of [jobId] is
    running and holds a live timer, [start] on that id returns
    [{started: true, already: true}] and changes nothing: the store (so the
    reports, the cursor and every task), the interval table and the timer
    counter are the ones before the call. *)
Theorem start_idempotent st now jobId payload job t :
  reachable st ->
  store st !! jobId = Some job ->
  overall job = running ->
  _timer job = Some t ->
  start now jobId payload st = (st, StartReturned jobId true false true).
Proof.
  intros Hreach Hjob Hov Ht.
  pose proof (reachable_inv _ Hreach) as Hst.
  pose proof (inv_jobs _ Hst _ _ Hjob) as Hj.
  assert (Hid : jobId <> "").
  { intros ->. pose proof (inv_noempty _ Hst). congruence. }
  unfold start, ensureJob.
  apply String.eqb_neq in Hid. rewrite Hid, Hjob.
  assert (Htot : (total (progress job) =? 0)%nat = false).
  { apply Nat.eqb_neq. rewrite (inv_total _ Hj).
    pose proof (inv_running _ Hj Hov). lia. }
  by rewrite Htot, Hov, Ht.
Qed.

Lemma start_idempotent_witness :
  start 7 "job1" (keys_payload (KArray ["soi"; "pands"])) started_state
  = (started_state, StartReturned "job1" true false true).
Proof.
  eapply (start_idempotent started_state 7 "job1" _ _ 0).
  - apply reach_fire, reach_init.
  - vm_compute. reflexivity.
  - reflexivity.
  - reflexivity.
Defined.

(** What [start] leaves in the store for an id that had no job. *)
Lemma start_fresh_job now jobId payload st :
  jobId <> "" -> store st !! jobId = None ->
  exists job,
    store (fst (start now jobId payload st)) !! jobId = Some job
    /\ reports job = map seed (keys_of (reportKeys payload))
    /\ total (progress job) = length (keys_of (reportKeys payload))
    /\ _cursor job = 0.
Proof.
  intros Hid Hjob.
  destruct (keys_of (reportKeys payload)) as [|k ks] eqn:Hkeys.
  - rewrite start_on_fresh_id_empty by done. simpl.
    rewrite lookup_insert_eq. by eexists.
  - rewrite (start_on_fresh_id st now jobId payload k ks) by done. simpl.
    rewrite lookup_insert_eq. eexists. split; [done|].
    by cbn [reports total progress _cursor].
Qed.

(** C2 (as amended). When [start] creates a job for a (non-empty) id, it
    seeds one pending task per entry of [reportKeys], in the order of the
    list and duplicates included: the tasks' keys are the list itself and
    [progress.total] is its length. *)
Theorem start_seeds_each_entry now jobId payload st :
  jobId <> "" ->
  store st !! jobId = None ->
  exists job,
    store (fst (start now jobId payload st)) !! jobId = Some job
    /\ reports job = map seed (keys_of (reportKeys payload))
    /\ map reportKey (reports job) = keys_of (reportKeys payload)
    /\ total (progress job) = length (keys_of (reportKeys payload)).
Proof.
  intros Hid Hjob.
  destruct (start_fresh_job now jobId payload st Hid Hjob)
    as (job & Hs & Hr & Ht & _).
  exists job. repeat split; try done.
  rewrite Hr, map_map. simpl. apply map_id.
Qed.

Lemma start_seeds_each_entry_witness :
  exists job,
    store started_state !! "job1" = Some job
    /\ reports job = [seed "soi"; seed "pands"]
    /\ map reportKey (reports job) = ["soi"; "pands"]
    /\ total (progress job) = 2.
Proof.
  apply (start_seeds_each_entry 0 "job1"
           (keys_payload (KArray ["soi"; "pands"])) init_state).
  - discriminate.
  - reflexivity.
Defined.

(** C2, as stated, fails: [start] with the keys ["soi"; "soi"] seeds two
    tasks with the same key, and [progress.total] is 2 where the list has
    one distinct key. *)
Lemma start_keeps_duplicate_keys :
  exists job,
    store (fst (start 0 "job1" (keys_payload (KArray ["soi"; "soi"])) init_state))
      !! "job1" = Some job
    /\ map reportKey (reports job) = ["soi"; "soi"]
    /\ ~ NoDup (map reportKey (reports job))
    /\ total (progress job) = 2
    /\ length (remove_dups ["soi"; "soi"]) = 1.
Proof.
  eexists. split; [vm_compute; reflexivity|].
  simpl. repeat split; try reflexivity.
  intros Hnd. apply NoDup_cons in Hnd as [Hin _].
  apply Hin. by left.
Qed.

(** C6. Empty-set completion: [start] on a (non-empty) id without a job,
    with an empty, [null] or absent [reportKeys], returns
    [{started: true, empty: true}]; the job it leaves is [success] with
    progress 0/0, the four outcome flags false and no timer, and no interval
    was created: the interval table and the timer counter are untouched and
    the other jobs are as before. *)
Theorem start_empty_completes now jobId payload st :
  jobId <> "" ->
  store st !! jobId = None ->
  keys_of (reportKeys payload) = [] ->
  exists job,
    start now jobId payload st
      = (set_store (<[jobId := job]> (store st)) st,
         StartReturned jobId true true false)
    /\ overall job = success
    /\ progress job = {| done := 0; total := 0 |}
    /\ outcome job = {| fieldsAnyNo := false; attributesAnyNo := false;
                        fieldsAllYes := false; attributesAllYes := false |}
    /\ reports job = []
    /\ _timer job = None
    /\ timers (fst (start now jobId payload st)) = timers st
    /\ next_timer (fst (start now jobId payload st)) = next_timer st.
Proof.
  intros Hid Hjob Hkeys.
  rewrite start_on_fresh_id_empty by done.
  eexists. split; [done|]. by repeat split.
Qed.

Lemma start_empty_completes_witness :
  exists job,
    start 0 "job0" (keys_payload KNull) init_state
      = (set_store (<[ "job0" := job]> (store init_state)) init_state,
         StartReturned "job0" true true false)
    /\ overall job = success
    /\ progress job = {| done := 0; total := 0 |}
    /\ outcome job = {| fieldsAnyNo := false; attributesAnyNo := false;
                        fieldsAllYes := false; attributesAllYes := false |}
    /\ reports job = []
    /\ _timer job = None
    /\ timers (fst (start 0 "job0" (keys_payload KNull) init_state))
       = timers init_state
    /\ next_timer (fst (start 0 "job0" (keys_payload KNull) init_state))
       = next_timer init_state.
Proof.
  apply (start_empty_completes 0 "job0" (keys_payload KNull) init_state).
  - discriminate.
  - reflexivity.
  - reflexivity.
Defined.

(** ** Steps that nothing interrupts *)

Lemma delete_last {A} (l : list A) x : delete (length l) (l ++ [x])%list = l.
Proof. by rewrite delete_middle, app_nil_r. Qed.

Lemma lookup_last {A} (l : list A) x : (l ++ [x])%list !! length l = Some x.
Proof. by rewrite list_lookup_middle. Qed.

(** A step that is not interrupted does what the tier part and then
    [advance] or the [catch] block do to the job it found. *)
Lemma settled_step_running tierA tierB jobId ctx st job r :
  store st !! jobId = Some job ->
  overall job = running ->
  reports job !! _cursor job = Some r ->
  settled_step tierA tierB jobId ctx st
  = match run_tiers tierA tierB (current_files st ctx) jobId (reportKey r) ctx with
    | (inr result, calls) =>
        (commit jobId (advance (_cursor job) result job (timers st)) st, calls)
    | (inl e, calls) => (commit jobId (fail_job e job (timers st)) st, calls)
    end.
Proof.
  intros Hjob Hov Hr.
  unfold settled_step, step_begin, run_tiers. rewrite Hjob, Hov, Hr.
  unfold settle, suspend. cbn [inflight set_inflight].
  rewrite lookup_last, delete_last.
  unfold step_afterA, on_job, suspend, current_files.
  cbn [store timers arrays inflight set_inflight].
  destruct (tierA _) as [va|e].
  - destruct (aNeedsB (normalizeTierResult va)).
    + unfold settle. cbn [inflight set_inflight fst].
      rewrite lookup_last, delete_last.
      unfold step_afterB, on_job. cbn [store timers arrays inflight set_inflight].
      rewrite Hjob. by destruct (tierB _).
    + by rewrite Hjob.
  - by rewrite Hjob.
Qed.

(** It does nothing on a job that is not running. *)
Lemma settled_step_idle tierA tierB jobId ctx st job :
  store st !! jobId = Some job -> overall job <> running ->
  settled_step tierA tierB jobId ctx st = (st, []).
Proof.
  intros Hjob Hov. unfold settled_step, step_begin. rewrite Hjob.
  by destruct (overall job).
Qed.

(** The states it leaves are states of a run. *)
Lemma settled_step_reachable tierA tierB t iv st :
  reachable st -> timers st !! t = Some iv ->
  reachable (fst (settled_step tierA tierB (iv_jobId iv) (iv_ctx iv) st)).
Proof.
  intros Hr Hiv. unfold settled_step.
  assert (H1 : reachable (fst (step_begin (iv_jobId iv) (iv_ctx iv) st))).
  { pose proof (reach_fire st (Tick t) Hr) as H. simpl in H. by rewrite Hiv in H. }
  destruct (step_begin (iv_jobId iv) (iv_ctx iv) st) as [st1 calls1].
  simpl in H1.
  destruct calls1 as [|[ca|cb] [|c2 rest]]; try done.
  pose proof (reach_fire st1 (Settle (length (inflight st)) (tierA ca)) H1) as H2.
  simpl in H2.
  destruct (settle (length (inflight st)) (tierA ca) st1) as [st2 calls2].
  simpl in H2.
  destruct calls2 as [|[ca'|cb] [|c3 rest]]; try done.
  cbn [fst].
  apply (reach_fire st2 (Settle (length (inflight st)) (tierB cb)) H2).
Qed.

(** ** Sample runs *)

Lemma reachable_started : reachable started_state.
Proof. apply reach_fire, reach_init. Qed.

Lemma started_job :
  store started_state !! "job1"
  = Some (mkJob 0 running (mkProgress 0 2) [seed "soi"; seed "pands"]
            (mkOutcome false false false false) (Some 0) 0 None).
Proof. vm_compute. reflexivity. Qed.

Lemma started_timer :
  timers started_state !! 0
  = Some (mkInterval "job1" (sched_ctx (keys_payload (KArray ["soi"; "pands"])))).
Proof. vm_compute. reflexivity. Qed.

Lemma reachable_ticked : reachable ticked_state.
Proof.
  exact (settled_step_reachable TierA.exported_locateAndMap
           TierB.exported_locateAndMap 0 _ started_state
           reachable_started started_timer).
Qed.

Lemma ticked_job :
  store ticked_state !! "job1"
  = Some (mkJob 0 running (mkProgress 1 2)
            [mkTask "soi" (VStr "no") (VStr "no") VNull (num 0) (num 0) VNull;
             seed "pands"]
            (mkOutcome true true false false) (Some 0) 1 None).
Proof. vm_compute. reflexivity. Qed.

Lemma reachable_two_steps : reachable two_steps_suspended.
Proof. do 2 apply reach_fire. apply reachable_started. Qed.

Lemma reachable_overlapped : reachable overlapped_state.
Proof. do 2 apply reach_fire. apply reachable_two_steps. Qed.

Lemma two_steps_inflight :
  inflight two_steps_suspended
  = [AwaitA "job1" (sched_ctx (keys_payload (KArray ["soi"; "pands"]))) 0 "soi";
     AwaitA "job1" (sched_ctx (keys_payload (KArray ["soi"; "pands"]))) 0 "soi"].
Proof. vm_compute. reflexivity. Qed.

Lemma overlapped_job :
  store overlapped_state !! "job1"
  = Some (mkJob 0 success (mkProgress 2 2) [no_task "soi"; seed "pands"]
            (mkOutcome true true false false) None 2 None).
Proof. vm_compute. reflexivity. Qed.

(** ** A completed step *)

Lemma terminalize_yes_no v :
  terminalize v = VStr (if is_str v "yes" then "yes" else "no").
Proof.
  unfold terminalize. destruct (is_str v "yes"); [done|].
  by destruct (is_str v "no").
Qed.

Lemma seed_not_terminal k : ~ terminal (seed k).
Proof. intros [[H|H] _]; discriminate H. Qed.

(** C3. The claim fails on the code when two steps of a job overlap.  The
    job "job1" has the reports "soi" and "pands", and Tier A takes longer
    than the 500 ms between two ticks: the interval fires a second time
    while the first step is suspended, and both steps hold the task "soi".
    When the two calls have settled, the job is [success] with progress 2 of
    2 and the cursor at 2, and the task "pands", below the cursor, is still
    'pending' on both axes: no step ever took it. *)
Theorem overlapping_steps_skip_a_task :
  reachable overlapped_state
  /\ inflight two_steps_suspended
     = [AwaitA "job1" (sched_ctx (keys_payload (KArray ["soi"; "pands"]))) 0 "soi";
        AwaitA "job1" (sched_ctx (keys_payload (KArray ["soi"; "pands"]))) 0 "soi"]
  /\ exists job,
       store overlapped_state !! "job1" = Some job
       /\ overall job = success
       /\ progress job = mkProgress 2 2
       /\ _cursor job = 2
       /\ reports job = [no_task "soi"; seed "pands"]
       /\ ~ (forall i r, i < _cursor job -> reports job !! i = Some r -> terminal r)
       /\ ~ Forall terminal (reports job)
       /\ status "job1" overlapped_state
          = Some (mkSnapshot "job1" success (mkProgress 2 2)
                    (mkOutcome true true false false)
                    [view (no_task "soi"); view (seed "pands")]).
Proof.
  split; [apply reachable_overlapped|]. split; [apply two_steps_inflight|].
  eexists. split; [apply overlapped_job|]. cbn [overall progress _cursor reports].
  repeat split.
  - intros H. apply (seed_not_terminal "pands"). by apply (H 1); [lia|].
  - intros H. apply (seed_not_terminal "pands").
    by apply (proj1 (Forall_lookup _ _) H 1).
Qed.

(** ** Outcome *)

Lemma existsb_is_str (f : ReportTask -> Val) lit (l : list ReportTask) :
  existsb (fun r => is_str (f r) lit) l = true
  <-> exists r, r ∈ l /\ f r = VStr lit.
Proof.
  rewrite existsb_exists. split; intros (r & Hin & Hr); exists r.
  - by rewrite list_elem_of_In, <- is_str_true.
  - by rewrite <- list_elem_of_In, is_str_true.
Qed.

Lemma all_yes_is_str (f : ReportTask -> Val) lit (l : list ReportTask) :
  (0 <? length l)%nat && forallb (fun r => is_str (f r) lit) l = true
  <-> l <> [] /\ forall r, r ∈ l -> f r = VStr lit.
Proof.
  rewrite andb_true_iff, Nat.ltb_lt, forallb_forall. split.
  - intros [Hlen Hall]. split; [by destruct l; [simpl in Hlen; lia|]|].
    intros r Hin. apply is_str_true, Hall. by apply list_elem_of_In.
  - intros [Hne Hall]. split; [destruct l; [done|simpl; lia]|].
    intros r Hin. apply is_str_true, Hall. by apply list_elem_of_In.
Qed.

(** C5. Outcome consistency: in every state of a run, each of the four
    flags of a job's [outcome] says what the reports say: [fieldsAllYes]
    (resp. [attributesAllYes]) holds exactly when the list is not empty and
    every task's [fieldsMapped] (resp. [attributesMapped]) is 'yes';
    [fieldsAnyNo] (resp. [attributesAnyNo]) exactly when some task's is
    'no'. *)
Theorem outcome_consistent st jobId job :
  reachable st ->
  store st !! jobId = Some job ->
  (fieldsAllYes (outcome job) = true
     <-> reports job <> [] /\ forall r, r ∈ reports job -> fieldsMapped r = VStr "yes")
  /\ (attributesAllYes (outcome job) = true
     <-> reports job <> []
         /\ forall r, r ∈ reports job -> attributesMapped r = VStr "yes")
  /\ (fieldsAnyNo (outcome job) = true
     <-> exists r, r ∈ reports job /\ fieldsMapped r = VStr "no")
  /\ (attributesAnyNo (outcome job) = true
     <-> exists r, r ∈ reports job /\ attributesMapped r = VStr "no").
Proof.
  intros Hreach Hjob.
  pose proof (inv_jobs _ (reachable_inv _ Hreach) _ _ Hjob) as Hj.
  rewrite (inv_outcome _ Hj). unfold computeOutcome. simpl.
  split; [apply all_yes_is_str|].
  split; [apply all_yes_is_str|].
  split; apply existsb_is_str.
Qed.

Lemma outcome_consistent_witness :
  reachable ticked_state
  /\ exists job,
       store ticked_state !! "job1" = Some job
       /\ (fieldsAnyNo (outcome job) = true
           <-> exists r, r ∈ reports job /\ fieldsMapped r = VStr "no").
Proof.
  split; [apply reachable_ticked|].
  eexists. split; [apply ticked_job|].
  pose proof (outcome_consistent ticked_state "job1" _ reachable_ticked ticked_job)
    as (_ & _ & H3 & _).
  exact H3.
Defined.

(** ** Status *)

(** C8. [status] always returns: [null] exactly for an id without a job,
    which no snapshot equals, and for an id with a job a snapshot that
    carries the id, the job's overall state, progress and outcome, and one
    entry per report, in order, with the task's values (the two axes also
    under their legacy names). *)
Theorem status_snapshot st jobId :
  (status jobId st = None <-> store st !! jobId = None)
  /\ (forall snap, status jobId st = Some snap -> is_Some (store st !! jobId))
  /\ (forall job, store st !! jobId = Some job ->
        exists snap,
          status jobId st = Some snap
          /\ s_jobId snap = jobId
          /\ s_overall snap = overall job
          /\ s_progress snap = progress job
          /\ s_outcome snap = outcome job
          /\ length (s_reports snap) = length (reports job)
          /\ forall i r, reports job !! i = Some r ->
               exists v,
                 s_reports snap !! i = Some v
                 /\ v_reportKey v = reportKey r
                 /\ v_fieldsMapped v = fieldsMapped r
                 /\ v_attributesMapped v = attributesMapped r
                 /\ v_located v = fieldsMapped r
                 /\ v_mapped v = attributesMapped r
                 /\ v_locatedSource v = locatedSource r
                 /\ v_mappedCount v = mappedCount r
                 /\ v_totalFields v = totalFields r
                 /\ v_message v = Js.or (message r) VNull).
Proof.
  unfold status. split; [|split].
  - by destruct (store st !! jobId).
  - intros snap. destruct (store st !! jobId); [eauto|done].
  - intros job ->. eexists. split; [done|]. simpl.
    repeat split; try done; [by rewrite length_map|].
    intros i r Hr. exists (view r). split; [|done].
    by rewrite list_lookup_fmap, Hr.
Qed.

(** ** The tier merge *)

Lemma normalize_axis_truthy raw : truthy (normalize_axis raw) = true.
Proof.
  unfold normalize_axis, Js.or.
  destruct (is_str raw "yes"); [done|].
  destruct (is_str raw "no"); [done|].
  by destruct (truthy raw) eqn:E.
Qed.

Lemma normalized_axes_truthy va a :
  normalizeTierResult va = Some a ->
  truthy (r_fieldsMapped a) = true /\ truthy (r_attributesMapped a) = true.
Proof.
  unfold normalizeTierResult. destruct (negb (truthy va)); [done|].
  intros [= <-]. simpl. split; apply normalize_axis_truthy.
Qed.

Lemma truthy_not_nullish v : truthy v = true -> nullish v = false.
Proof. by destruct v. Qed.

Lemma decided_is_str v :
  decided v <-> is_str v "yes" || is_str v "no" = true.
Proof.
  unfold decided. rewrite orb_true_iff, !is_str_true. done.
Qed.

Lemma aNeedsB_spec result :
  aNeedsB result = true
  <-> ~ (decided (opt_get r_fieldsMapped result)
         /\ decided (opt_get r_attributesMapped result)).
Proof.
  rewrite !decided_is_str. destruct result as [a|]; simpl.
  - destruct (is_str (r_fieldsMapped a) "yes"), (is_str (r_fieldsMapped a) "no"),
      (is_str (r_attributesMapped a) "yes"), (is_str (r_attributesMapped a) "no");
      simpl; intuition congruence.
  - intuition congruence.
Qed.

(** One axis of the merge on normalized results: Tier A's value unless it
    is 'pending', else Tier B's, else 'pending'. *)
Lemma merge_axis_normalized f va vb :
  (f = r_fieldsMapped \/ f = r_attributesMapped) ->
  merge_axis f (normalizeTierResult va) (normalizeTierResult vb)
  = match normalizeTierResult va with
    | Some a =>
        if is_str (f a) "pending"
        then match normalizeTierResult vb with
             | Some b => f b
             | None => VStr "pending"
             end
        else f a
    | None =>
        match normalizeTierResult vb with
        | Some b => f b
        | None => VStr "pending"
        end
    end.
Proof.
  intros Hf.
  assert (HB : coalesce (opt_get f (normalizeTierResult vb)) (VStr "pending")
               = match normalizeTierResult vb with
                 | Some b => f b
                 | None => VStr "pending"
                 end).
  { destruct (normalizeTierResult vb) as [b|] eqn:Eb; [|done]. simpl.
    destruct (normalized_axes_truthy _ _ Eb) as [H1 H2].
    unfold coalesce. destruct Hf as [-> | ->]; by rewrite truthy_not_nullish. }
  unfold merge_axis. rewrite HB.
  destruct (normalizeTierResult va) as [a|] eqn:Ea; [|done]. simpl.
  destruct (normalized_axes_truthy _ _ Ea) as [H1 H2].
  assert (Ht : truthy (f a) = true) by (destruct Hf as [-> | ->]; done).
  rewrite Ht. simpl. by destruct (is_str (f a) "pending").
Qed.

Lemma merge_axis_agrees_with_spec f va vb :
  (f = r_fieldsMapped \/ f = r_attributesMapped) ->
  normalizeTierResult va = None
  \/ decided (opt_get f (normalizeTierResult va))
  \/ opt_get f (normalizeTierResult va) = VStr "pending" ->
  merge_axis f (normalizeTierResult va) (normalizeTierResult vb)
  = spec_merge_axis f (normalizeTierResult va) (normalizeTierResult vb).
Proof.
  intros Hf Hcase. unfold merge_axis, spec_merge_axis.
  destruct (normalizeTierResult va) as [a|] eqn:Ea; [|done]. simpl in *.
  destruct (normalized_axes_truthy _ _ Ea) as [H1 H2].
  assert (Ht : truthy (f a) = true) by (destruct Hf as [-> | ->]; done).
  rewrite Ht. destruct Hcase as [?|[[-> | ->] | ->]]; done.
Qed.

(** X23. The merge as the code performs it.  When Tier A has returned, Tier B
    is called exactly when Tier A's normalized result leaves an axis outside
    {yes, no}.  In the merged result each axis, independently, keeps Tier
    A's normalized value whenever that value is not 'pending' (a missing or
    falsy value is 'pending' after normalization) and otherwise takes Tier
    B's value, 'pending' when Tier B returned nothing; this is the
    specification's rule whenever Tier A's value on the axis is 'yes', 'no'
    or 'pending'.  A Tier A 'yes' on an axis gives the task 'yes' on that
    axis whatever Tier B returns. *)
Theorem tier_merge_per_axis tierA tierB files jobId rkey ctx va r :
  tierA (tierA_ctx files jobId rkey ctx) = Returned va ->
  (In (CallB (tierB_ctx files jobId rkey ctx))
      (snd (run_tiers tierA tierB files jobId rkey ctx))
     <-> ~ (decided (opt_get r_fieldsMapped (normalizeTierResult va))
            /\ decided (opt_get r_attributesMapped (normalizeTierResult va))))
  /\ (forall vb,
        tierB (tierB_ctx files jobId rkey ctx) = Returned vb ->
        aNeedsB (normalizeTierResult va) = true ->
        exists merged,
          run_tiers tierA tierB files jobId rkey ctx
            = (inr (Some merged),
               [CallA (tierA_ctx files jobId rkey ctx);
                CallB (tierB_ctx files jobId rkey ctx)])
          /\ forall f, f = r_fieldsMapped \/ f = r_attributesMapped ->
               f merged
               = match normalizeTierResult va with
                 | Some a =>
                     if is_str (f a) "pending"
                     then match normalizeTierResult vb with
                          | Some b => f b
                          | None => VStr "pending"
                          end
                     else f a
                 | None =>
                     match normalizeTierResult vb with
                     | Some b => f b
                     | None => VStr "pending"
                     end
                 end
               /\ (normalizeTierResult va = None
                   \/ decided (opt_get f (normalizeTierResult va))
                   \/ opt_get f (normalizeTierResult va) = VStr "pending" ->
                   f merged
                   = spec_merge_axis f (normalizeTierResult va)
                       (normalizeTierResult vb)))
  /\ (forall result calls,
        run_tiers tierA tierB files jobId rkey ctx = (inr result, calls) ->
        (opt_get r_fieldsMapped (normalizeTierResult va) = VStr "yes" ->
         fieldsMapped (apply_result result r) = VStr "yes")
        /\ (opt_get r_attributesMapped (normalizeTierResult va) = VStr "yes" ->
            attributesMapped (apply_result result r) = VStr "yes")).
Proof.
  intros HA. unfold run_tiers. rewrite HA.
  split; [|split].
  - rewrite <- aNeedsB_spec.
    destruct (aNeedsB (normalizeTierResult va)).
    + destruct (tierB _); simpl; intuition.
    + simpl. split; [|done]. intros [H|[]]. discriminate H.
  - intros vb HB Hneed. rewrite Hneed, HB. eexists. split; [done|].
    intros f Hf. split.
    + destruct Hf as [-> | ->]; simpl.
      * apply merge_axis_normalized. by left.
      * apply merge_axis_normalized. by right.
    + intros Hcase. destruct Hf as [-> | ->]; simpl.
      * apply merge_axis_agrees_with_spec; [by left|done].
      * apply merge_axis_agrees_with_spec; [by right|done].
  - intros result calls.
    destruct (aNeedsB (normalizeTierResult va)) eqn:Hneed.
    + destruct (tierB _) as [vb|e]; [|done]. intros [= <- <-].
      split; intros Hyes; simpl; rewrite merge_axis_normalized by tauto;
        destruct (normalizeTierResult va) as [a|]; simpl in *;
        try discriminate; by rewrite Hyes.
    + intros [= <- <-].
      split; intros Hyes; simpl; by rewrite Hyes.
Qed.

Lemma tier_merge_per_axis_witness :
  constA (Returned fields_only) (tierA_ctx [] "job1" "soi" bare_ctx)
    = Returned fields_only
  /\ (In (CallB (tierB_ctx [] "job1" "soi" bare_ctx))
         (snd (run_tiers (constA (Returned fields_only))
                 TierB.exported_locateAndMap [] "job1" "soi" bare_ctx))
      <-> ~ (decided (opt_get r_fieldsMapped (normalizeTierResult fields_only))
             /\ decided (opt_get r_attributesMapped
                           (normalizeTierResult fields_only)))).
Proof.
  split; [reflexivity|].
  apply (tier_merge_per_axis (constA (Returned fields_only))
           TierB.exported_locateAndMap [] "job1" "soi" bare_ctx fields_only
           (seed "soi")).
  reflexivity.
Defined.

(** C4. The claim is right and the code breaks it.  In a step on the task
    "soi", Tier A answers 'maybe' on the fields axis, which is outside
    {yes, no}: the step calls Tier B, as the claim says, and Tier B answers
    'yes' on both axes.  The merge then keeps 'maybe' where the claim's rule
    takes Tier B's 'yes', and the task ends with 'no' on the fields axis. *)
Theorem merge_keeps_unrecognized_value :
  let st1 := fire (Tick 0) started_state in
  let st2 := fire (Settle 0 (Returned maybe_fields)) st1 in
  let st3 := fire (Settle 0 (Returned both_yes)) st2 in
  ~ decided (opt_get r_fieldsMapped (normalizeTierResult maybe_fields))
  /\ snd (settle 0 (Returned maybe_fields) st1)
     = [CallB (tierB_ctx [] "job1" "soi"
                 (sched_ctx (keys_payload (KArray ["soi"; "pands"]))))]
  /\ opt_get r_fieldsMapped (normalizeTierResult both_yes) = VStr "yes"
  /\ r_fieldsMapped (merge_results (normalizeTierResult maybe_fields)
                       (normalizeTierResult both_yes)) = VStr "maybe"
  /\ spec_merge_axis r_fieldsMapped (normalizeTierResult maybe_fields)
       (normalizeTierResult both_yes) = VStr "yes"
  /\ (exists job t,
        store st3 !! "job1" = Some job
        /\ reports job !! 0 = Some t
        /\ fieldsMapped t = VStr "no"
        /\ attributesMapped t = VStr "yes")
  /\ run_tiers (constA (Returned maybe_fields)) (constB (Returned both_yes))
       [] "job1" "soi" bare_ctx
     = (inr (Some (merge_results (normalizeTierResult maybe_fields)
                     (normalizeTierResult both_yes))),
        [CallA (tierA_ctx [] "job1" "soi" bare_ctx);
         CallB (tierB_ctx [] "job1" "soi" bare_ctx)]).
Proof.
  cbv zeta. split; [intros [H|H]; discriminate H|].
  split; [vm_compute; reflexivity|].
  split; [reflexivity|]. split; [reflexivity|]. split; [reflexivity|].
  split; [|reflexivity].
  eexists _, _. split; [vm_compute; reflexivity|]. by repeat split.
Qed.

(** ** A tier that throws *)

(** When an interval fires, its job is running and has a task at the
    cursor. *)
Lemma tick_finds_task st t iv :
  reachable st -> timers st !! t = Some iv ->
  exists job r,
    store st !! iv_jobId iv = Some job
    /\ _timer job = Some t
    /\ overall job = running
    /\ reports job !! _cursor job = Some r.
Proof.
  intros Hreach Hiv. pose proof (reachable_inv _ Hreach) as Hst.
  destruct (inv_timers _ Hst t iv Hiv) as (job & Hjob & Ht).
  pose proof (inv_jobs _ Hst _ _ Hjob) as Hj.
  assert (Hov : overall job = running) by (apply (inv_timer _ Hj); congruence).
  destruct (lookup_lt_is_Some_2 (reports job) (_cursor job)
              (inv_running _ Hj Hov)) as [r Hr].
  by exists job, r.
Qed.

(** A suspended step holds a job that has reports. *)
Lemma pending_finds_job st k p :
  reachable st -> inflight st !! k = Some p ->
  exists job r,
    store st !! pending_job p = Some job
    /\ reports job !! pending_index p = Some r
    /\ reportKey r = pending_key p
    /\ pending_index p <= _cursor job.
Proof.
  intros Hreach Hp.
  exact (proj1 (Forall_lookup _ _) (inv_pending _ (reachable_inv _ Hreach)) k p Hp).
Qed.

(** What the [catch] block leaves of a job that has reports, in a state
    that satisfies the invariant. *)
Lemma catch_block st jobId job e :
  state_inv st ->
  store st !! jobId = Some job ->
  reports job <> [] ->
  let st' := on_job jobId (fun job => fail_job e job (timers st)) st in
  store st' !! jobId
  = Some (set_timer None (set_message (Some (error_text e)) (set_overall failed job)))
  /\ (forall t iv, timers st' !! t = Some iv -> iv_jobId iv <> jobId)
  /\ (forall t iv, timers st !! t = Some iv -> iv_jobId iv <> jobId ->
        timers st' !! t = Some iv)
  /\ (forall id, id <> jobId -> store st' !! id = store st !! id)
  /\ inflight st' = inflight st
  /\ (forall now payload,
        start now jobId payload st' = (st', StartReturned jobId true false true)).
Proof.
  intros Hst Hjob Hne st'.
  assert (Hst' : state_inv st').
  { apply (on_job_fail_inv jobId e st 0); [done|]. exists job. split; [done|].
    destruct (reports job); [done|simpl; lia]. }
  assert (Hs : store st' !! jobId
               = Some (set_timer None (set_message (Some (error_text e))
                                         (set_overall failed job)))).
  { subst st'. unfold on_job, commit. rewrite Hjob. cbn [store].
    rewrite lookup_insert_eq. unfold fail_job. by rewrite clearTimer_fst. }
  split; [done|]. split; [|split; [|split; [|split]]].
  - intros t iv Hiv E.
    destruct (inv_timers _ Hst' t iv Hiv) as (j & Hj & Hjt).
    rewrite E, Hs in Hj. by injection Hj as <-.
  - intros t iv Hiv Hid. subst st'. unfold on_job, commit. rewrite Hjob.
    cbn [timers]. unfold fail_job. rewrite clearTimer_snd. simpl.
    destruct (_timer job) as [t0|] eqn:Ht0; [|done].
    rewrite lookup_delete_ne; [done|]. intros ->.
    destruct (inv_timers _ Hst t iv Hiv) as (j & Hj & Hjt).
    destruct (inv_live _ Hst jobId job t Hjob Ht0) as (iv0 & Hiv0 & Hid0).
    congruence.
  - intros id Hd. subst st'. unfold on_job. rewrite Hjob. simpl.
    by rewrite lookup_insert_ne.
  - subst st'. unfold on_job. by rewrite Hjob.
  - intros now payload.
    rewrite (start_on_job st' now jobId payload _ Hst' Hs). simpl.
    by destruct (reports job).
Qed.

(** ** What an event leaves alone *)

Lemma on_job_store_other jobId f st id :
  id <> jobId -> store (on_job jobId f st) !! id = store st !! id.
Proof.
  intros Hne. unfold on_job. destruct (store st !! jobId); [|done].
  simpl. by rewrite lookup_insert_ne.
Qed.

Lemma step_begin_store_other jobId ctx st id :
  id <> jobId ->
  store (fst (step_begin jobId ctx st)) !! id = store st !! id.
Proof.
  intros Hne. unfold step_begin.
  destruct (store st !! jobId) as [job|]; [|done].
  destruct (overall job); [|done|done].
  destruct (reports job !! _cursor job) as [r|]; [done|].
  simpl. by rewrite lookup_insert_ne.
Qed.

Lemma settle_store_other k c st p id :
  inflight st !! k = Some p -> id <> pending_job p ->
  store (fst (settle k c st)) !! id = store st !! id.
Proof.
  intros Hp Hne. unfold settle. rewrite Hp.
  destruct p as [jobId ctx i rkey|jobId ctx i rkey resA]; simpl in Hne.
  - unfold step_afterA. destruct c as [va|e]; cbn [fst].
    + destruct (aNeedsB _); cbn [fst]; [done|]. by rewrite on_job_store_other.
    + by rewrite on_job_store_other.
  - unfold step_afterB. destruct c as [vb|e]; cbn [fst];
      by rewrite on_job_store_other.
Qed.

Lemma start_store_other now jobId payload st id :
  id <> jobId ->
  store (fst (start now jobId payload st)) !! id = store st !! id.
Proof.
  intros Hne. unfold start.
  destruct (String.eqb jobId ""); [done|].
  set (keys := match reportKeys payload with KUndefined => KArray [] | k => k end).
  assert (He : store (fst (ensureJob now jobId keys st)) !! id = store st !! id).
  { unfold ensureJob. destruct (store st !! jobId); [done|].
    simpl. by rewrite lookup_insert_ne. }
  destruct (ensureJob now jobId keys st) as [st1 job]. simpl in He.
  destruct (total (progress job) =? 0)%nat.
  - simpl. by rewrite lookup_insert_ne.
  - destruct (overall job); [|done|done].
    destruct (_timer job); [done|].
    assert (Hs : store (schedule jobId (sched_ctx payload) st1) !! id
                 = store st !! id).
    { unfold schedule. destruct (store st1 !! jobId) as [j|]; [|done].
      destruct (clearTimer j (timers st1)). simpl. by rewrite lookup_insert_ne. }
    by destruct keys.
Qed.

(** An event that is not about a job leaves its record alone. *)
Lemma fire_store_other e st id :
  event_job e st <> Some id ->
  store (fire e st) !! id = store st !! id.
Proof.
  intros Hne. destruct e as [now jobId payload|a fs|t|k c]; simpl in *.
  - apply start_store_other. congruence.
  - done.
  - destruct (timers st !! t) as [iv|]; [|done].
    apply step_begin_store_other. simpl in Hne. congruence.
  - destruct (inflight st !! k) as [p|] eqn:Hp.
    + apply (settle_store_other k c st p); [done|]. simpl in Hne. congruence.
    + unfold settle. by rewrite Hp.
Qed.

(** An update of one job leaves the intervals of the others. *)
Lemma timers_other_kept st jobId job jt t iv :
  state_inv st -> store st !! jobId = Some job ->
  timer_kept_or_cleared job (timers st) jt ->
  timers st !! t = Some iv -> iv_jobId iv <> jobId ->
  snd jt !! t = Some iv.
Proof.
  intros Hst Hjob [[_ ->]|[_ ->]] Hiv Hne; [done|].
  destruct (_timer job) as [t0|] eqn:Ht0; [|done].
  rewrite lookup_delete_ne; [done|]. intros ->.
  destruct (inv_live _ Hst _ _ _ Hjob Ht0) as (iv0 & Hiv0 & Hid0). congruence.
Qed.

Lemma on_job_timers_other st jobId f t iv :
  state_inv st ->
  (forall job, timer_kept_or_cleared job (timers st) (f job)) ->
  timers st !! t = Some iv -> iv_jobId iv <> jobId ->
  timers (on_job jobId f st) !! t = Some iv.
Proof.
  intros Hst Hf Hiv Hne. unfold on_job.
  destruct (store st !! jobId) as [job|] eqn:Hjob; [|done].
  simpl. by eapply timers_other_kept.
Qed.

Lemma start_timers_kept now jobId payload st t iv :
  state_inv st -> timers st !! t = Some iv ->
  timers (fst (start now jobId payload st)) !! t = Some iv.
Proof.
  intros Hst Hiv.
  destruct (decide (jobId = "")) as [->|Hid]; [done|].
  destruct (store st !! jobId) as [job|] eqn:Hjob.
  - by rewrite (start_on_job st now jobId payload job).
  - destruct (keys_of (reportKeys payload)) as [|k ks] eqn:Hk.
    + by rewrite start_on_fresh_id_empty.
    + rewrite (start_on_fresh_id st now jobId payload k ks) by done.
      simpl. rewrite lookup_insert_ne; [done|].
      pose proof (inv_fresh _ Hst t iv Hiv). lia.
Qed.

Lemma fire_timers_other e st id t iv :
  state_inv st ->
  event_job e st <> Some id ->
  timers st !! t = Some iv -> iv_jobId iv = id ->
  timers (fire e st) !! t = Some iv.
Proof.
  intros Hst Hne Hiv Hid.
  destruct e as [now jobId payload|a fs|t0|k c]; simpl in *.
  - by apply start_timers_kept.
  - done.
  - destruct (timers st !! t0) as [iv0|] eqn:Hiv0; [|done]. simpl in Hne.
    unfold step_begin.
    destruct (store st !! iv_jobId iv0) as [job|] eqn:Hjob; [|done].
    destruct (overall job); [|done|done].
    destruct (reports job !! _cursor job); [done|]. simpl.
    eapply (timers_other_kept st (iv_jobId iv0) job); [done|done| |done|congruence].
    by apply clearTimer_cleared.
  - unfold settle. destruct (inflight st !! k) as [p|] eqn:Hp; [|done].
    simpl in Hne.
    assert (Hst0 : state_inv (set_inflight (delete k (inflight st)) st)).
    { apply set_inflight_inv; [done|]. apply Forall_delete, Hst. }
    destruct p as [jobId ctx i rkey|jobId ctx i rkey resA]; simpl in Hne.
    + unfold step_afterA. destruct c as [va|e]; cbn [fst].
      * destruct (aNeedsB _); cbn [fst]; [done|].
        apply on_job_timers_other; [done| |done|congruence].
        intros job. apply advance_timer.
      * apply on_job_timers_other; [done| |done|congruence].
        intros job. apply fail_job_timer.
    + unfold step_afterB. destruct c as [vb|e]; cbn [fst].
      * apply on_job_timers_other; [done| |done|congruence].
        intros job. apply advance_timer.
      * apply on_job_timers_other; [done| |done|congruence].
        intros job. apply fail_job_timer.
Qed.


(** The resumption of a suspended step with a thrown value is the [catch]
    block, at either [await]. *)
Lemma settle_threw st k p e :
  inflight st !! k = Some p ->
  settle k (Threw e) st
  = (on_job (pending_job p)
       (fun job => fail_job e job (timers st))
       (set_inflight (delete k (inflight st)) st), []).
Proof.
  intros Hp. unfold settle. rewrite Hp. by destruct p.
Qed.

(** An event that does not resume a step of a job with an answer leaves
    the job's tasks, cursor, progress and outcome as they are. *)
Lemma quiet_fire_job e st id job :
  reachable st ->
  store st !! id = Some job ->
  ~ resumes_step id e st ->
  exists job',
    store (fire e st) !! id = Some job'
    /\ reports job' = reports job
    /\ _cursor job' = _cursor job
    /\ progress job' = progress job
    /\ outcome job' = outcome job.
Proof.
  intros Hreach Hjob Hq. pose proof (reachable_inv _ Hreach) as Hst.
  destruct e as [now jobId payload|a fs|t|k c]; simpl.
  - exists job. split; [|done].
    destruct (decide (id = jobId)) as [->|Hne].
    + by rewrite (start_on_job st now jobId payload job).
    + by rewrite start_store_other.
  - by exists job.
  - destruct (timers st !! t) as [iv|]; [|by exists job].
    destruct (decide (id = iv_jobId iv)) as [Heq|Hne];
      [|exists job; by rewrite step_begin_store_other].
    unfold step_begin. rewrite <- Heq, Hjob.
    destruct (overall job); [|by exists job..].
    destruct (reports job !! _cursor job); [by exists job|].
    simpl. rewrite lookup_insert_eq. eexists. split; [done|].
    by rewrite clearTimer_fst.
  - destruct (inflight st !! k) as [p|] eqn:Hp;
      [|unfold settle; rewrite Hp; by exists job].
    destruct (decide (id = pending_job p)) as [Heq|Hne];
      [|exists job; by rewrite (settle_store_other k c st p)].
    destruct c as [v|e].
    + exfalso. apply Hq. simpl. by rewrite Hp, Heq.
    + rewrite (settle_threw st k p e Hp). cbn [fst].
      unfold on_job, commit. cbn [store set_inflight timers].
      rewrite <- Heq, Hjob. cbn [store]. rewrite lookup_insert_eq.
      pose proof (fail_job_fields e job (timers st)) as (H1 & H2 & H3 & H4 & _).
      eexists. split; [done|]. by rewrite H1, H2, H3, H4.
Qed.

Lemma quiet_for_reachable id st st' :
  reachable st -> quiet_for id st st' -> reachable st'.
Proof. intros Hreach. induction 1; [done|by apply reach_fire]. Qed.

Lemma quiet_for_job id st st' job :
  reachable st -> quiet_for id st st' ->
  store st !! id = Some job ->
  exists job',
    store st' !! id = Some job'
    /\ reports job' = reports job
    /\ _cursor job' = _cursor job
    /\ progress job' = progress job
    /\ outcome job' = outcome job.
Proof.
  intros Hreach Hq Hjob. induction Hq as [|st' e Hq IH Hne]; [by exists job|].
  destruct IH as (job1 & Hj1 & Hr1 & Hc1 & Hp1 & Ho1).
  destruct (quiet_fire_job e st' id job1 (quiet_for_reachable _ _ _ Hreach Hq)
              Hj1 Hne) as (job2 & Hj2 & Hr2 & Hc2 & Hp2 & Ho2).
  exists job2. split; [done|]. repeat split; congruence.
Qed.

(** C7 (as amended).  In every state of a run, when the tier call a
    suspended step awaits throws, the job becomes [failed] and keeps as
    message [String(err?.message || err)], which is empty only if that text
    is; its timer is cleared and no interval of the job is left; handling
    the rejection writes nothing else: the job's reports, cursor, progress
    and outcome are those in place when the call settled; the other jobs
    and their intervals are untouched.  Nothing is thrown: the step ends
    without a further tier call, [status] then shows the failed job with the
    progress, outcome and reports in place (the message is not part of the
    snapshot), and [start] on it answers [already: true] and changes
    nothing.  When, from the state in which the step started, no step of
    the same job was resumed with an answer of its tier before the throw
    (other jobs may have run, requests and uploads come in, the interval
    fired again), the values in place are the ones before the step: the
    tasks, the cursor, the progress and the outcome are unchanged. *)
Theorem tier_failure_atomic st :
  reachable st ->
  (forall k p e,
     inflight st !! k = Some p ->
     exists job,
       store st !! pending_job p = Some job
       /\ let st' := fst (settle k (Threw e) st) in
          exists job',
            store st' !! pending_job p = Some job'
            /\ overall job' = failed
            /\ job_message job' = Some (error_text e)
            /\ _timer job' = None
            /\ (forall t iv, timers st' !! t = Some iv ->
                  iv_jobId iv <> pending_job p)
            /\ reports job' = reports job
            /\ _cursor job' = _cursor job
            /\ progress job' = progress job
            /\ outcome job' = outcome job
            /\ (forall id, id <> pending_job p -> store st' !! id = store st !! id)
            /\ (forall t iv, timers st !! t = Some iv ->
                  iv_jobId iv <> pending_job p -> timers st' !! t = Some iv)
            /\ snd (settle k (Threw e) st) = []
            /\ status (pending_job p) st'
               = Some (mkSnapshot (pending_job p) failed (progress job)
                         (outcome job) (map view (reports job)))
            /\ (forall now payload,
                  start now (pending_job p) payload st'
                  = (st', StartReturned (pending_job p) true false true)))
  /\ (forall st' job k p e,
        store st !! pending_job p = Some job ->
        quiet_for (pending_job p) st st' ->
        inflight st' !! k = Some p ->
        exists job',
          store (fst (settle k (Threw e) st')) !! pending_job p = Some job'
          /\ overall job' = failed
          /\ job_message job' = Some (error_text e)
          /\ _timer job' = None
          /\ reports job' = reports job
          /\ _cursor job' = _cursor job
          /\ progress job' = progress job
          /\ outcome job' = outcome job
          /\ status (pending_job p) (fst (settle k (Threw e) st'))
             = Some (mkSnapshot (pending_job p) failed (progress job)
                       (outcome job) (map view (reports job)))).
Proof.
  assert (HA : forall st0 k p e,
            reachable st0 -> inflight st0 !! k = Some p ->
            exists job,
              store st0 !! pending_job p = Some job
              /\ let st' := fst (settle k (Threw e) st0) in
                 exists job',
                   store st' !! pending_job p = Some job'
                   /\ overall job' = failed
                   /\ job_message job' = Some (error_text e)
                   /\ _timer job' = None
                   /\ (forall t iv, timers st' !! t = Some iv ->
                         iv_jobId iv <> pending_job p)
                   /\ reports job' = reports job
                   /\ _cursor job' = _cursor job
                   /\ progress job' = progress job
                   /\ outcome job' = outcome job
                   /\ (forall id, id <> pending_job p ->
                         store st' !! id = store st0 !! id)
                   /\ (forall t iv, timers st0 !! t = Some iv ->
                         iv_jobId iv <> pending_job p ->
                         timers st' !! t = Some iv)
                   /\ snd (settle k (Threw e) st0) = []
                   /\ status (pending_job p) st'
                      = Some (mkSnapshot (pending_job p) failed (progress job)
                                (outcome job) (map view (reports job)))
                   /\ (forall now payload,
                         start now (pending_job p) payload st'
                         = (st', StartReturned (pending_job p) true false true))).
  { intros st0 k p e Hreach Hp. pose proof (reachable_inv _ Hreach) as Hst.
    destruct (pending_finds_job st0 k p Hreach Hp) as (job & r & Hjob & Hr & _).
    exists job. split; [done|]. rewrite (settle_threw st0 k p e Hp). cbn [fst snd].
    assert (Hst0 : state_inv (set_inflight (delete k (inflight st0)) st0)).
    { apply set_inflight_inv; [done|]. apply Forall_delete, Hst. }
    assert (Hne : reports job <> []) by (intros E; by rewrite E in Hr).
    destruct (catch_block (set_inflight (delete k (inflight st0)) st0)
                (pending_job p) job e Hst0 Hjob Hne)
      as (Hs & Hnone & Hkeep & Hother & _ & Hstart).
    cbn [timers store set_inflight] in *.
    eexists. split; [exact Hs|].
    repeat split; try done.
    unfold status. by rewrite Hs. }
  intros Hreach. split; [intros k p e Hp; by apply HA|].
  intros st' job k p e Hjob Hq Hp.
  destruct (quiet_for_job _ _ _ _ Hreach Hq Hjob)
    as (job1 & Hj1 & Hr1 & Hc1 & Hp1 & Ho1).
  destruct (HA st' k p e (quiet_for_reachable _ _ _ Hreach Hq) Hp)
    as (job2 & Hj2 & job' & Hs & Hov & Hm & Ht & _ & Hr & Hc & Hpr & Ho & _ & _
        & _ & Hstat & _).
  assert (job2 = job1) as -> by congruence.
  exists job'. split; [done|]. rewrite Hr, Hc, Hpr, Ho, Hr1, Hc1, Hp1, Ho1.
  repeat split; try done.
  by rewrite Hstat, Hr1, Hp1, Ho1.
Qed.

Lemma tier_failure_atomic_witness :
  reachable started_state
  /\ quiet_for "job1" started_state (fire (Tick 0) started_state)
  /\ exists job',
       store (fst (settle 0 (Threw thrown_boom) (fire (Tick 0) started_state)))
         !! "job1" = Some job'
       /\ overall job' = failed
       /\ job_message job' = Some "boom"
       /\ _timer job' = None
       /\ reports job' = [seed "soi"; seed "pands"]
       /\ _cursor job' = 0
       /\ progress job' = mkProgress 0 2.
Proof.
  assert (Hq : quiet_for "job1" started_state (fire (Tick 0) started_state)).
  { apply quiet_fire; [apply quiet_refl|]. simpl. tauto. }
  split; [apply reachable_started|]. split; [exact Hq|].
  destruct (tier_failure_atomic started_state reachable_started) as [_ H].
  destruct (H (fire (Tick 0) started_state) _ 0
              (AwaitA "job1" (sched_ctx (keys_payload (KArray ["soi"; "pands"])))
                 0 "soi")
              thrown_boom started_job Hq eq_refl)
    as (job' & Hs & Ho & Hm & Ht & Hrep & Hcur & Hprog & _).
  exists job'. by repeat split.
Defined.

(** C7, as stated, fails in three ways.  A tier that throws the empty
    string leaves the job [failed] with an empty message.  The snapshot of
    [status] has no message: a job failed with "boom" and the same job
    failed with "bang" give the same snapshot.  And when two steps of a job
    overlap, the task and the cursor are no longer the ones the failing
    step found: both steps start on the seeded task "soi" with the cursor
    at 0, the first writes the task and moves the cursor, then the call of
    the second throws. *)
Lemma thrown_empty_string_leaves_empty_message :
  let ctx := sched_ctx (keys_payload (KArray ["soi"; "pands"])) in
  let failed_with e :=
    fst (settled_step (constA (Threw e)) TierB.exported_locateAndMap
           "job1" ctx started_state) in
  (exists job',
     store (failed_with thrown_empty_string) !! "job1" = Some job'
     /\ overall job' = failed
     /\ job_message job' = Some "")
  /\ (exists job1 job2,
        store (failed_with thrown_boom) !! "job1" = Some job1
        /\ store (failed_with thrown_bang) !! "job1" = Some job2
        /\ job_message job1 = Some "boom"
        /\ job_message job2 = Some "bang"
        /\ status "job1" (failed_with thrown_boom)
           = status "job1" (failed_with thrown_bang))
  /\ (exists job job',
        store two_steps_suspended !! "job1" = Some job
        /\ reports job !! 0 = Some (seed "soi")
        /\ _cursor job = 0
        /\ inflight (fire (Settle 0 (Returned both_no)) two_steps_suspended)
           = [AwaitA "job1" ctx 0 "soi"]
        /\ store overlapped_failure !! "job1" = Some job'
        /\ overall job' = failed
        /\ job_message job' = Some "boom"
        /\ reports job' !! 0 = Some (no_task "soi")
        /\ _cursor job' = 1
        /\ progress job' = mkProgress 1 2).
Proof.
  cbv zeta. split; [|split].
  - eexists. split; [vm_compute; reflexivity|]. by split.
  - eexists _, _. split; [vm_compute; reflexivity|].
    split; [vm_compute; reflexivity|]. by repeat split.
  - eexists _, _. split; [vm_compute; reflexivity|].
    split; [reflexivity|]. split; [reflexivity|].
    split; [vm_compute; reflexivity|].
    split; [vm_compute; reflexivity|]. by repeat split.
Qed.

(** ** Tier A *)

Lemma starts_with_spec sub s :
  starts_with sub s = true <-> exists post, s = sub +:+ post.
Proof.
  revert s. induction sub as [|a sub IH]; intros s; simpl.
  - split; [eauto|done].
  - destruct s as [|b s].
    + split; [done|]. by intros [post H].
    + rewrite andb_true_iff, Ascii.eqb_eq, IH. split.
      * intros [-> [post ->]]. by exists post.
      * intros [post [= -> ->]]. eauto.
Qed.

(** [includes] is the substring test. *)
Lemma includes_spec s sub :
  includes s sub = true <-> exists pre post, s = pre +:+ sub +:+ post.
Proof.
  induction s as [|c s IH]; simpl; rewrite orb_true_iff, starts_with_spec.
  - split.
    + intros [[post H]|H]; [|done]. by exists "", post.
    + intros (pre & post & H). left. exists post.
      destruct pre; [done|discriminate H].
  - rewrite IH. split.
    + intros [[post H]|(pre & post & ->)].
      * by exists "", post.
      * by exists (String c pre), post.
    + intros (pre & post & H). destruct pre as [|c' pre].
      * left. by exists post.
      * right. injection H as -> ->. by exists pre, post.
Qed.

(** Normalizing a result that uses the legacy key names. *)
Lemma normalize_legacy l m src mc tf msg :
  normalizeTierResult
    (VObj [("located", l); ("mapped", m); ("locatedSource", src);
           ("mappedCount", mc); ("totalFields", tf); ("message", msg)])
  = Some {| r_fieldsMapped := normalize_axis l;
            r_attributesMapped := normalize_axis m;
            r_locatedSource := Js.or src VNull;
            r_mappedCount := if isFinite mc then mc else num 0;
            r_totalFields := if isFinite tf then tf else num 0;
            r_message := Js.or msg VNull |}.
Proof. reflexivity. Qed.

(** The rules as the declared [locateAndMap] applies them, whatever the
    runtime's [toLowerCase] does: the fields axis is 'yes' exactly when
    some uploaded file's name contains, in lower case, the key or the
    (non-empty) human name of the report; the attributes axis exactly when
    moreover the report has a field specification that is not empty;
    [totalFields] is the number of fields of the specification. *)
Lemma declared_rules (toLowerCase : string -> string) ctx :
  let meta := TierA.findReportMeta (a_db ctx) (a_reportKey ctx) in
  let h := toLowerCase (default "" (str_or_null (TierA.humanName meta))) in
  exists va a,
    TierA.locateAndMap toLowerCase ctx = Returned va
    /\ normalizeTierResult va = Some a
    /\ (r_fieldsMapped a = VStr "yes"
        <-> exists f, f ∈ a_files ctx
              /\ (includes (toLowerCase (TierA.file_name f))
                           (toLowerCase (a_reportKey ctx)) = true
                  \/ (h <> ""
                      /\ includes (toLowerCase (TierA.file_name f)) h = true)))
    /\ (r_attributesMapped a = VStr "yes"
        <-> r_fieldsMapped a = VStr "yes" /\ 0 < TierA.totalFields meta)
    /\ r_totalFields a = num (Z.of_nat (TierA.totalFields meta)).
Proof.
  intros meta h. unfold TierA.locateAndMap. fold meta.
  eexists _, _. split; [reflexivity|]. split; [apply normalize_legacy|].
  cbn [r_fieldsMapped r_attributesMapped r_totalFields].
  assert (Hyn : forall b, normalize_axis (TierA.yes_no b) = VStr "yes" <-> b = true)
    by (by intros []).
  rewrite !Hyn, andb_true_iff, Nat.ltb_lt.
  split; [|split; [done|done]].
  unfold TierA.looksLikeMatch. rewrite existsb_exists. fold h.
  split; intros (f & Hin & Hf); exists f.
  - rewrite list_elem_of_In. split; [done|].
    apply orb_true_iff in Hf as [Hf|Hf]; [by left|right].
    apply andb_true_iff in Hf as [Hne Hf]. split; [|done].
    apply negb_true_iff in Hne. by apply String.eqb_neq.
  - rewrite <- list_elem_of_In. split; [done|].
    rewrite orb_true_iff, andb_true_iff, negb_true_iff, String.eqb_neq.
    tauto.
Qed.

(** C9. The function the orchestrator calls is not the declared rules: for
    the report "soi" and an uploaded file named SOI_2024.csv, whose lower
    case is soi_2024.csv, the rules find the key in the name and the
    declared [locateAndMap] answers 'yes' on the fields axis, but the
    exported [locateAndMap], which replaces it, answers 'no'. *)
Theorem exported_rules_miss_match (toLowerCase : string -> string) :
  toLowerCase "SOI_2024.csv" = "soi_2024.csv" ->
  toLowerCase "soi" = "soi" ->
  TierA.looksLikeMatch toLowerCase (a_files soi_ctx) (a_reportKey soi_ctx) None = true
  /\ (exists va a,
        TierA.locateAndMap toLowerCase soi_ctx = Returned va
        /\ normalizeTierResult va = Some a
        /\ r_fieldsMapped a = VStr "yes")
  /\ (exists va a,
        TierA.exported_locateAndMap soi_ctx = Returned va
        /\ normalizeTierResult va = Some a
        /\ r_fieldsMapped a = VStr "no").
Proof.
  intros Hname Hkey.
  assert (Hm : TierA.looksLikeMatch toLowerCase (a_files soi_ctx)
                 (a_reportKey soi_ctx) None = true).
  { unfold TierA.looksLikeMatch. simpl.
    change (TierA.file_name _) with "SOI_2024.csv". by rewrite Hname, Hkey. }
  split; [done|]. split.
  - eexists _, _. split; [reflexivity|]. split; [apply normalize_legacy|].
    simpl in Hm. simpl. by rewrite Hm.
  - eexists _, _. by repeat split.
Qed.

Lemma exported_rules_miss_match_witness :
  TierA.looksLikeMatch ascii_toLowerCase (a_files soi_ctx) (a_reportKey soi_ctx) None
  = true
  /\ exists va a,
       TierA.exported_locateAndMap soi_ctx = Returned va
       /\ normalizeTierResult va = Some a
       /\ r_fieldsMapped a = VStr "no".
Proof.
  destruct (exported_rules_miss_match ascii_toLowerCase eq_refl eq_refl)
    as (H1 & _ & H3).
  by split.
Defined.

(** ** Robustness of the written task *)

Lemma finite_or_zero v :
  exists q, (if isFinite v then v else num 0) = VNum (NFin q).
Proof. destruct v as [| | |[]| | | |]; simpl; eauto. Qed.

Lemma or_null_cases v :
  Js.or v VNull = VNull \/ (truthy (Js.or v VNull) = true /\ Js.or v VNull = v).
Proof. unfold Js.or. destruct (truthy v) eqn:E; [by right|by left]. Qed.

(** The task [step] writes from any merged result. *)
Lemma apply_result_well_formed result r :
  let t := apply_result result r in
  reportKey t = reportKey r
  /\ decided (fieldsMapped t) /\ decided (attributesMapped t)
  /\ (fieldsMapped t = VStr "yes" <-> opt_get r_fieldsMapped result = VStr "yes")
  /\ (attributesMapped t = VStr "yes"
      <-> opt_get r_attributesMapped result = VStr "yes")
  /\ (exists q, mappedCount t = VNum (NFin q))
  /\ (isFinite (opt_get r_mappedCount result) = true ->
      mappedCount t = opt_get r_mappedCount result)
  /\ (isFinite (opt_get r_mappedCount result) = false -> mappedCount t = num 0)
  /\ (exists q, totalFields t = VNum (NFin q))
  /\ (isFinite (opt_get r_totalFields result) = true ->
      totalFields t = opt_get r_totalFields result)
  /\ (isFinite (opt_get r_totalFields result) = false -> totalFields t = num 0)
  /\ (fieldsMapped t <> VStr "yes" -> locatedSource t = VNull)
  /\ (fieldsMapped t = VStr "yes" ->
      locatedSource t = Js.or (opt_get r_locatedSource result) VNull)
  /\ (truthy (opt_get r_message result) = true ->
      message t = opt_get r_message result)
  /\ (truthy (opt_get r_message result) = false -> message t = VNull).
Proof.
  assert (Hyes : forall v, terminalize v = VStr "yes" <-> v = VStr "yes").
  { intros v. rewrite terminalize_yes_no, <- (is_str_true v "yes").
    destruct (is_str v "yes"); split; try done; intros H; discriminate H. }
  simpl. repeat split; try apply terminalize_decided;
    try apply finite_or_zero; try apply Hyes.
  - by intros ->.
  - by intros ->.
  - by intros ->.
  - by intros ->.
  - intros Hno. destruct (is_str (terminalize _) "yes") eqn:E; [|done].
    by apply is_str_true in E.
  - intros Hy. apply is_str_true in Hy. by rewrite Hy.
  - unfold Js.or. by intros ->.
  - unfold Js.or. by intros ->.
Qed.

(** What the writes of a step leave at the index of the task. *)
Lemma advance_writes st jobId i job r result :
  store st !! jobId = Some job ->
  reports job !! i = Some r ->
  exists job',
    store (on_job jobId (fun job => advance i result job (timers st)) st) !! jobId
    = Some job'
    /\ reports job' = <[i := apply_result result r]> (reports job)
    /\ reports job' !! i = Some (apply_result result r)
    /\ _cursor job' = S (_cursor job)
    /\ progress job'
       = mkProgress (Nat.min (S (_cursor job)) (total (progress job)))
                    (total (progress job))
    /\ outcome job' = computeOutcome (reports job').
Proof.
  intros Hjob Hr. unfold on_job, commit. rewrite Hjob. cbn [store].
  rewrite lookup_insert_eq. eexists. split; [done|].
  pose proof (advance_fields i result job (timers st)) as (H1 & H2 & H3 & H4 & _).
  rewrite H1, H2, H3, H4.
  assert (Halt : alter (apply_result result) i (reports job)
                 = <[i := apply_result result r]> (reports job)).
  { apply list_eq. intros j. destruct (decide (i = j)) as [->|Hd].
    - rewrite list_lookup_alter_eq, Hr, list_lookup_insert_eq;
        [done|by eapply lookup_lt_Some].
    - by rewrite list_lookup_alter_ne, list_lookup_insert_ne. }
  rewrite Halt. repeat split; try done.
  apply list_lookup_insert_eq. by eapply lookup_lt_Some.
Qed.

(** C10 (as amended). Whatever the tiers returned, a step that reaches its
    writes leaves a well-formed task, at either place where [step] goes on
    to them (after Tier A when Tier B is not needed, after Tier B
    otherwise): both axes end in {yes, no}, 'yes' exactly when the merged
    value is 'yes' (so an unrecognized value ends as 'no'); [mappedCount]
    and [totalFields] are finite numbers: the merged value itself when it
    is a finite number, negative or not, and 0 otherwise; [locatedSource]
    is [null] whenever the fields axis is not 'yes'; and [message] is the
    message value of the result when that is truthy and [null] otherwise.
    A normalized tier result reads the legacy [located]/[mapped] keys when
    the new ones are missing, has a value on both axes, keeps a finite
    count as it is and has 0 for any other. *)
Theorem step_writes_well_formed_task st jobId i job r :
  store st !! jobId = Some job ->
  reports job !! i = Some r ->
  (forall result,
     exists job' t,
       store (on_job jobId (fun job => advance i result job (timers st)) st)
         !! jobId = Some job'
       /\ reports job' !! i = Some t
       /\ reportKey t = reportKey r
       /\ decided (fieldsMapped t) /\ decided (attributesMapped t)
       /\ (fieldsMapped t = VStr "yes"
           <-> opt_get r_fieldsMapped result = VStr "yes")
       /\ (attributesMapped t = VStr "yes"
           <-> opt_get r_attributesMapped result = VStr "yes")
       /\ (exists q, mappedCount t = VNum (NFin q))
       /\ (isFinite (opt_get r_mappedCount result) = true ->
           mappedCount t = opt_get r_mappedCount result)
       /\ (isFinite (opt_get r_mappedCount result) = false ->
           mappedCount t = num 0)
       /\ (exists q, totalFields t = VNum (NFin q))
       /\ (isFinite (opt_get r_totalFields result) = true ->
           totalFields t = opt_get r_totalFields result)
       /\ (isFinite (opt_get r_totalFields result) = false ->
           totalFields t = num 0)
       /\ (fieldsMapped t <> VStr "yes" -> locatedSource t = VNull)
       /\ (fieldsMapped t = VStr "yes" ->
           locatedSource t = Js.or (opt_get r_locatedSource result) VNull)
       /\ (truthy (opt_get r_message result) = true ->
           message t = opt_get r_message result)
       /\ (truthy (opt_get r_message result) = false -> message t = VNull))
  /\ (forall ctx rkey va,
        aNeedsB (normalizeTierResult va) = false ->
        step_afterA jobId ctx i rkey (Returned va) st
        = (on_job jobId
             (fun job => advance i (normalizeTierResult va) job (timers st)) st,
           []))
  /\ (forall resA vb,
        step_afterB jobId i resA (Returned vb) st
        = (on_job jobId
             (fun job =>
                advance i (Some (merge_results resA (normalizeTierResult vb)))
                  job (timers st)) st,
           []))
  /\ (forall va a,
        normalizeTierResult va = Some a ->
        (nullish (get va "fieldsMapped") = true ->
         r_fieldsMapped a = normalize_axis (get va "located"))
        /\ (nullish (get va "attributesMapped") = true ->
            r_attributesMapped a = normalize_axis (get va "mapped"))
        /\ truthy (r_fieldsMapped a) = true
        /\ truthy (r_attributesMapped a) = true
        /\ (exists q, r_mappedCount a = VNum (NFin q))
        /\ (isFinite (get va "mappedCount") = true ->
            r_mappedCount a = get va "mappedCount")
        /\ (isFinite (get va "mappedCount") = false -> r_mappedCount a = num 0)
        /\ (exists q, r_totalFields a = VNum (NFin q))
        /\ (isFinite (get va "totalFields") = true ->
            r_totalFields a = get va "totalFields")
        /\ (isFinite (get va "totalFields") = false -> r_totalFields a = num 0)
        /\ r_message a = Js.or (get va "message") VNull).
Proof.
  intros Hjob Hr. split; [|split; [|split]].
  - intros result.
    destruct (advance_writes st jobId i job r result Hjob Hr)
      as (job' & Hs & _ & Hi & _).
    exists job', (apply_result result r). split; [done|]. split; [done|].
    apply apply_result_well_formed.
  - intros ctx rkey va Hneed. unfold step_afterA. by rewrite Hneed.
  - done.
  - intros va a Ha. pose proof (normalized_axes_truthy _ _ Ha) as [H1 H2].
    unfold normalizeTierResult in Ha.
    destruct (negb (truthy va)); [done|]. injection Ha as <-. simpl.
    repeat split; try done; try apply finite_or_zero.
    + unfold coalesce. by intros ->.
    + unfold coalesce. by intros ->.
    + by intros ->.
    + by intros ->.
    + by intros ->.
    + by intros ->.
Qed.

Lemma step_writes_well_formed_task_witness :
  exists job' t,
    store (on_job "job1"
             (fun job =>
                advance 0 (Some (merge_results (normalizeTierResult maybe_fields)
                                   (normalizeTierResult both_yes)))
                  job (timers started_state))
             started_state) !! "job1" = Some job'
    /\ reports job' !! 0 = Some t
    /\ reportKey t = "soi"
    /\ decided (fieldsMapped t) /\ decided (attributesMapped t).
Proof.
  destruct (step_writes_well_formed_task started_state "job1" 0 _ (seed "soi")
              started_job eq_refl)
    as [H _].
  destruct (H (Some (merge_results (normalizeTierResult maybe_fields)
                       (normalizeTierResult both_yes))))
    as (job' & t & Hs & Ht & Hk & Hf & Ha & _).
  by exists job', t.
Defined.

(** C10, as stated, fails: Tier A returns 'yes' on both axes with
    [mappedCount: -1] and [message: 42]; the step writes the task with the
    negative count and the number as message. *)
Lemma step_keeps_negative_count_and_numeric_message :
  exists job' t,
    store (fire (Settle 0 (Returned odd_result)) (fire (Tick 0) started_state))
      !! "job1" = Some job'
    /\ reports job' !! 0 = Some t
    /\ (exists q, mappedCount t = VNum (NFin q) /\ (q < 0)%Q)
    /\ message t = num 42
    /\ message t <> VNull
    /\ (forall s, message t <> VStr s).
Proof.
  eexists _, _. split; [vm_compute; reflexivity|]. split; [reflexivity|].
  simpl. repeat split; try done.
  exists (inject_Z (-1)). by split.
Qed.

(** * Further properties of the orchestrator *)

(** ** Bookkeeping *)

(** X1. In every state of a run, also while steps overlap,
    [progress.done] is the cursor capped by [progress.total], which is the
    number of reports and never changes; so [progress.done] never passes
    [progress.total], and while the job is running the cursor is below the
    number of reports and [progress.done] is the cursor itself. *)
Theorem progress_follows_cursor st id job :
  reachable st ->
  store st !! id = Some job ->
  done (progress job) = Nat.min (_cursor job) (total (progress job))
  /\ done (progress job) <= total (progress job)
  /\ total (progress job) = length (reports job)
  /\ (overall job = running ->
      _cursor job < length (reports job) /\ done (progress job) = _cursor job).
Proof.
  intros Hreach Hjob.
  pose proof (inv_jobs _ (reachable_inv _ Hreach) _ _ Hjob) as Hj.
  pose proof (inv_done _ Hj) as Hd. pose proof (inv_total _ Hj) as Ht.
  split; [done|]. split; [lia|]. split; [done|].
  intros Hov. pose proof (inv_running _ Hj Hov). lia.
Qed.

Lemma progress_follows_cursor_witness :
  exists job,
    store ticked_state !! "job1" = Some job
    /\ done (progress job) = Nat.min (_cursor job) (total (progress job))
    /\ done (progress job) = 1
    /\ total (progress job) = length (reports job).
Proof.
  eexists. split; [apply ticked_job|].
  destruct (progress_follows_cursor ticked_state "job1" _
              reachable_ticked ticked_job) as (H1 & H2 & H3 & _).
  by repeat split.
Defined.

Lemma decided_not_pending v : decided v -> is_str v "pending" = false.
Proof. by intros [-> | ->]. Qed.

(** Counting the decided tasks of a list that is undecided from an index
    on. *)
Lemma count_decided_below (l : list ReportTask) c :
  (forall i r, c <= i -> l !! i = Some r -> is_decided r = false) ->
  length (List.filter is_decided l) <= Nat.min c (length l).
Proof.
  revert c. induction l as [|x l IH]; intros c Hhi; simpl; [lia|].
  destruct c as [|c].
  - rewrite (Hhi 0 x) by (done || lia).
    specialize (IH 0). simpl in IH. apply IH.
    intros i r _ Hr. apply (Hhi (S i)); [lia|done].
  - assert (Hrest : length (List.filter is_decided l) <= Nat.min c (length l)).
    { apply IH. intros i r Hi Hr. apply (Hhi (S i)); [lia|done]. }
    destruct (is_decided x); simpl; lia.
Qed.

(** X2. In every state of a run, also while steps overlap, the tasks at
    and after the cursor are exactly as [ensureJob] seeded them (both axes
    'pending', no source, counts 0, no message); every task is either as
    seeded or has both axes in {yes, no}; and [progress.done] is at least
    the number of tasks on which neither axis is 'pending'. *)
Theorem done_counts_decided st id job :
  reachable st ->
  store st !! id = Some job ->
  (forall i r, _cursor job <= i -> reports job !! i = Some r ->
               r = seed (reportKey r))
  /\ (forall i r, reports job !! i = Some r ->
                  r = seed (reportKey r) \/ terminal r)
  /\ length (List.filter is_decided (reports job)) <= done (progress job).
Proof.
  intros Hreach Hjob.
  pose proof (inv_jobs _ (reachable_inv _ Hreach) _ _ Hjob) as Hj.
  split; [apply Hj|]. split; [apply Hj|].
  rewrite (inv_done _ Hj), (inv_total _ Hj). apply count_decided_below.
  intros i r Hi Hr. by rewrite (inv_tail _ Hj i r Hi Hr).
Qed.

Lemma done_counts_decided_witness :
  exists job,
    store ticked_state !! "job1" = Some job
    /\ reports job !! 1 = Some (seed "pands")
    /\ length (List.filter is_decided (reports job)) <= done (progress job).
Proof.
  eexists. split; [apply ticked_job|]. split; [reflexivity|].
  apply (done_counts_decided ticked_state "job1" _ reachable_ticked ticked_job).
Defined.

(** X3. In every state of a run, a job is running exactly when it holds a
    timer; the timer it holds is a live interval of that job, and no other
    live interval belongs to the job: one scheduling loop while running,
    none once the job is [success] or [failed]. *)
Theorem timer_iff_running st id job :
  reachable st ->
  store st !! id = Some job ->
  (overall job = running <-> _timer job <> None)
  /\ (forall t, _timer job = Some t ->
        exists iv, timers st !! t = Some iv /\ iv_jobId iv = id)
  /\ (forall t iv, timers st !! t = Some iv -> iv_jobId iv = id ->
        _timer job = Some t).
Proof.
  intros Hreach Hjob.
  pose proof (reachable_inv _ Hreach) as Hst.
  pose proof (inv_jobs _ Hst _ _ Hjob) as Hj.
  split; [|split].
  - split; [apply (inv_held _ Hj)|apply (inv_timer _ Hj)].
  - intros t. by apply (inv_live _ Hst).
  - intros t iv Hiv Hid.
    destruct (inv_timers _ Hst t iv Hiv) as (j & Hj' & Hjt). congruence.
Qed.

Lemma timer_iff_running_witness :
  exists job,
    store started_state !! "job1" = Some job
    /\ (overall job = running <-> _timer job <> None)
    /\ (forall t, _timer job = Some t ->
          exists iv, timers started_state !! t = Some iv /\ iv_jobId iv = "job1").
Proof.
  eexists. split; [apply started_job|].
  destruct (timer_iff_running started_state "job1" _
              reachable_started started_job) as (H1 & H2 & _).
  by split.
Defined.

(** X4. In every state of a run, [start] on an id that already has a job
    never throws and changes nothing, whatever the payload and whatever the
    job's state: it answers [empty: true] when the job has no report and
    [already: true] otherwise, and every [status] is as before the call. *)
Theorem start_existing_noop st now jobId payload job :
  reachable st ->
  store st !! jobId = Some job ->
  fst (start now jobId payload st) = st
  /\ snd (start now jobId payload st)
     = (if (length (reports job) =? 0)%nat
        then StartReturned jobId true true false
        else StartReturned jobId true false true)
  /\ forall id, status id (fst (start now jobId payload st)) = status id st.
Proof.
  intros Hreach Hjob.
  rewrite (start_on_job st now jobId payload job (reachable_inv _ Hreach) Hjob).
  by repeat split.
Qed.

Lemma start_existing_noop_witness :
  fst (start 9 "job1" (keys_payload KNull) ticked_state) = ticked_state
  /\ snd (start 9 "job1" (keys_payload KNull) ticked_state)
     = StartReturned "job1" true false true.
Proof.
  destruct (start_existing_noop ticked_state 9 "job1" (keys_payload KNull) _
              reachable_ticked ticked_job) as (H1 & H2 & _).
  by split.
Defined.

(** X5. [start] on a non-empty id without a job and with at least one
    report key returns [{started: true}] with neither flag and leaves a
    running job with the cursor at 0, progress 0 of the number of keys, all
    four outcome flags false, and exactly one new interval: the next timer
    handle, held by the job and bound to that id with the context taken from
    the payload; the intervals that were live stay. *)
Theorem start_fresh_schedules st now jobId payload k ks :
  jobId <> "" ->
  store st !! jobId = None ->
  keys_of (reportKeys payload) = k :: ks ->
  snd (start now jobId payload st) = StartReturned jobId true false false
  /\ (exists job,
        store (fst (start now jobId payload st)) !! jobId = Some job
        /\ overall job = running
        /\ _cursor job = 0
        /\ progress job = mkProgress 0 (S (length ks))
        /\ outcome job = mkOutcome false false false false
        /\ _timer job = Some (next_timer st))
  /\ timers (fst (start now jobId payload st))
     = <[next_timer st := mkInterval jobId (sched_ctx payload)]> (timers st)
  /\ next_timer (fst (start now jobId payload st)) = S (next_timer st).
Proof.
  intros Hid Hjob Hkeys.
  rewrite (start_on_fresh_id st now jobId payload k ks Hid Hjob Hkeys). simpl.
  split; [done|]. split; [|done].
  eexists. split; [apply lookup_insert_eq|]. by repeat split.
Qed.

Lemma start_fresh_schedules_witness :
  snd (start 0 "job1" (keys_payload (KArray ["soi"; "pands"])) init_state)
    = StartReturned "job1" true false false
  /\ timers started_state
     = <[0 := mkInterval "job1"
                (sched_ctx (keys_payload (KArray ["soi"; "pands"])))]> ∅
  /\ next_timer started_state = 1.
Proof.
  destruct (start_fresh_schedules init_state 0 "job1"
              (keys_payload (KArray ["soi"; "pands"])) "soi" ["pands"])
    as (H1 & _ & H3 & H4); [discriminate|reflexivity|reflexivity|].
  by repeat split.
Defined.

(** ** Jobs side by side *)

(** X6. In every state of a run, whatever happens to one job (a call of
    [start] for its id, a tick of its interval, the resumption of one of its
    suspended steps, whatever the tier returned or threw) and an upload
    leave every other job as it is: its record in the store, hence its
    [status], and its live interval. *)
Theorem other_jobs_untouched st e id :
  reachable st ->
  event_job e st <> Some id ->
  store (fire e st) !! id = store st !! id
  /\ status id (fire e st) = status id st
  /\ forall t iv, timers st !! t = Some iv -> iv_jobId iv = id ->
       timers (fire e st) !! t = Some iv.
Proof.
  intros Hreach Hne.
  pose proof (fire_store_other e st id Hne) as Hs.
  split; [done|]. split.
  - unfold status. by rewrite Hs.
  - intros t iv Hiv Hid.
    by apply (fire_timers_other e st id t iv (reachable_inv _ Hreach)).
Qed.

Lemma other_jobs_untouched_witness :
  status "job1" (fst (start 3 "job2" (keys_payload (KArray ["soi"])) started_state))
  = status "job1" started_state.
Proof.
  destruct (other_jobs_untouched started_state
              (Start 3 "job2" (keys_payload (KArray ["soi"]))) "job1"
              reachable_started)
    as (_ & H & _); [discriminate|].
  exact H.
Defined.

(** ** Along a run *)

Lemma job_advances_refl job : job_advances job job.
Proof. by repeat split. Qed.

Lemma job_advances_trans j1 j2 j3 :
  job_advances j1 j2 -> job_advances j2 j3 -> job_advances j1 j3.
Proof.
  intros (Ha1 & Hk1 & Ht1 & Hc1) (Ha2 & Hk2 & Ht2 & Hc2).
  repeat split; try congruence; lia.
Qed.

Lemma advance_advances i result job tm :
  job_advances job (fst (advance i result job tm)).
Proof.
  pose proof (advance_fields i result job tm) as (H1 & H2 & H3 & _ & H5).
  unfold job_advances. rewrite H1, H2, H3, H5, alter_keys. simpl.
  repeat split; try done. lia.
Qed.

Lemma fail_job_advances e job tm :
  job_advances job (fst (fail_job e job tm)).
Proof.
  pose proof (fail_job_fields e job tm) as (H1 & H2 & H3 & _ & H5 & _).
  unfold job_advances. by rewrite H1, H2, H3, H5.
Qed.

Lemma on_job_advances jobId f st id job :
  (forall j, job_advances j (fst (f j))) ->
  store st !! id = Some job ->
  exists job', store (on_job jobId f st) !! id = Some job' /\ job_advances job job'.
Proof.
  intros Hf Hjob. destruct (decide (id = jobId)) as [->|Hne].
  - unfold on_job. rewrite Hjob. simpl. rewrite lookup_insert_eq.
    eexists. split; [done|apply Hf].
  - exists job. split; [by rewrite on_job_store_other|apply job_advances_refl].
Qed.

(** What an event does to a job record. *)
Lemma fire_job_advances e st id job :
  reachable st -> store st !! id = Some job ->
  exists job', store (fire e st) !! id = Some job' /\ job_advances job job'.
Proof.
  intros Hreach Hjob. pose proof (reachable_inv _ Hreach) as Hst.
  destruct e as [now jobId payload|a fs|t|k c]; simpl.
  - exists job. split; [|apply job_advances_refl].
    destruct (decide (id = jobId)) as [->|Hne].
    + by rewrite (start_on_job st now jobId payload job).
    + by rewrite start_store_other.
  - exists job. split; [done|apply job_advances_refl].
  - destruct (timers st !! t) as [iv|];
      [|exists job; split; [done|apply job_advances_refl]].
    destruct (decide (id = iv_jobId iv)) as [Heq|Hne];
      [|exists job; split;
          [by rewrite step_begin_store_other|apply job_advances_refl]].
    unfold step_begin. rewrite <- Heq, Hjob.
    destruct (overall job);
      [|exists job; split; [done|apply job_advances_refl] ..].
    destruct (reports job !! _cursor job);
      [exists job; split; [done|apply job_advances_refl]|].
    simpl. rewrite lookup_insert_eq. eexists. split; [done|].
    rewrite clearTimer_fst. by repeat split.
  - unfold settle. destruct (inflight st !! k) as [p|];
      [|exists job; split; [done|apply job_advances_refl]].
    destruct p as [jobId ctx i rkey|jobId ctx i rkey resA].
    + unfold step_afterA. destruct c as [va|e]; cbn [fst].
      * destruct (aNeedsB _); cbn [fst];
          [exists job; split; [done|apply job_advances_refl]|].
        apply on_job_advances; [|done]. intros j. apply advance_advances.
      * apply on_job_advances; [|done]. intros j. apply fail_job_advances.
    + unfold step_afterB. destruct c as [vb|e]; cbn [fst].
      * apply on_job_advances; [|done]. intros j. apply advance_advances.
      * apply on_job_advances; [|done]. intros j. apply fail_job_advances.
Qed.

Lemma evolves_reachable st st' : reachable st -> evolves st st' -> reachable st'.
Proof.
  intros Hreach. induction 1; [done|by apply reach_fire].
Qed.

(** A job of a state is still there later in the run, further along. *)
Lemma evolves_job st st' id job :
  reachable st -> evolves st st' -> store st !! id = Some job ->
  exists job', store st' !! id = Some job' /\ job_advances job job'.
Proof.
  intros Hreach Hev Hjob.
  induction Hev as [|st' e Hev IH].
  - exists job. split; [done|apply job_advances_refl].
  - destruct IH as (job1 & Hj1 & Ha1).
    destruct (fire_job_advances e st' id job1
                (evolves_reachable _ _ Hreach Hev) Hj1) as (job2 & Hj2 & Ha2).
    exists job2. split; [done|by eapply job_advances_trans].
Qed.

Lemma evolves_trans st1 st2 st3 :
  evolves st1 st2 -> evolves st2 st3 -> evolves st1 st3.
Proof.
  intros H12 H23. induction H23; [done|by apply ev_fire].
Qed.

Lemma settled_step_evolves tierA tierB t iv st :
  timers st !! t = Some iv ->
  evolves st (fst (settled_step tierA tierB (iv_jobId iv) (iv_ctx iv) st)).
Proof.
  intros Hiv. unfold settled_step.
  assert (H1 : evolves st (fst (step_begin (iv_jobId iv) (iv_ctx iv) st))).
  { pose proof (ev_fire st st (Tick t) (ev_refl st)) as H. simpl in H.
    by rewrite Hiv in H. }
  destruct (step_begin (iv_jobId iv) (iv_ctx iv) st) as [st1 calls1].
  simpl in H1.
  destruct calls1 as [|[ca|cb] [|c2 rest]]; try done.
  pose proof (ev_fire st st1 (Settle (length (inflight st)) (tierA ca)) H1) as H2.
  simpl in H2.
  destruct (settle (length (inflight st)) (tierA ca) st1) as [st2 calls2].
  simpl in H2.
  destruct calls2 as [|[ca'|cb] [|c3 rest]]; try done.
  cbn [fst].
  apply (ev_fire st st2 (Settle (length (inflight st)) (tierB cb)) H2).
Qed.

Lemma started_evolves_ticked : evolves started_state ticked_state.
Proof.
  exact (settled_step_evolves TierA.exported_locateAndMap
           TierB.exported_locateAndMap 0 _ started_state started_timer).
Qed.

(** X7. Progress is monotone along a run: between two [status] calls on the
    same id (the first in a state of a run, the second later in it),
    [progress.done] does not decrease, never exceeds [progress.total], and
    [progress.total] does not change; a job that was there is still
    there. *)
Theorem progress_monotone st st' id snap :
  reachable st ->
  evolves st st' ->
  status id st = Some snap ->
  exists snap',
    status id st' = Some snap'
    /\ done (s_progress snap) <= done (s_progress snap')
    /\ done (s_progress snap') <= total (s_progress snap')
    /\ total (s_progress snap') = total (s_progress snap).
Proof.
  intros Hreach Hev. unfold status.
  destruct (store st !! id) as [job|] eqn:Hjob; [|done]. intros [= <-].
  destruct (evolves_job _ _ _ _ Hreach Hev Hjob)
    as (job' & Hjob' & _ & _ & Htot & Hcur).
  rewrite Hjob'. eexists. split; [done|]. simpl.
  pose proof (evolves_reachable _ _ Hreach Hev) as Hreach'.
  pose proof (inv_done _ (inv_jobs _ (reachable_inv _ Hreach') _ _ Hjob')).
  pose proof (inv_done _ (inv_jobs _ (reachable_inv _ Hreach) _ _ Hjob)).
  lia.
Qed.

Lemma progress_monotone_witness :
  exists snap snap',
    status "job1" started_state = Some snap
    /\ status "job1" ticked_state = Some snap'
    /\ done (s_progress snap) <= done (s_progress snap')
    /\ done (s_progress snap') <= total (s_progress snap').
Proof.
  destruct (progress_monotone started_state ticked_state "job1" _
              reachable_started started_evolves_ticked eq_refl)
    as (snap' & Hs & H1 & H2 & _).
  eexists _, snap'. by repeat split.
Defined.

(** X8. A job keeps its identity along a run, also while steps overlap:
    it stays in the store with its [startedAt], the keys of its reports in
    order (no task is added, removed or moved) and its [progress.total],
    and its cursor never moves back. *)
Theorem job_identity_fixed st st' id job :
  reachable st ->
  evolves st st' ->
  store st !! id = Some job ->
  exists job',
    store st' !! id = Some job'
    /\ startedAt job' = startedAt job
    /\ map reportKey (reports job') = map reportKey (reports job)
    /\ length (reports job') = length (reports job)
    /\ total (progress job') = total (progress job)
    /\ _cursor job <= _cursor job'.
Proof.
  intros Hreach Hev Hjob.
  destruct (evolves_job _ _ _ _ Hreach Hev Hjob)
    as (job' & Hjob' & Hat & Hkeys & Htot & Hcur).
  exists job'. repeat split; try done.
  by rewrite <- (length_map reportKey), Hkeys, length_map.
Qed.

Lemma job_identity_fixed_witness :
  exists job job',
    store started_state !! "job1" = Some job
    /\ store ticked_state !! "job1" = Some job'
    /\ map reportKey (reports job') = map reportKey (reports job)
    /\ _cursor job <= _cursor job'.
Proof.
  destruct (job_identity_fixed started_state ticked_state "job1" _
              reachable_started started_evolves_ticked started_job)
    as (job' & Hs & _ & Hk & _ & _ & Hc).
  eexists _, job'. split; [apply started_job|]. by repeat split.
Defined.

Lemma start_inflight now jobId payload st :
  inflight (fst (start now jobId payload st)) = inflight st.
Proof.
  unfold start. destruct (String.eqb jobId ""); [done|].
  set (keys := match reportKeys payload with KUndefined => KArray [] | k => k end).
  assert (He : inflight (fst (ensureJob now jobId keys st)) = inflight st).
  { unfold ensureJob. by destruct (store st !! jobId). }
  destruct (ensureJob now jobId keys st) as [st1 job]. simpl in He.
  destruct (total (progress job) =? 0)%nat; [done|].
  destruct (overall job); [|done|done].
  destruct (_timer job); [done|].
  assert (Hs : inflight (schedule jobId (sched_ctx payload) st1) = inflight st).
  { unfold schedule. destruct (store st1 !! jobId) as [j|]; [|done].
    by destruct (clearTimer j (timers st1)). }
  by destruct keys.
Qed.

Lemma on_job_inflight jobId f st : inflight (on_job jobId f st) = inflight st.
Proof. unfold on_job. by destruct (store st !! jobId). Qed.

(** A job that is not running and has no step in flight: no event changes
    its record or puts a step of it in flight. *)
Lemma settled_job_stays e st id job :
  reachable st ->
  store st !! id = Some job ->
  overall job <> running ->
  Forall (fun p => pending_job p <> id) (inflight st) ->
  store (fire e st) !! id = Some job
  /\ Forall (fun p => pending_job p <> id) (inflight (fire e st)).
Proof.
  intros Hreach Hjob Hov Hnone. pose proof (reachable_inv _ Hreach) as Hst.
  destruct e as [now jobId payload|a fs|t|k c]; simpl.
  - rewrite start_inflight. split; [|done].
    destruct (decide (id = jobId)) as [->|Hne].
    + by rewrite (start_on_job st now jobId payload job).
    + by rewrite start_store_other.
  - done.
  - destruct (timers st !! t) as [iv|] eqn:Hiv; [|done].
    assert (Hne : iv_jobId iv <> id).
    { intros Heq. destruct (inv_timers _ Hst t iv Hiv) as (j & Hj & Hjt).
      rewrite Heq, Hjob in Hj. injection Hj as <-.
      apply Hov, (inv_timer _ (inv_jobs _ Hst _ _ Hjob)). congruence. }
    split; [by rewrite step_begin_store_other|].
    unfold step_begin.
    destruct (store st !! iv_jobId iv) as [j|]; [|done].
    destruct (overall j); [|done|done].
    destruct (reports j !! _cursor j); [|done]. simpl.
    apply Forall_app. split; [done|]. by constructor.
  - destruct (inflight st !! k) as [p|] eqn:Hp;
      [|unfold settle; by rewrite Hp].
    pose proof (proj1 (Forall_lookup _ _) Hnone k p Hp) as Hne.
    split; [by rewrite (settle_store_other k c st p)|].
    unfold settle. rewrite Hp.
    assert (Hdel : Forall (fun p => pending_job p <> id) (delete k (inflight st)))
      by by apply Forall_delete.
    destruct p as [jobId ctx i rkey|jobId ctx i rkey resA]; simpl in Hne.
    + unfold step_afterA. destruct c as [va|e]; cbn [fst].
      * destruct (aNeedsB _); cbn [fst].
        -- simpl. apply Forall_app. split; [done|]. by constructor.
        -- by rewrite on_job_inflight.
      * by rewrite on_job_inflight.
    + unfold step_afterB. destruct c as [vb|e]; cbn [fst];
        by rewrite on_job_inflight.
Qed.

(** X9. A terminal state is final once the steps of the job have all
    ended: when a job is [success] or [failed] and none of its steps is
    still suspended at an [await], no later event changes its record, so
    every later [status] of it is the same snapshot, and no step of it is
    ever in flight again. *)
Theorem terminal_job_is_final st st' id job :
  reachable st ->
  evolves st st' ->
  store st !! id = Some job ->
  overall job <> running ->
  Forall (fun p => pending_job p <> id) (inflight st) ->
  store st' !! id = Some job
  /\ status id st' = status id st
  /\ Forall (fun p => pending_job p <> id) (inflight st').
Proof.
  intros Hreach Hev Hjob Hov Hnone.
  assert (H : store st' !! id = Some job
              /\ Forall (fun p => pending_job p <> id) (inflight st')).
  { induction Hev as [|st' e Hev IH]; [done|].
    destruct IH as [Hj Hn].
    apply settled_job_stays; try done. by apply (evolves_reachable st). }
  destruct H as [Hj Hn]. split; [done|]. split; [|done].
  unfold status. by rewrite Hjob, Hj.
Qed.

Lemma empty_job :
  store empty_job_state !! "job0"
  = Some (mkJob 0 success (mkProgress 0 0) []
            (mkOutcome false false false false) None 0 None).
Proof. vm_compute. reflexivity. Qed.

Lemma terminal_job_is_final_witness :
  status "job0" (fire (Start 5 "job0" (keys_payload (KArray ["soi"]))) empty_job_state)
  = status "job0" empty_job_state.
Proof.
  refine (proj1 (proj2 (terminal_job_is_final empty_job_state _ "job0" _
                   (reach_fire _ (Start 0 "job0" (keys_payload KNull)) reach_init)
                   (ev_fire _ _ (Start 5 "job0" (keys_payload (KArray ["soi"])))
                      (ev_refl _))
                   empty_job _ _))).
  - discriminate.
  - constructor.
Defined.

(** ** Running a job to its end *)

Lemma printable_or a b :
  template_error a = None -> template_error b = None ->
  template_error (Js.or a b) = None.
Proof. intros Ha Hb. unfold Js.or. by destruct (truthy a). Qed.

Lemma normalize_printable va :
  template_error (get va "locatedSource") = None ->
  template_error (opt_get r_locatedSource (normalizeTierResult va)) = None.
Proof.
  intros Hp. unfold normalizeTierResult. destruct (negb (truthy va)); [done|].
  simpl. by apply printable_or.
Qed.

(** The 'applied' log line goes through when the source of the merged
    result can be printed. *)
Lemma applied_log_printable result r :
  template_error (opt_get r_locatedSource result) = None ->
  applied_log (apply_result result r) = None.
Proof.
  intros Hp. unfold applied_log. cbn [apply_result locatedSource].
  destruct (is_str (terminalize (opt_get r_fieldsMapped result)) "yes"); [|done].
  rewrite (printable_or _ VNull Hp eq_refl). by destruct (truthy _).
Qed.

Lemma tiers_return tierA tierB files jobId rkey ctx :
  (forall c, exists v, tierA c = Returned v
                       /\ template_error (get v "locatedSource") = None) ->
  (forall c, exists v, tierB c = Returned v
                       /\ template_error (get v "locatedSource") = None) ->
  exists result calls,
    run_tiers tierA tierB files jobId rkey ctx = (inr result, calls)
    /\ forall r, applied_log (apply_result result r) = None.
Proof.
  intros HA HB. unfold run_tiers.
  destruct (HA (tierA_ctx files jobId rkey ctx)) as (va & -> & Hpa).
  apply normalize_printable in Hpa.
  destruct (aNeedsB (normalizeTierResult va)).
  - destruct (HB (tierB_ctx files jobId rkey ctx)) as (vb & -> & Hpb).
    apply normalize_printable in Hpb.
    eexists _, _. split; [done|]. intros r. apply applied_log_printable.
    simpl. apply printable_or; [|done]. by apply printable_or.
  - eexists _, _. split; [done|]. intros r. by apply applied_log_printable.
Qed.

(** The writes of a step whose log line goes through. *)
Lemma advance_quiet i result job tm :
  (forall r, applied_log (apply_result result r) = None) ->
  advance i result job tm
  = let job1 :=
      mkJob (startedAt job) (overall job)
        (mkProgress (Nat.min (S (_cursor job)) (total (progress job)))
                    (total (progress job)))
        (alter (apply_result result) i (reports job))
        (computeOutcome (alter (apply_result result) i (reports job)))
        (_timer job) (S (_cursor job)) (job_message job) in
    if (length (reports job) <=? S (_cursor job))%nat
    then clearTimer (set_overall success job1) tm
    else (job1, tm).
Proof.
  intros Hlog. unfold advance.
  rewrite list_lookup_alter_eq, length_alter.
  destruct (reports job !! i) as [r|]; simpl; [by rewrite Hlog|done].
Qed.

Lemma settled_step_arrays tierA tierB jobId ctx st :
  arrays (fst (settled_step tierA tierB jobId ctx st)) = arrays st.
Proof.
  unfold settled_step, step_begin.
  destruct (store st !! jobId) as [job|]; [|done].
  destruct (overall job); [|done|done].
  destruct (reports job !! _cursor job) as [r|]; [|done].
  unfold settle, suspend. cbn [inflight set_inflight].
  rewrite lookup_last.
  unfold step_afterA, on_job, suspend. cbn [store set_inflight].
  destruct (tierA _) as [va|e].
  - destruct (aNeedsB (normalizeTierResult va)).
    + unfold settle. cbn [inflight set_inflight fst].
      rewrite delete_last, lookup_last.
      unfold step_afterB, on_job. cbn [store set_inflight].
      destruct (tierB _); by destruct (store st !! jobId).
    + by destruct (store st !! jobId).
  - by destruct (store st !! jobId).
Qed.

(** The job after [k] uninterrupted ticks on which the tiers answer and
    the log line goes through: the cursor has moved by [k], the tasks it
    passed hold the terminalized results, the others are untouched, and the
    job is [success] with its timer cleared exactly when the cursor has
    reached the end. *)
Lemma settled_ticks_progress tierA tierB jobId ctx st job :
  (forall files rkey, exists result calls,
     run_tiers tierA tierB files jobId rkey ctx = (inr result, calls)
     /\ forall r, applied_log (apply_result result r) = None) ->
  store st !! jobId = Some job ->
  overall job = running ->
  _cursor job < length (reports job) ->
  forall k, _cursor job + k <= length (reports job) ->
  exists job',
    store (settled_ticks tierA tierB jobId ctx k st) !! jobId = Some job'
    /\ _cursor job' = _cursor job + k
    /\ length (reports job') = length (reports job)
    /\ overall job'
       = (if (length (reports job) <=? _cursor job + k)%nat then success else running)
    /\ (length (reports job) <= _cursor job + k -> _timer job' = None)
    /\ (0 < k -> outcome job' = computeOutcome (reports job'))
    /\ (forall i, i < _cursor job \/ _cursor job + k <= i ->
          reports job' !! i = reports job !! i)
    /\ (forall i r, _cursor job <= i < _cursor job + k ->
          reports job !! i = Some r ->
          exists result calls,
            run_tiers tierA tierB (current_files st ctx) jobId (reportKey r) ctx
            = (inr result, calls)
            /\ reports job' !! i = Some (apply_result result r))
    /\ (_cursor job + k < length (reports job) ->
        timers (settled_ticks tierA tierB jobId ctx k st) = timers st)
    /\ arrays (settled_ticks tierA tierB jobId ctx k st) = arrays st.
Proof.
  intros Hret Hjob Hov Hlt k. induction k as [|k IH]; intros Hk.
  - exists job. simpl. rewrite Nat.add_0_r.
    assert (Hle : (length (reports job) <=? _cursor job)%nat = false)
      by (apply Nat.leb_gt; lia).
    rewrite Hle. repeat split; try done; try lia.
  - destruct IH
      as (job1 & Hj1 & Hc1 & Hl1 & Ho1 & _ & _ & Hsame & Hdone & Htm & Harr);
      [lia|].
    assert (Hle : (length (reports job) <=? _cursor job + k)%nat = false)
      by (apply Nat.leb_gt; lia).
    rewrite Hle in Ho1.
    destruct (lookup_lt_is_Some_2 (reports job) (_cursor job + k)) as [r Hr]; [lia|].
    assert (Hr1 : reports job1 !! _cursor job1 = Some r).
    { rewrite Hc1, Hsame by lia. done. }
    change (settled_ticks tierA tierB jobId ctx (S k) st)
      with (fst (settled_step tierA tierB jobId ctx
                   (settled_ticks tierA tierB jobId ctx k st))).
    set (stk := settled_ticks tierA tierB jobId ctx k st) in *.
    assert (Hfiles : current_files stk ctx = current_files st ctx).
    { unfold current_files. by rewrite Harr. }
    destruct (Hret (current_files st ctx) (reportKey r))
      as (result & calls & Hrun & Hlog).
    pose proof (settled_step_arrays tierA tierB jobId ctx stk) as Harr'.
    rewrite (settled_step_running tierA tierB jobId ctx stk job1 r Hj1 Ho1 Hr1)
      in Harr' |- *.
    rewrite Hfiles, Hrun in Harr' |- *. cbn [fst] in Harr' |- *.
    unfold commit in Harr' |- *. cbn [store timers arrays] in Harr' |- *.
    rewrite lookup_insert_eq, (advance_quiet _ _ _ _ Hlog). cbv zeta.
    rewrite Hl1, Hc1.
    replace (_cursor job + S k) with (S (_cursor job + k)) by lia.
    assert (Hwritten : forall i r0, _cursor job <= i < S (_cursor job + k) ->
              reports job !! i = Some r0 ->
              exists result0 calls0,
                run_tiers tierA tierB (current_files st ctx) jobId (reportKey r0) ctx
                = (inr result0, calls0)
                /\ alter (apply_result result) (_cursor job + k) (reports job1) !! i
                   = Some (apply_result result0 r0)).
    { intros i r0 Hi Hr0. destruct (decide (i = _cursor job + k)) as [->|Hne].
      - exists result, calls. assert (r0 = r) as -> by congruence.
        split; [done|].
        rewrite list_lookup_alter_eq. rewrite <- Hc1, Hr1. done.
      - rewrite list_lookup_alter_ne by done. apply Hdone; [lia|done]. }
    assert (Hkept : forall i, i < _cursor job \/ S (_cursor job + k) <= i ->
              alter (apply_result result) (_cursor job + k) (reports job1) !! i
              = reports job !! i).
    { intros i Hi. rewrite list_lookup_alter_ne by lia. apply Hsame. lia. }
    destruct (length (reports job) <=? S (_cursor job + k))%nat eqn:Hfin.
    + rewrite clearTimer_fst. eexists. split; [done|]. simpl.
      rewrite length_alter.
      apply Nat.leb_le in Hfin. repeat split; try done. intros Hc. lia.
    + eexists. split; [done|]. simpl. rewrite length_alter.
      repeat split; try done.
      * intros Hge. apply Nat.leb_gt in Hfin. lia.
      * intros _. apply Htm. lia.
Qed.

Lemma settled_ticks_reachable tierA tierB st t iv job :
  (forall files rkey, exists result calls,
     run_tiers tierA tierB files (iv_jobId iv) rkey (iv_ctx iv) = (inr result, calls)
     /\ forall r, applied_log (apply_result result r) = None) ->
  reachable st -> timers st !! t = Some iv ->
  store st !! iv_jobId iv = Some job ->
  forall k, _cursor job + k <= length (reports job) ->
  reachable (settled_ticks tierA tierB (iv_jobId iv) (iv_ctx iv) k st).
Proof.
  intros Hret Hreach Hiv Hjob k.
  destruct (tick_finds_task _ _ _ Hreach Hiv) as (job0 & r & Hjob0 & _ & Hov & Hr).
  assert (job0 = job) as -> by congruence.
  assert (Hlt : _cursor job < length (reports job)) by by eapply lookup_lt_Some.
  induction k as [|k IH]; intros Hk; [done|].
  destruct (settled_ticks_progress tierA tierB _ _ st job Hret Hjob Hov Hlt k)
    as (_ & _ & _ & _ & _ & _ & _ & _ & _ & Htm & _); [lia|].
  change (settled_ticks tierA tierB (iv_jobId iv) (iv_ctx iv) (S k) st)
    with (fst (settled_step tierA tierB (iv_jobId iv) (iv_ctx iv)
                 (settled_ticks tierA tierB (iv_jobId iv) (iv_ctx iv) k st))).
  apply (settled_step_reachable tierA tierB t); [apply IH; lia|].
  rewrite Htm by lia. done.
Qed.

(** X10. A job whose tiers keep answering runs to its end when its steps
    do not overlap.  When an interval is live in a state of a run, its job
    is running with tasks left; if the tiers answer at once, neither throws
    and the source they give can be printed by the log line of [step], each
    of the next ticks of that interval moves the cursor by one while the
    job stays running, until the tick that processes the last task: then,
    and not before, the job is [success], its timer is cleared, [progress]
    is total/total, every task from the cursor on has been written with
    both axes in {yes, no}, and the tasks before it are as they were. *)
Theorem job_completes st t iv tierA tierB :
  reachable st ->
  timers st !! t = Some iv ->
  (forall c, exists v, tierA c = Returned v
                       /\ template_error (get v "locatedSource") = None) ->
  (forall c, exists v, tierB c = Returned v
                       /\ template_error (get v "locatedSource") = None) ->
  exists job,
    store st !! iv_jobId iv = Some job
    /\ _cursor job < length (reports job)
    /\ (forall k, _cursor job + k < length (reports job) ->
          exists job',
            store (settled_ticks tierA tierB (iv_jobId iv) (iv_ctx iv) k st)
              !! iv_jobId iv = Some job'
            /\ overall job' = running
            /\ _cursor job' = _cursor job + k)
    /\ exists job',
         store (settled_ticks tierA tierB (iv_jobId iv) (iv_ctx iv)
                  (length (reports job) - _cursor job) st)
           !! iv_jobId iv = Some job'
         /\ overall job' = success
         /\ _timer job' = None
         /\ progress job'
            = mkProgress (length (reports job)) (length (reports job))
         /\ (forall i r, _cursor job <= i -> reports job' !! i = Some r ->
               terminal r)
         /\ (forall i, i < _cursor job -> reports job' !! i = reports job !! i).
Proof.
  intros Hreach Hiv HA HB.
  destruct (tick_finds_task _ _ _ Hreach Hiv) as (job & r & Hjob & _ & Hov & Hr).
  assert (Hlt : _cursor job < length (reports job)) by by eapply lookup_lt_Some.
  assert (Hret : forall files rkey, exists result calls,
            run_tiers tierA tierB files (iv_jobId iv) rkey (iv_ctx iv)
            = (inr result, calls)
            /\ forall r, applied_log (apply_result result r) = None)
    by (intros files rkey; by apply tiers_return).
  exists job. split; [done|]. split; [done|]. split.
  - intros k Hk.
    destruct (settled_ticks_progress tierA tierB _ _ st job Hret Hjob Hov Hlt k)
      as (job' & Hj' & Hc' & _ & Ho' & _); [lia|].
    exists job'. split; [done|]. split; [|done].
    rewrite Ho'. by destruct (Nat.leb_spec (length (reports job)) (_cursor job + k));
      [lia|].
  - set (n := length (reports job) - _cursor job).
    destruct (settled_ticks_progress tierA tierB _ _ st job Hret Hjob Hov Hlt n)
      as (job' & Hj' & Hc' & Hl' & Ho' & Ht' & _ & Hsame & Hdone & _); [lia|].
    assert (Hreach' : reachable
              (settled_ticks tierA tierB (iv_jobId iv) (iv_ctx iv) n st))
      by (eapply settled_ticks_reachable; eauto; lia).
    pose proof (inv_jobs _ (reachable_inv _ Hreach') _ _ Hj') as Hinv.
    assert (Hs : overall job' = success).
    { rewrite Ho'. by destruct (Nat.leb_spec (length (reports job)) (_cursor job + n));
        [|lia]. }
    exists job'. split; [done|]. split; [done|]. split; [apply Ht'; lia|].
    split; [|split].
    + pose proof (inv_total _ Hinv). pose proof (inv_done _ Hinv).
      destruct (progress job'); simpl in *. f_equal; lia.
    + intros i r1 Hi Hr1.
      assert (Hi' : i < length (reports job))
        by (rewrite <- Hl'; by eapply lookup_lt_Some).
      destruct (lookup_lt_is_Some_2 (reports job) i Hi') as [r0 Hr0].
      destruct (Hdone i r0) as (result & calls & _ & Hw); [lia|done|].
      assert (r1 = apply_result result r0) as -> by congruence.
      apply apply_result_terminal.
    + intros i Hi. apply Hsame. by left.
Qed.

Lemma job_completes_witness :
  exists job',
    store (settled_ticks TierA.exported_locateAndMap TierB.exported_locateAndMap
             "job1" (sched_ctx (keys_payload (KArray ["soi"; "pands"]))) 2
             started_state)
      !! "job1" = Some job'
    /\ overall job' = success
    /\ progress job' = mkProgress 2 2.
Proof.
  destruct (job_completes started_state 0 _
              TierA.exported_locateAndMap TierB.exported_locateAndMap
              reachable_started started_timer)
    as (job & Hjob & _ & _ & job' & Hj' & Hs & _ & Hp & _).
  - intros c. by eexists.
  - intros c. by eexists.
  - simpl in Hjob. rewrite started_job in Hjob. injection Hjob as <-.
    exists job'. by repeat split.
Defined.

Lemma run_tiers_exported files jobId rkey ctx :
  run_tiers TierA.exported_locateAndMap TierB.exported_locateAndMap
    files jobId rkey ctx
  = (inr (Some (mkResult (VStr "no") (VStr "no") VNull (num 0) (num 0) VNull)),
     [CallA (tierA_ctx files jobId rkey ctx)]).
Proof. reflexivity. Qed.

Lemma computeOutcome_with_no (l : list ReportTask) i k :
  l !! i = Some (no_task k) ->
  computeOutcome l = mkOutcome true true false false.
Proof.
  intros Hi. unfold computeOutcome.
  assert (Hin : In (no_task k) l).
  { apply list_elem_of_In, list_elem_of_lookup. eauto. }
  assert (Hex : forall f : ReportTask -> bool, f (no_task k) = true ->
                                               existsb f l = true).
  { intros f Hf. apply existsb_exists. eauto. }
  assert (Hall : forall f : ReportTask -> bool, f (no_task k) = false ->
                                                forallb f l = false).
  { intros f Hf. destruct (forallb f l) eqn:E; [|done].
    rewrite forallb_forall in E. rewrite (E _ Hin) in Hf. done. }
  rewrite !Hex, !Hall by done. by rewrite !andb_false_r.
Qed.

(** X11. With the tiers the repository exports, Tier B is never called:
    the exported Tier A answers 'no' on both axes, which settles both.
    Neither has an [await] of its own, so a step with them runs to its end
    before anything else does.  So when an interval is live in a state of a
    run, the ticks of that interval leave the job [success] with every task
    that was left written as 'no'/'no' with no source, counts 0 and no
    message, and the outcome says some fields and some attributes are 'no'
    and not all are 'yes'. *)
Theorem exported_tiers_answer_no st t iv :
  reachable st ->
  timers st !! t = Some iv ->
  (forall files jobId rkey ctx,
     snd (run_tiers TierA.exported_locateAndMap TierB.exported_locateAndMap
            files jobId rkey ctx) = [CallA (tierA_ctx files jobId rkey ctx)])
  /\ exists job job',
       store st !! iv_jobId iv = Some job
       /\ store (settled_ticks TierA.exported_locateAndMap
                   TierB.exported_locateAndMap
                   (iv_jobId iv) (iv_ctx iv)
                   (length (reports job) - _cursor job) st)
            !! iv_jobId iv = Some job'
       /\ overall job' = success
       /\ (forall i r, _cursor job <= i -> reports job !! i = Some r ->
             reports job' !! i = Some (no_task (reportKey r)))
       /\ (forall i, i < _cursor job -> reports job' !! i = reports job !! i)
       /\ outcome job' = mkOutcome true true false false.
Proof.
  intros Hreach Hiv. split; [done|].
  destruct (tick_finds_task _ _ _ Hreach Hiv) as (job & r & Hjob & _ & Hov & Hr).
  assert (Hlt : _cursor job < length (reports job)) by by eapply lookup_lt_Some.
  set (n := length (reports job) - _cursor job).
  destruct (settled_ticks_progress TierA.exported_locateAndMap
              TierB.exported_locateAndMap
              (iv_jobId iv) (iv_ctx iv) st job) with (k := n)
    as (job' & Hj' & _ & _ & Ho' & _ & Hout & Hsame & Hdone & _);
    [intros files rkey; by eexists _, _|done|done|done|lia|].
  assert (Hwritten : forall i r0, _cursor job <= i -> reports job !! i = Some r0 ->
            reports job' !! i = Some (no_task (reportKey r0))).
  { intros i r0 Hi Hr0.
    destruct (Hdone i r0) as (result & calls & Hrun & Hw); [|done|].
    - apply lookup_lt_Some in Hr0. lia.
    - rewrite run_tiers_exported in Hrun. injection Hrun as <- _. done. }
  exists job, job'. repeat split; try done.
  - rewrite Ho'. by destruct (Nat.leb_spec (length (reports job)) (_cursor job + n));
      [|lia].
  - intros i Hi. apply Hsame. by left.
  - rewrite Hout by lia. eapply computeOutcome_with_no. by apply Hwritten.
Qed.

Lemma exported_tiers_answer_no_witness :
  exists job',
    store (settled_ticks TierA.exported_locateAndMap TierB.exported_locateAndMap
             "job1" (sched_ctx (keys_payload (KArray ["soi"; "pands"]))) 2
             started_state)
      !! "job1" = Some job'
    /\ overall job' = success
    /\ reports job' = [no_task "soi"; no_task "pands"]
    /\ outcome job' = mkOutcome true true false false.
Proof.
  destruct (exported_tiers_answer_no started_state 0 _
              reachable_started started_timer)
    as (_ & job & job' & Hjob & Hj' & Hs & Hw & _ & Ho).
  simpl in Hjob. rewrite started_job in Hjob. injection Hjob as <-.
  exists job'. repeat split; try done.
  simpl in Hj'. vm_compute in Hj'. by injection Hj' as <-.
Defined.

(** ** The outcome flags *)

Lemma all_yes_excludes_any_no (f : ReportTask -> Val) (l : list ReportTask) :
  forallb (fun r => is_str (f r) "yes") l
  && existsb (fun r => is_str (f r) "no") l = false.
Proof.
  induction l as [|x l IH]; [done|]. simpl.
  destruct (f x) as [| | | |s| | |]; simpl; try done.
  destruct (String.eqb_spec s "yes") as [->|Hy]; simpl; [|done].
  exact IH.
Qed.

Lemma all_yes_or_any_no (f : ReportTask -> Val) (l : list ReportTask) :
  Forall (fun r => decided (f r)) l ->
  forallb (fun r => is_str (f r) "yes") l
  = negb (existsb (fun r => is_str (f r) "no") l).
Proof.
  induction 1 as [|x l [Hx|Hx] _ IH]; [done| |]; simpl; rewrite Hx; simpl.
  - exact IH.
  - done.
Qed.

(** X12. In every state of a run, an "all yes" flag and the "any no" flag of
    the same axis are never both set; for a job that has reports, all of
    them with both axes in {yes, no}, each "all yes" flag is the negation of
    the "any no" flag of its axis.  While a task is still 'pending', as one
    may be even in a [success] job when steps have overlapped, both flags
    of an axis can be false. *)
Theorem outcome_flags_exclusive st id job :
  reachable st ->
  store st !! id = Some job ->
  fieldsAllYes (outcome job) && fieldsAnyNo (outcome job) = false
  /\ attributesAllYes (outcome job) && attributesAnyNo (outcome job) = false
  /\ (Forall terminal (reports job) -> reports job <> [] ->
      fieldsAllYes (outcome job) = negb (fieldsAnyNo (outcome job))
      /\ attributesAllYes (outcome job) = negb (attributesAnyNo (outcome job))).
Proof.
  intros Hreach Hjob.
  pose proof (inv_jobs _ (reachable_inv _ Hreach) _ _ Hjob) as Hj.
  rewrite (inv_outcome _ Hj). unfold computeOutcome. simpl.
  split; [|split].
  - rewrite <- andb_assoc, all_yes_excludes_any_no. apply andb_false_r.
  - rewrite <- andb_assoc, all_yes_excludes_any_no. apply andb_false_r.
  - intros Hall Hne.
    assert (Hlen : (0 <? length (reports job))%nat = true).
    { apply Nat.ltb_lt. destruct (reports job); [done|simpl; lia]. }
    rewrite Hlen. simpl. split; apply all_yes_or_any_no.
    + eapply Forall_impl; [exact Hall|]. by intros r [H _].
    + eapply Forall_impl; [exact Hall|]. by intros r [_ H].
Qed.

Lemma outcome_flags_exclusive_witness :
  exists job,
    store ticked_state !! "job1" = Some job
    /\ fieldsAllYes (outcome job) && fieldsAnyNo (outcome job) = false
    /\ attributesAllYes (outcome job) && attributesAnyNo (outcome job) = false.
Proof.
  eexists. split; [apply ticked_job|].
  destruct (outcome_flags_exclusive ticked_state "job1" _
              reachable_ticked ticked_job) as (H1 & H2 & _).
  by split.
Defined.

(** * Further properties of Tier A *)

Lemma fold_left_concat {A B} (g : A -> B -> A) (ls : list (list B)) (a : A) :
  fold_left g (concat ls) a = fold_left (fun h l => fold_left g l h) ls a.
Proof.
  revert a. induction ls as [|l ls IH]; intros a; [done|].
  simpl. by rewrite fold_left_app, IH.
Qed.

Lemma fold_left_last_match {A B} (p : B -> bool) (v : B -> A) (fs : list B) (a : A) :
  fold_left (fun h f => if p f then v f else h) fs a
  = match last (List.filter p fs) with
    | Some f => v f
    | None => a
    end.
Proof.
  revert a. induction fs as [|x fs IH]; intros a; [done|].
  simpl. rewrite IH. destruct (p x); [|done].
  rewrite last_cons. by destruct (last (List.filter p fs)).
Qed.

Lemma scan_routines_flat reportKey (rs : list Routine) :
  TierA.scan_routines reportKey rs
  = fold_left
      (fun h f => if String.eqb (key f) reportKey
                  then str_or_null (human_name f) else h)
      (concat (map (fun r => default [] (required_files r)) rs)) None.
Proof.
  unfold TierA.scan_routines, TierA.scan_files. rewrite fold_left_concat.
  generalize (@None string). induction rs as [|r rs IH]; intros a; [done|].
  simpl. apply IH.
Qed.

(** X14. The human name [findReportMeta] returns is that of the last
    required file, over the routines in order, whose key is the report key:
    a later entry with the same key and no (or an empty) name erases an
    earlier name.  So a name that is returned is not empty and is the name of
    a required file with that key, and without such a file, or without a
    dataset, there is none. *)
Theorem findReportMeta_last_match db reportKey :
  let matching :=
    List.filter (fun f => String.eqb (key f) reportKey) (db_required_files db) in
  TierA.humanName (TierA.findReportMeta db reportKey)
  = match last matching with
    | Some f => str_or_null (human_name f)
    | None => None
    end
  /\ (forall h, TierA.humanName (TierA.findReportMeta db reportKey) = Some h ->
        h <> ""
        /\ exists f, f ∈ db_required_files db
                     /\ key f = reportKey /\ human_name f = Some h)
  /\ (matching = [] -> TierA.humanName (TierA.findReportMeta db reportKey) = None).
Proof.
  intros matching.
  assert (Hmain : TierA.humanName (TierA.findReportMeta db reportKey)
                  = match last matching with
                    | Some f => str_or_null (human_name f)
                    | None => None
                    end).
  { unfold TierA.findReportMeta. cbn [TierA.humanName].
    rewrite scan_routines_flat, fold_left_last_match.
    subst matching. unfold db_required_files.
    destruct db as [[[sd|]]|]; done. }
  split; [done|]. split.
  - intros h. rewrite Hmain.
    destruct (last matching) as [f|] eqn:Hlast; [|done].
    intros Hh.
    assert (Hin : In f matching).
    { apply list_elem_of_In. apply last_Some in Hlast as [l' ->].
      apply elem_of_app. right. by left. }
    apply filter_In in Hin as [Hin Hkey].
    unfold str_or_null in Hh. destruct (human_name f) as [x|] eqn:Hx; [|done].
    destruct (String.eqb_spec x ""); [done|]. injection Hh as <-.
    split; [done|]. exists f.
    by rewrite list_elem_of_In, <- String.eqb_eq.
  - intros Hnone. by rewrite Hmain, Hnone.
Qed.

Lemma includes_empty s : includes s "" = true.
Proof. by destruct s. Qed.


(** X15. Edge cases of the declared rules: without any uploaded file they
    answer 'no' on both axes whatever the key and the dataset; with the empty
    string as report key, which [toLowerCase] leaves empty, they answer
    'yes' on the fields axis as soon as one file was uploaded, every name
    containing the empty string. *)
Theorem declared_rules_edge_cases (toLowerCase : string -> string) ctx :
  exists va a,
    TierA.locateAndMap toLowerCase ctx = Returned va
    /\ normalizeTierResult va = Some a
    /\ (a_files ctx = [] ->
        r_fieldsMapped a = VStr "no" /\ r_attributesMapped a = VStr "no"
        /\ r_mappedCount a = num 0)
    /\ (a_reportKey ctx = "" -> toLowerCase "" = "" -> a_files ctx <> [] ->
        r_fieldsMapped a = VStr "yes").
Proof.
  unfold TierA.locateAndMap.
  eexists _, _. split; [reflexivity|]. split; [apply normalize_legacy|].
  cbn [r_fieldsMapped r_attributesMapped r_mappedCount]. split.
  - intros ->. by unfold TierA.looksLikeMatch.
  - intros -> Hlow Hne. unfold TierA.looksLikeMatch.
    destruct (a_files ctx) as [|f fs]; [done|]. simpl.
    by rewrite Hlow, includes_empty.
Qed.

Lemma declared_rules_edge_cases_witness :
  exists va a,
    TierA.locateAndMap ascii_toLowerCase
      (mkTierACtx "job1" "" [mkFile (Some "x.csv") None] None None None [])
    = Returned va
    /\ normalizeTierResult va = Some a
    /\ r_fieldsMapped a = VStr "yes".
Proof.
  destruct (declared_rules_edge_cases ascii_toLowerCase
              (mkTierACtx "job1" "" [mkFile (Some "x.csv") None] None None None []))
    as (va & a & Hr & Hn & _ & Hyes).
  exists va, a. repeat split; try done. by apply Hyes.
Defined.

(** X16. The declared rules always settle both axes, so a step that runs
    them never calls Tier B: the attributes axis is 'yes' only together with
    the fields axis, the source is always 'db', there is no message, and
    [mappedCount] is [totalFields] when the attributes axis is 'yes' and 0
    otherwise, hence never above [totalFields]. *)
Theorem declared_rules_settle_both_axes (toLowerCase : string -> string)
    tierB files jobId rkey ctx :
  exists a (m n : nat),
    run_tiers (TierA.locateAndMap toLowerCase) tierB files jobId rkey ctx
      = (inr (Some a), [CallA (tierA_ctx files jobId rkey ctx)])
    /\ decided (r_fieldsMapped a) /\ decided (r_attributesMapped a)
    /\ (r_attributesMapped a = VStr "yes" -> r_fieldsMapped a = VStr "yes")
    /\ r_locatedSource a = VStr "db"
    /\ r_message a = VNull
    /\ r_mappedCount a = num (Z.of_nat m)
    /\ r_totalFields a = num (Z.of_nat n)
    /\ m <= n
    /\ (r_attributesMapped a = VStr "yes" -> m = n /\ 0 < n)
    /\ (r_attributesMapped a <> VStr "yes" -> m = 0).
Proof.
  set (ca := tierA_ctx files jobId rkey ctx).
  set (meta := TierA.findReportMeta (a_db ca) (a_reportKey ca)).
  set (located := TierA.looksLikeMatch toLowerCase (a_files ca) (a_reportKey ca)
                    (TierA.humanName meta)).
  set (mapped := located && (0 <? TierA.totalFields meta)%nat).
  exists (mkResult (TierA.yes_no located) (TierA.yes_no mapped) (VStr "db")
            (num (if mapped then Z.of_nat (TierA.totalFields meta) else 0))
            (num (Z.of_nat (TierA.totalFields meta))) VNull),
    (if mapped then TierA.totalFields meta else 0), (TierA.totalFields meta).
  split.
  - unfold run_tiers. fold ca. unfold TierA.locateAndMap.
    fold meta. fold located. fold mapped. rewrite normalize_legacy.
    by destruct located, mapped.
  - cbn [r_fieldsMapped r_attributesMapped r_locatedSource r_message
         r_mappedCount r_totalFields].
    assert (Hm : mapped = true -> located = true /\ 0 < TierA.totalFields meta).
    { subst mapped. intros [H1 H2]%andb_true_iff. by apply Nat.ltb_lt in H2. }
    destruct mapped eqn:Em.
    + destruct (Hm eq_refl) as [-> Hpos].
      repeat split; try done; try (by left); try lia.
    + repeat split; try done; try lia.
      * destruct located; [by left|by right].
      * by right.
Qed.


(** * The upload-analysis page *)

Section JsMapFacts.

Context {V : Type}.
Implicit Types (m : JsMap V) (k : string) (v : V).

Lemma map_has_keys k m : map_has k m = true <-> k ∈@{list string} map fst m.
Proof.
  unfold map_has. rewrite existsb_exists, list_elem_of_In, in_map_iff. split.
  - intros (kv & Hin & Hk). exists kv. by apply String.eqb_eq in Hk.
  - intros (kv & Hk & Hin). exists kv. split; [done|]. by apply String.eqb_eq.
Qed.

Lemma map_get_set k k' v m :
  map_get k (map_set k' v m) = if String.eqb k k' then Some v else map_get k m.
Proof.
  induction m as [|[k0 v0] m IH]; simpl.
  - done.
  - destruct (String.eqb_spec k' k0) as [->|Hne]; simpl.
    + by destruct (String.eqb_spec k k0).
    + rewrite IH. destruct (String.eqb_spec k k0) as [->|Hk]; [|done].
      by destruct (String.eqb_spec k0 k').
Qed.

Lemma map_keys_set k v m :
  map fst (map_set k v m)
  = if map_has k m then map fst m else (map fst m ++ [k])%list.
Proof.
  induction m as [|[k0 v0] m IH]; simpl; [done|].
  unfold map_has in *. simpl.
  destruct (String.eqb_spec k k0) as [->|Hne]; simpl; [done|].
  rewrite IH. by destruct (existsb _ m).
Qed.

Lemma map_set_NoDup k v m :
  NoDup (map fst m) -> NoDup (map fst (map_set k v m)).
Proof.
  intros Hnd. rewrite map_keys_set.
  destruct (map_has k m) eqn:Hhas; [done|].
  apply NoDup_app. split; [done|]. split; [|apply NoDup_singleton].
  intros x Hx Hk. apply list_elem_of_singleton in Hk as ->.
  apply map_has_keys in Hx. congruence.
Qed.

Lemma map_get_elem k v m :
  NoDup (map fst m) -> ((k, v) ∈ m <-> map_get k m = Some v).
Proof.
  induction m as [|[k0 v0] m IH]; simpl; intros Hnd.
  - split; [by intros ?%elem_of_nil|done].
  - apply NoDup_cons in Hnd as [Hk0 Hnd]. rewrite elem_of_cons, (IH Hnd).
    destruct (String.eqb_spec k k0) as [->|Hne].
    + split; [|intros [= ->]; by left].
      intros [[= ->]|Hget]; [done|]. exfalso. apply Hk0.
      apply (IH Hnd) in Hget.
      apply list_elem_of_In, in_map_iff. exists (k0, v).
      by rewrite <- list_elem_of_In.
    + split; [|by right]. by intros [[= ]|].
Qed.

Variable kf : V -> string.

Lemma build_get (l : list V) m k :
  map_get k (fold_left (fun m f => map_set (kf f) f m) l m)
  = match last (List.filter (fun f => String.eqb k (kf f)) l) with
    | Some f => Some f
    | None => map_get k m
    end.
Proof.
  revert m. induction l as [|x l IH]; intros m; [done|].
  simpl. rewrite IH, map_get_set.
  destruct (String.eqb k (kf x)); [|done].
  rewrite last_cons. by destruct (last (List.filter _ l)).
Qed.

Lemma build_NoDup (l : list V) m :
  NoDup (map fst m) ->
  NoDup (map fst (fold_left (fun m f => map_set (kf f) f m) l m)).
Proof.
  revert m. induction l as [|x l IH]; intros m Hnd; [done|].
  simpl. by apply IH, map_set_NoDup.
Qed.

End JsMapFacts.

Lemma fold_left_cond {A B} (p : B -> bool) (g : A -> B -> A) (l : list B) (a : A) :
  fold_left (fun m f => if p f then g m f else m) l a
  = fold_left g (List.filter p l) a.
Proof.
  revert a. induction l as [|x l IH]; intros a; [done|].
  simpl. rewrite IH. by destruct (p x).
Qed.

Lemma fold_left_nested {A B C} (g : A -> C -> A) (h : B -> list C)
    (l : list B) (a : A) :
  fold_left (fun m r => fold_left g (h r) m) l a
  = fold_left g (concat (map h l)) a.
Proof.
  revert a. induction l as [|x l IH]; intros a; [done|].
  simpl. by rewrite fold_left_app, IH.
Qed.

(** [mergeRequiredReports] sets the required files of the selected routines
    one after the other. *)
Lemma merge_flat routines selectedIds :
  mergeRequiredReports routines selectedIds
  = map_values
      (fold_left (fun m f => map_set (rd_key f) f m)
                 (selected_required routines selectedIds) []).
Proof.
  unfold mergeRequiredReports, selected_required. f_equal.
  rewrite (fold_left_nested
             (fun required f =>
                if rd_required f then map_set (rd_key f) f required else required)
             (fun r => default [] (ui_required_files r))).
  apply (fold_left_cond rd_required (fun m f => map_set (rd_key f) f m)).
Qed.

Lemma build_keyed (l : list ReportDef) (m : JsMap ReportDef) :
  Forall (fun kv => rd_key (snd kv) = fst kv) m ->
  Forall (fun kv => rd_key (snd kv) = fst kv)
         (fold_left (fun m f => map_set (rd_key f) f m) l m).
Proof.
  revert m. induction l as [|x l IH]; intros m Hm; [done|].
  simpl. apply IH. clear IH.
  induction Hm as [|[k0 v0] m Hk Hm' IHm]; simpl.
  - by repeat constructor.
  - destruct (String.eqb (rd_key x) k0); by constructor.
Qed.

Lemma keyed_keys (m : JsMap ReportDef) :
  Forall (fun kv => rd_key (snd kv) = fst kv) m ->
  map rd_key (map_values m) = map fst m.
Proof.
  unfold map_values. induction 1 as [|kv m Hk _ IH]; [done|].
  simpl. by rewrite Hk, IH.
Qed.

Lemma merge_NoDup routines selectedIds :
  NoDup (map rd_key (mergeRequiredReports routines selectedIds)).
Proof.
  rewrite merge_flat, keyed_keys by (by apply build_keyed).
  apply build_NoDup. constructor.
Qed.

Lemma merge_elem routines selectedIds f :
  f ∈ mergeRequiredReports routines selectedIds
  <-> last (List.filter (fun g => String.eqb (rd_key f) (rd_key g))
                        (selected_required routines selectedIds)) = Some f.
Proof.
  rewrite merge_flat.
  set (l := selected_required routines selectedIds).
  set (M := fold_left (fun m g => map_set (rd_key g) g m) l []).
  assert (Hkeyed : Forall (fun kv => rd_key (snd kv) = fst kv) M)
    by by apply build_keyed.
  assert (Hnd : NoDup (map fst M)) by (apply build_NoDup; constructor).
  assert (Hget : map_get (rd_key f) M
                 = last (List.filter (fun g => String.eqb (rd_key f) (rd_key g)) l)).
  { subst M. rewrite (build_get rd_key). by destruct (last _). }
  rewrite <- Hget, <- (map_get_elem _ _ _ Hnd).
  unfold map_values. rewrite list_elem_of_fmap. split.
  - intros ([k v] & -> & Hin). simpl.
    rewrite Forall_forall in Hkeyed. pose proof (Hkeyed _ Hin) as E.
    simpl in E. by rewrite E.
  - intros Hin. by exists (rd_key f, f).
Qed.

Lemma selected_required_elem routines selectedIds f :
  f ∈ selected_required routines selectedIds
  <-> rd_required f = true
      /\ exists r, r ∈ routines
           /\ (size selectedIds = 0 \/ ui_id r ∈ selectedIds)
           /\ f ∈ default [] (ui_required_files r).
Proof.
  unfold selected_required.
  rewrite list_elem_of_In, filter_In, in_concat. split.
  - intros [(l & Hl & Hf) Hreq]. split; [done|].
    apply in_map_iff in Hl as (r & <- & Hr). apply filter_In in Hr as [Hr Hsel].
    exists r. rewrite !list_elem_of_In. split; [done|]. split; [|done].
    apply orb_true_iff in Hsel as [H|H]; apply bool_decide_eq_true in H; tauto.
  - intros [Hreq (r & Hr & Hsel & Hf)]. split; [|done].
    exists (default [] (ui_required_files r)).
    split; [|by apply list_elem_of_In]. apply in_map_iff. exists r. split; [done|].
    apply filter_In. split; [by apply list_elem_of_In|].
    apply orb_true_iff. destruct Hsel; [left|right]; by apply bool_decide_eq_true.
Qed.

(** X17. [mergeRequiredReports] returns one entry per key: the keys of the
    result are pairwise distinct; an entry is in the result exactly when it
    is the last required file with its key among those the selected routines
    list (every routine when nothing is selected), so every such key is
    there and only files marked required of selected routines are. *)
Theorem mergeRequiredReports_one_per_key routines selectedIds :
  NoDup (map rd_key (mergeRequiredReports routines selectedIds))
  /\ (forall f,
        f ∈ mergeRequiredReports routines selectedIds
        <-> last (List.filter (fun g => String.eqb (rd_key f) (rd_key g))
                              (selected_required routines selectedIds)) = Some f)
  /\ (forall f,
        f ∈ mergeRequiredReports routines selectedIds ->
        rd_required f = true
        /\ exists r, r ∈ routines
             /\ (size selectedIds = 0 \/ ui_id r ∈ selectedIds)
             /\ f ∈ default [] (ui_required_files r))
  /\ (forall r f,
        r ∈ routines -> size selectedIds = 0 \/ ui_id r ∈ selectedIds ->
        f ∈ default [] (ui_required_files r) -> rd_required f = true ->
        rd_key f ∈ map rd_key (mergeRequiredReports routines selectedIds)).
Proof.
  split; [apply merge_NoDup|]. split; [apply merge_elem|]. split.
  - intros f Hf. apply selected_required_elem.
    apply merge_elem in Hf. apply last_Some in Hf as [l' Hl'].
    assert (Hin : In f (List.filter (fun g => String.eqb (rd_key f) (rd_key g))
                          (selected_required routines selectedIds))).
    { rewrite Hl'. apply in_or_app. right. by left. }
    apply filter_In in Hin as [Hin _]. by apply list_elem_of_In.
  - intros r f Hr Hsel Hf Hreq.
    assert (Hc : f ∈ selected_required routines selectedIds)
      by (apply selected_required_elem; eauto).
    destruct (last (List.filter (fun g => String.eqb (rd_key f) (rd_key g))
                      (selected_required routines selectedIds))) as [g|] eqn:Hlast.
    + assert (Hg : In g (List.filter (fun g => String.eqb (rd_key f) (rd_key g))
                           (selected_required routines selectedIds))).
      { apply last_Some in Hlast as [l' ->]. apply in_or_app. right. by left. }
      apply filter_In in Hg as [_ Hk]. apply String.eqb_eq in Hk.
      apply list_elem_of_fmap. exists g. split; [done|].
      apply merge_elem. by rewrite <- Hk.
    + apply last_None in Hlast.
      assert (Hin : In f (List.filter (fun g => String.eqb (rd_key f) (rd_key g))
                            (selected_required routines selectedIds))).
      { apply filter_In. split; [by apply list_elem_of_In|]. by apply String.eqb_eq. }
      by rewrite Hlast in Hin.
Qed.

Lemma map_has_get {V} k (m : JsMap V) :
  map_has k m = match map_get k m with Some _ => true | None => false end.
Proof.
  unfold map_has. induction m as [|[k0 v0] m IH]; simpl; [done|].
  destruct (String.eqb k k0); [done|]. exact IH.
Qed.

Lemma collect_get (l : list ReportDef) (m : JsMap ReportDef) k :
  map_get k
    (fold_left
       (fun m f => if negb (map_has (rd_key f) m) then map_set (rd_key f) f m else m)
       l m)
  = match map_get k m with
    | Some v => Some v
    | None => List.find (fun f => String.eqb k (rd_key f)) l
    end.
Proof.
  revert m. induction l as [|x l IH]; intros m; simpl.
  - by destruct (map_get k m).
  - rewrite IH. rewrite map_has_get.
    destruct (String.eqb_spec k (rd_key x)) as [->|Hne].
    + destruct (map_get (rd_key x) m) eqn:Hm; simpl; [by rewrite Hm|].
      by rewrite map_get_set, String.eqb_refl.
    + destruct (map_get (rd_key x) m); simpl; [done|].
      rewrite map_get_set. by destruct (String.eqb_spec k (rd_key x)).
Qed.

Lemma collect_NoDup (l : list ReportDef) (m : JsMap ReportDef) :
  NoDup (map fst m) ->
  NoDup (map fst
    (fold_left
       (fun m f => if negb (map_has (rd_key f) m) then map_set (rd_key f) f m else m)
       l m)).
Proof.
  revert m. induction l as [|x l IH]; intros m Hnd; [done|].
  simpl. apply IH. destruct (negb _); [by apply map_set_NoDup|done].
Qed.

(** X18. [collectAllReportDefs] keeps the first definition of each key:
    looking a key up in the map gives the first required file with that key
    over the routines in order, whether marked required or not, and nothing
    when no routine lists the key; no key is entered twice. *)
Theorem collectAllReportDefs_first_wins routines k :
  map_get k (collectAllReportDefs routines)
  = List.find (fun f => String.eqb k (rd_key f))
      (concat (map (fun r => default [] (ui_required_files r)) routines))
  /\ NoDup (map fst (collectAllReportDefs routines)).
Proof.
  unfold collectAllReportDefs.
  rewrite (fold_left_nested
             (fun m f => if negb (map_has (rd_key f) m)
                         then map_set (rd_key f) f m else m)
             (fun r => default [] (ui_required_files r))).
  split; [by rewrite collect_get|]. apply collect_NoDup. constructor.
Qed.

(** X19. The keys the page sends when it falls back on the selected
    routines are those of [mergeRequiredReports]; [start] on a new
    (non-empty) id with these keys seeds one task per key, in that order,
    and no two tasks of the job have the same key. *)
Theorem page_keys_seed_distinct_tasks routines selectedIds now jobId payload st :
  jobId <> "" ->
  store st !! jobId = None ->
  reportKeys payload
  = KArray (map rd_key (mergeRequiredReports routines selectedIds)) ->
  exists job,
    store (fst (start now jobId payload st)) !! jobId = Some job
    /\ map reportKey (reports job)
       = map rd_key (mergeRequiredReports routines selectedIds)
    /\ NoDup (map reportKey (reports job))
    /\ total (progress job)
       = length (mergeRequiredReports routines selectedIds).
Proof.
  intros Hid Hjob Hkeys.
  destruct (start_fresh_job now jobId payload st Hid Hjob)
    as (job & Hs & Hr & Ht & _).
  rewrite Hkeys in Hr, Ht. cbn [keys_of] in Hr, Ht.
  assert (Hk : map reportKey (reports job)
               = map rd_key (mergeRequiredReports routines selectedIds)).
  { rewrite Hr, map_map. simpl. apply map_id. }
  exists job. repeat split; try done.
  - rewrite Hk. apply merge_NoDup.
  - by rewrite Ht, length_map.
Qed.

Lemma page_keys_seed_distinct_tasks_witness :
  mergeRequiredReports sample_routines ∅
  = [mkReportDef "soi" (Some "SOI, second") true; mkReportDef "pands" None true]
  /\ exists job,
       store (fst (start 0 "job1"
                     (keys_payload
                        (KArray (map rd_key (mergeRequiredReports sample_routines ∅))))
                     init_state)) !! "job1" = Some job
       /\ map reportKey (reports job) = ["soi"; "pands"]
       /\ NoDup (map reportKey (reports job)).
Proof.
  split; [by vm_compute|].
  destruct (page_keys_seed_distinct_tasks sample_routines ∅ 0 "job1"
              (keys_payload
                 (KArray (map rd_key (mergeRequiredReports sample_routines ∅))))
              init_state) as (job & Hs & Hk & Hnd & _);
    [discriminate|reflexivity|reflexivity|].
  exists job. by repeat split.
Defined.

(** ** The router *)

Lemma yes_iff_not_no {A} (f : A -> Val) (l : list A) :
  Forall (fun r => gv_axis (f r)) l ->
  forallb (fun r => negb (is_str (f r) "pending")) l = true ->
  forallb (fun r => is_str (f r) "yes") l
  = negb (existsb (fun r => is_str (f r) "no") l).
Proof.
  induction 1 as [|x l [Hx|[Hx|Hx]] _ IH]; [done|..]; simpl; rewrite Hx; simpl;
    done.
Qed.

Lemma forallb_and {A} (p q : A -> bool) (l : list A) :
  forallb (fun r => p r && q r) l = forallb p l && forallb q l.
Proof.
  induction l as [|x l IH]; [done|]. simpl. rewrite IH.
  destruct (p x), (q x), (forallb p l); simpl; try done.
Qed.

Lemma existsb_Val {A} (f : A -> Val) lit (l : list A) :
  existsb (fun r => is_str (f r) lit) l = true
  <-> exists r, r ∈ l /\ f r = VStr lit.
Proof.
  rewrite existsb_exists. split; intros (r & Hin & Hr); exists r.
  - by rewrite list_elem_of_In, <- is_str_true.
  - by rewrite <- list_elem_of_In, is_str_true.
Qed.

Lemma forallb_Val {A} (f : A -> Val) lit (l : list A) :
  forallb (fun r => is_str (f r) lit) l = true
  <-> forall r, r ∈ l -> f r = VStr lit.
Proof.
  rewrite forallb_forall. split; intros H r Hin.
  - apply is_str_true, H. by apply list_elem_of_In.
  - apply is_str_true, H. by apply list_elem_of_In.
Qed.

(** X20. [routeNext] on reports whose axes are 'yes', 'no' or 'pending' (as
    [normalizeReport] stores them): it alerts "no reports" exactly on the
    empty list; a 'no' on some fields axis always sends to the field
    selector, even while other reports are pending; and once detection is
    complete it never alerts "in progress": it sends to the field selector
    when some fields axis is 'no', to the attribute selector when every
    fields axis is 'yes' and some attributes axis is 'no', and to the
    completion page when everything is 'yes'. *)
Theorem routeNext_decides reps :
  Forall (fun r => gv_axis (gv_fieldsMapped r) /\ gv_axis (gv_attributesMapped r))
         reps ->
  (routeNext reps = AlertNoReports <-> reps = [])
  /\ ((exists r, r ∈ reps /\ gv_fieldsMapped r = VStr "no") ->
      routeNext reps = GoFieldSelector)
  /\ (isDetectionComplete reps = true ->
      routeNext reps <> AlertInProgress
      /\ (routeNext reps = GoFieldSelector
          <-> exists r, r ∈ reps /\ gv_fieldsMapped r = VStr "no")
      /\ (routeNext reps = GoAttributeSelector
          <-> (forall r, r ∈ reps -> gv_fieldsMapped r = VStr "yes")
              /\ exists r, r ∈ reps /\ gv_attributesMapped r = VStr "no")
      /\ (routeNext reps = GoProcessComplete
          <-> forall r, r ∈ reps ->
                gv_fieldsMapped r = VStr "yes"
                /\ gv_attributesMapped r = VStr "yes")).
Proof.
  intros Hax. unfold routeNext.
  rewrite <- (existsb_Val gv_fieldsMapped "no").
  split; [|split].
  - destruct reps as [|r reps]; [done|]. cbn [length Nat.eqb].
    split; [|done]. by repeat case_match.
  - intros Hno. destruct reps as [|r reps]; [done|].
    cbn [length Nat.eqb]. by rewrite Hno.
  - unfold isDetectionComplete. rewrite forallb_and.
    intros [Hlen [Hf Ha]%andb_true_iff]%andb_true_iff.
    assert (Hnz : (length reps =? 0)%nat = false).
    { apply Nat.ltb_lt in Hlen. apply Nat.eqb_neq. lia. }
    rewrite Hnz.
    rewrite <- (forallb_Val gv_fieldsMapped "yes"),
            <- (existsb_Val gv_attributesMapped "no").
    assert (Hboth : (forall r, r ∈ reps ->
                       gv_fieldsMapped r = VStr "yes"
                       /\ gv_attributesMapped r = VStr "yes")
                    <-> forallb (fun r => is_str (gv_fieldsMapped r) "yes") reps
                        && forallb (fun r => is_str (gv_attributesMapped r) "yes") reps
                        = true).
    { rewrite andb_true_iff, !forallb_Val. split.
      - intros H. split; intros r Hr; by apply H.
      - intros [H1 H2] r Hr. split; [by apply H1|by apply H2]. }
    rewrite Hboth.
    rewrite (yes_iff_not_no gv_fieldsMapped reps),
            (yes_iff_not_no gv_attributesMapped reps); try done.
    + destruct (existsb (fun r => is_str (gv_fieldsMapped r) "no") reps),
        (existsb (fun r => is_str (gv_attributesMapped r) "no") reps);
        simpl; repeat split; try done; intros []; done.
    + eapply Forall_impl; [exact Hax|]. by intros r [_ H].
    + eapply Forall_impl; [exact Hax|]. by intros r [H _].
Qed.

Lemma routeNext_decides_witness :
  routeNext [mkGvReport "soi" (VStr "yes") (VStr "no");
             mkGvReport "pands" (VStr "yes") (VStr "yes")] <> AlertInProgress.
Proof.
  destruct (routeNext_decides
              [mkGvReport "soi" (VStr "yes") (VStr "no");
               mkGvReport "pands" (VStr "yes") (VStr "yes")])
    as (_ & _ & H).
  - repeat constructor; unfold gv_axis; simpl; tauto.
  - by destruct (H eq_refl) as [H' _].
Defined.

(** * The fallback tier of the repository *)

Lemma terminalize_yes_iff v : terminalize v = VStr "yes" <-> v = VStr "yes".
Proof.
  rewrite terminalize_yes_no, <- (is_str_true v "yes").
  destruct (is_str v "yes"); split; try done; intros H; discriminate H.
Qed.

Lemma normalize_exported_B ctx :
  exists vb,
    TierB.exported_locateAndMap ctx = Returned vb
    /\ normalizeTierResult vb
       = Some (mkResult (VStr "no") (VStr "no") (VStr "ai") (num 0) (num 0) VNull).
Proof. by eexists. Qed.

(** X21. With the Tier B the repository exports, the fallback never turns an
    axis into 'yes': whatever Tier A returned, the task gets 'yes' on an axis
    exactly where Tier A's normalized answer is 'yes', and 'no' elsewhere.
    The fallback still leaves a mark: when Tier A answers 'yes' on the fields
    axis with no source of its own and leaves the attributes axis open, the
    task is written with the source 'ai'. *)
Theorem exported_fallback_never_says_yes tierA files jobId rkey ctx va r :
  tierA (tierA_ctx files jobId rkey ctx) = Returned va ->
  exists result calls,
    run_tiers tierA TierB.exported_locateAndMap files jobId rkey ctx
    = (inr result, calls)
    /\ (fieldsMapped (apply_result result r) = VStr "yes"
        <-> opt_get r_fieldsMapped (normalizeTierResult va) = VStr "yes")
    /\ (attributesMapped (apply_result result r) = VStr "yes"
        <-> opt_get r_attributesMapped (normalizeTierResult va) = VStr "yes")
    /\ (forall a,
          normalizeTierResult va = Some a ->
          r_fieldsMapped a = VStr "yes" ->
          ~ decided (r_attributesMapped a) ->
          r_locatedSource a = VNull ->
          locatedSource (apply_result result r) = VStr "ai"
          /\ attributesMapped (apply_result result r) = VStr "no").
Proof.
  intros HA. unfold run_tiers. rewrite HA.
  destruct (aNeedsB (normalizeTierResult va)) eqn:Hneed.
  - destruct (normalize_exported_B (tierB_ctx files jobId rkey ctx))
      as (vb & -> & Hb).
    eexists _, _. split; [done|].
    assert (Haxis : forall f, f = r_fieldsMapped \/ f = r_attributesMapped ->
              terminalize (merge_axis f (normalizeTierResult va)
                             (normalizeTierResult vb)) = VStr "yes"
              <-> opt_get f (normalizeTierResult va) = VStr "yes").
    { intros f Hf. rewrite terminalize_yes_iff, merge_axis_normalized by done.
      rewrite Hb. destruct (normalizeTierResult va) as [a|]; simpl.
      - destruct (is_str (f a) "pending") eqn:Hp.
        + apply is_str_true in Hp. rewrite Hp.
          destruct Hf as [-> | ->]; simpl; split; intros H; discriminate H.
        + done.
      - destruct Hf as [-> | ->]; simpl; split; intros H; discriminate H. }
    split; [apply Haxis; by left|]. split; [apply Haxis; by right|].
    intros a Ha Hyes Hopen Hsrc. rewrite Ha, Hb.
    cbn [apply_result locatedSource attributesMapped opt_get merge_results
         r_fieldsMapped r_attributesMapped r_locatedSource].
    unfold merge_axis. cbn [opt_get]. rewrite Hyes, Hsrc.
    split; [done|].
    rewrite terminalize_yes_no.
    destruct (truthy (r_attributesMapped a)
              && negb (is_str (r_attributesMapped a) "pending")); [|done].
    destruct (is_str (r_attributesMapped a) "yes") eqn:Hy; [|done].
    apply is_str_true in Hy. exfalso. apply Hopen. by left.
  - eexists _, _. split; [done|].
    split; [apply terminalize_yes_iff|]. split; [apply terminalize_yes_iff|].
    intros a Ha Hyes Hopen _. exfalso. rewrite Ha in Hneed.
    apply not_true_iff_false in Hneed. apply Hneed, aNeedsB_spec.
    simpl. tauto.
Qed.

Lemma exported_fallback_never_says_yes_witness :
  exists result calls,
    run_tiers (constA (Returned fields_only)) TierB.exported_locateAndMap
              [] "job1" "soi" bare_ctx = (inr result, calls)
    /\ fieldsMapped (apply_result result (seed "soi")) = VStr "yes"
    /\ locatedSource (apply_result result (seed "soi")) = VStr "ai"
    /\ attributesMapped (apply_result result (seed "soi")) = VStr "no".
Proof.
  destruct (exported_fallback_never_says_yes (constA (Returned fields_only))
              [] "job1" "soi" bare_ctx fields_only (seed "soi") eq_refl)
    as (result & calls & Hrun & Hf & _ & Hsrc).
  exists result, calls. split; [done|]. split; [by apply Hf|].
  eapply Hsrc; [reflexivity|reflexivity| |reflexivity].
  intros [H|H]; discriminate H.
Defined.


(** * The declared rules, spelled out *)

Lemma totalFields_spec db reportKey n :
  (TierA.totalFields (TierA.findReportMeta db reportKey) = n /\ 0 < n)
  <-> exists d sd m sp l,
        db = Some d /\ system_data d = Some sd
        /\ report_field_specs sd = Some m /\ m !! reportKey = Some sp
        /\ fields sp = Some l /\ length l = n /\ l <> [].
Proof.
  unfold TierA.findReportMeta. cbn [TierA.totalFields]. split.
  - intros [Hn Hpos].
    destruct db as [d|]; [|simpl in *; lia].
    destruct (system_data d) as [sd|] eqn:Hsd; [|simpl in *; lia].
    destruct (report_field_specs sd) as [m|] eqn:Hm; [|simpl in *; lia].
    destruct (m !! reportKey) as [sp|] eqn:Hsp; [|simpl in *; lia].
    destruct (fields sp) as [l|] eqn:Hl; [|simpl in *; lia].
    exists d, sd, m, sp, l. repeat split; try done.
    intros ->. simpl in *. lia.
  - intros (d & sd & m & sp & l & -> & Hsd & Hm & Hsp & Hl & Hn & Hne).
    rewrite Hsd, Hm, Hsp, Hl. split; [done|].
    destruct l; [done|simpl in *; lia].
Qed.

(** X13. The declared rules of Tier A, spelled out, for whatever
    [toLowerCase] the runtime has.  The fields axis is 'yes' exactly when
    the lower-cased name of some uploaded file (its original name, or its
    server name when it has no original name) can be cut as prefix, needle,
    suffix where the needle is the lower-cased report key or the lower-cased
    human name of the report when it has one.  The attributes axis is 'yes'
    exactly when moreover the dataset holds a field specification for the
    key with at least one field, and [totalFields] is then its number of
    fields. *)
Theorem declared_rules_substring (toLowerCase : string -> string) ctx :
  let meta := TierA.findReportMeta (a_db ctx) (a_reportKey ctx) in
  let h := toLowerCase (default "" (str_or_null (TierA.humanName meta))) in
  exists va a,
    TierA.locateAndMap toLowerCase ctx = Returned va
    /\ normalizeTierResult va = Some a
    /\ (r_fieldsMapped a = VStr "yes"
        <-> exists f needle pre post,
              f ∈ a_files ctx
              /\ (needle = toLowerCase (a_reportKey ctx)
                  \/ (needle = h /\ h <> ""))
              /\ toLowerCase (TierA.file_name f) = pre +:+ needle +:+ post)
    /\ (r_attributesMapped a = VStr "yes"
        <-> r_fieldsMapped a = VStr "yes"
            /\ exists d sd m sp l,
                 a_db ctx = Some d /\ system_data d = Some sd
                 /\ report_field_specs sd = Some m
                 /\ m !! a_reportKey ctx = Some sp
                 /\ fields sp = Some l
                 /\ l <> []
                 /\ r_totalFields a = num (Z.of_nat (length l))).
Proof.
  intros meta h.
  destruct (declared_rules toLowerCase ctx) as (va & a & Hr & Hn & Hf & Ha & Ht).
  fold meta in Hf, Ha, Ht. fold h in Hf.
  exists va, a. split; [done|]. split; [done|]. split.
  - rewrite Hf. split.
    + intros (f & Hin & [Hq|[Hne Hh]]).
      * apply includes_spec in Hq as (pre & post & Hq).
        exists f, (toLowerCase (a_reportKey ctx)), pre, post. tauto.
      * apply includes_spec in Hh as (pre & post & Hh).
        exists f, h, pre, post. tauto.
    + intros (f & needle & pre & post & Hin & [->|[-> Hne]] & Hcut);
        exists f; (split; [done|]).
      * left. apply includes_spec. eauto.
      * right. split; [done|]. apply includes_spec. eauto.
  - rewrite Ha. split.
    + intros [Hyes Hpos]. split; [done|].
      destruct (proj1 (totalFields_spec (a_db ctx) (a_reportKey ctx) _)
                  (conj eq_refl Hpos))
        as (d & sd & m & sp & l & Hd & Hsd & Hm & Hsp & Hl & Hlen & Hne).
      exists d, sd, m, sp, l. repeat split; try done.
      rewrite Ht. fold meta in Hlen. by rewrite Hlen.
    + intros [Hyes (d & sd & m & sp & l & Hd & Hsd & Hm & Hsp & Hl & Hne & _)].
      split; [done|].
      destruct (proj2 (totalFields_spec (a_db ctx) (a_reportKey ctx) (length l)))
        as [Hlen Hpos]; [exists d, sd, m, sp, l; by repeat split|].
      fold meta in Hlen. by rewrite Hlen.
Qed.

(** * The calls a step makes *)

(** X22. What a step asks of the tiers, stretch by stretch.  At its entry
    it calls Tier A exactly when the job exists, is running and has a task
    at the cursor: once, for the key of that task, with the dataset and ids
    captured when the job was scheduled and with the files the caller's
    array holds at that moment, whatever was pushed to it since included;
    the step is then suspended and the job untouched.  When Tier A has
    answered it calls Tier B exactly when Tier A returned and left an axis
    outside {yes, no}: once, for the same key, again with the files of that
    moment.  After Tier B it calls nothing.  So with tiers that answer at
    once a step calls Tier A, or Tier A then Tier B, and Tier B is never
    called first or alone. *)
Theorem step_call_discipline jobId ctx st :
  (forall job r,
     store st !! jobId = Some job -> overall job = running ->
     reports job !! _cursor job = Some r ->
     step_begin jobId ctx st
     = (suspend (AwaitA jobId ctx (_cursor job) (reportKey r)) st,
        [CallA (mkTierACtx jobId (reportKey r) (current_files st ctx) (ctx_db ctx)
                  (str_or_null (ctx_engagementId ctx))
                  (str_or_null (ctx_adminId ctx)) (ctx_routineCodes ctx))]))
  /\ (snd (step_begin jobId ctx st) <> [] ->
      exists job r,
        store st !! jobId = Some job /\ overall job = running
        /\ reports job !! _cursor job = Some r)
  /\ (forall i rkey c,
        snd (step_afterA jobId ctx i rkey c st)
        = match c with
          | Returned va =>
              if aNeedsB (normalizeTierResult va)
              then [CallB (mkTierBCtx jobId rkey (current_files st ctx) (ctx_db ctx))]
              else []
          | Threw _ => []
          end)
  /\ (forall i resA c, snd (step_afterB jobId i resA c st) = [])
  /\ (forall a fs,
        ctx_files ctx = Some a ->
        current_files (push_files a fs st) ctx = (current_files st ctx ++ fs)%list)
  /\ (forall a fs,
        ctx_files ctx <> Some a ->
        current_files (push_files a fs st) ctx = current_files st ctx)
  /\ (forall tierA tierB job r,
        store st !! jobId = Some job -> overall job = running ->
        reports job !! _cursor job = Some r ->
        let ca := tierA_ctx (current_files st ctx) jobId (reportKey r) ctx in
        let cb := tierB_ctx (current_files st ctx) jobId (reportKey r) ctx in
        snd (settled_step tierA tierB jobId ctx st)
        = match tierA ca with
          | Returned va =>
              if aNeedsB (normalizeTierResult va) then [CallA ca; CallB cb]
              else [CallA ca]
          | Threw _ => [CallA ca]
          end).
Proof.
  split; [|split; [|split; [|split; [|split; [|split]]]]].
  - intros job r Hjob Hov Hr. unfold step_begin. by rewrite Hjob, Hov, Hr.
  - unfold step_begin.
    destruct (store st !! jobId) as [job|]; [|done].
    destruct (overall job) eqn:Hov; [|done|done].
    destruct (reports job !! _cursor job) as [r|] eqn:Hr; [|done].
    intros _. by exists job, r.
  - intros i rkey [va|e]; unfold step_afterA; [|done].
    by destruct (aNeedsB (normalizeTierResult va)).
  - intros i resA [vb|e]; done.
  - intros a fs Ha. unfold current_files, push_files. rewrite Ha. simpl.
    by rewrite lookup_insert_eq.
  - intros a fs Ha. unfold current_files, push_files.
    destruct (ctx_files ctx) as [a'|]; [|done]. simpl.
    rewrite lookup_insert_ne; [done|]. congruence.
  - intros tierA tierB job r Hjob Hov Hr ca cb.
    rewrite (settled_step_running tierA tierB jobId ctx st job r Hjob Hov Hr).
    unfold run_tiers. fold ca. fold cb.
    destruct (tierA ca) as [va|e]; [|done].
    destruct (aNeedsB (normalizeTierResult va)); [|done].
    by destruct (tierB cb).
Qed.

(** * The log line of a step *)

Lemma or_null_template v :
  (if truthy (Js.or v VNull)
   then type_error <$> template_error (Js.or v VNull) else None)
  = type_error <$> template_error v.
Proof.
  unfold Js.or. destruct (truthy v) eqn:Et; [by rewrite Et|].
  simpl. by destruct v.
Qed.

(** X24. The 'applied' log line of [step] stands inside the [try] block,
    after the writes.  When the source written to the task cannot be
    converted to a string (a symbol, say), the line throws: the task is
    written and the cursor, the progress and the outcome are updated, but
    the job ends [failed] with the TypeError's message and its timer
    cleared, although no tier threw.  When the source can be converted, the
    job stays as it was or, with the cursor at the end, becomes [success]. *)
Theorem log_line_failure st jobId i job r result :
  store st !! jobId = Some job ->
  reports job !! i = Some r ->
  exists job',
    store (on_job jobId (fun job => advance i result job (timers st)) st) !! jobId
    = Some job'
    /\ reports job' !! i = Some (apply_result result r)
    /\ _cursor job' = S (_cursor job)
    /\ outcome job' = computeOutcome (reports job')
    /\ (forall e, applied_log (apply_result result r) = Some e ->
          overall job' = failed
          /\ job_message job' = Some (error_text e)
          /\ _timer job' = None)
    /\ (applied_log (apply_result result r) = None ->
        overall job'
        = (if (length (reports job) <=? S (_cursor job))%nat
           then success else overall job)
        /\ job_message job' = job_message job)
    /\ (applied_log (apply_result result r) <> None
        <-> fieldsMapped (apply_result result r) = VStr "yes"
            /\ template_error (opt_get r_locatedSource result) <> None).
Proof.
  intros Hjob Hr.
  destruct (advance_writes st jobId i job r result Hjob Hr)
    as (job' & Hs & _ & Hi & Hc & _ & Ho).
  exists job'. split; [done|]. split; [done|]. split; [done|]. split; [done|].
  assert (Hjob' : job' = fst (advance i result job (timers st))).
  { unfold on_job, commit in Hs. rewrite Hjob in Hs. cbn [store] in Hs.
    rewrite lookup_insert_eq in Hs. by injection Hs as <-. }
  assert (Hlog : alter (apply_result result) i (reports job) !! i ≫= applied_log
                 = applied_log (apply_result result r)).
  { by rewrite list_lookup_alter_eq, Hr. }
  split; [|split].
  - intros e He. rewrite Hjob'. unfold advance. rewrite Hlog, He.
    pose proof (fail_job_fields e
      (mkJob (startedAt job) (overall job)
         (mkProgress (Nat.min (S (_cursor job)) (total (progress job)))
            (total (progress job)))
         (alter (apply_result result) i (reports job))
         (computeOutcome (alter (apply_result result) i (reports job)))
         (_timer job) (S (_cursor job)) (job_message job)) (timers st))
      as (_ & _ & _ & _ & _ & H6 & H7 & H8).
    by rewrite H6, H7, H8.
  - intros Hnone. rewrite Hjob'. unfold advance. rewrite Hlog, Hnone, length_alter.
    destruct (_ <=? _)%nat; [by rewrite clearTimer_fst|done].
  - unfold applied_log. cbn [apply_result locatedSource fieldsMapped].
    rewrite <- (is_str_true (terminalize _) "yes").
    destruct (is_str (terminalize (opt_get r_fieldsMapped result)) "yes").
    + rewrite or_null_template.
      destruct (template_error (opt_get r_locatedSource result)); simpl.
      * split; [by intros _|by intros _].
      * split; [by intros H|by intros [_ H]].
    + simpl. split; [by intros H|by intros [H _]].
Qed.

Lemma log_line_failure_witness :
  exists job',
    store (on_job "job1"
             (fun job => advance 0 (normalizeTierResult symbol_source) job
                           (timers started_state))
             started_state) !! "job1" = Some job'
    /\ fieldsMapped <$> reports job' !! 0 = Some (VStr "yes")
    /\ _cursor job' = 1
    /\ overall job' = failed
    /\ job_message job' = Some "Cannot convert a Symbol value to a string".
Proof.
  destruct (log_line_failure started_state "job1" 0 _ (seed "soi")
              (normalizeTierResult symbol_source) started_job eq_refl)
    as (job' & Hs & Hi & Hc & _ & Hfail & _).
  destruct (Hfail _ eq_refl) as (Hov & Hm & _).
  exists job'. split; [done|]. split; [by rewrite Hi|]. by repeat split.
Defined.
